(** * Coralogix query MCP: query context, dialect detection, retrying
      client and response normalisation

    A shallow embedding of [src/config/limits.ts],
    [src/utils/query-processor.ts], [src/utils/response-processor.ts],
    [src/utils/coralogix-client.ts] and [src/tools/query-logs.ts].

    Conventions of the embedding.
    - A JavaScript string is a list of code units.  The strings the
      program receives are taken with code units in U+0000..U+00FF, the
      8-bit [ascii] characters; white space, word characters, lower
      case and the case folding of regular expressions are those of
      ECMAScript on that range.  [toUpperCase] can leave the range
      (U+00B5 and U+00FF have capitals above it), so its result is a
      list of UTF-16 code units written as numbers.
    - A JavaScript number that the program uses as a count, a status or a
      time value is an integer in [Z]; [NaN] is written out where the
      program can meet it (an invalid [Date] is [None]).
    - A thrown exception is a value of [exn]; code that can throw returns
      [exn + A], and code that talks to the network threads a [world]. *)

From Stdlib Require Import ZArith List Ascii String Bool Lia DecimalString.
From Equations Require Import Equations.
Import ListNotations.

Set Implicit Arguments.
Set Warnings "-register-all".
Local Open Scope Z_scope.

(* ================================================================== *)
(** ** JavaScript strings *)
(* ================================================================== *)

Module Js.

Definition str := list ascii.

(** String literals of the source are written [lit "..."]. *)
Definition lit (s : string) : str := list_ascii_of_string s.

Definition code (c : ascii) : Z := Z.of_N (N_of_ascii c).

Definition chr (z : Z) : ascii := ascii_of_N (Z.to_N z).

Definition eqc (a b : ascii) : bool := Ascii.eqb a b.

Fixpoint eqs (a b : str) : bool :=
  match a, b with
  | [], [] => true
  | x :: a', y :: b' => eqc x y && eqs a' b'
  | _, _ => false
  end.

(** WhiteSpace and LineTerminator code points below U+0100: TAB, LF, VT,
    FF, CR, SP and NBSP.  This is the set of [\s] and of [trim]. *)
Definition isWhiteSpace (c : ascii) : bool :=
  let n := code c in
  ((9 <=? n) && (n <=? 13)) || (n =? 32) || (n =? 160).

(** LineTerminator code points below U+0100: LF and CR. *)
Definition isLineTerminator (c : ascii) : bool :=
  let n := code c in (n =? 10) || (n =? 13).

Definition isDigit (c : ascii) : bool :=
  let n := code c in (48 <=? n) && (n <=? 57).

(** The class [\w]: [A-Za-z0-9_]. *)
Definition isWordChar (c : ascii) : bool :=
  let n := code c in
  ((65 <=? n) && (n <=? 90)) || ((97 <=? n) && (n <=? 122))
  || isDigit c || (n =? 95).

(** [String.prototype.toLowerCase] on one code unit: A-Z, and the
    Latin-1 capitals U+00C0..U+00DE except the multiplication sign. *)
Definition lowerChar (c : ascii) : ascii :=
  let n := code c in
  if ((65 <=? n) && (n <=? 90))
     || ((192 <=? n) && (n <=? 222) && negb (n =? 215))
  then chr (n + 32) else c.

Definition toLowerCase (s : str) : str := map lowerChar s.

(** A string of UTF-16 code units, each written as its number; [units]
    reads a string of the 8-bit range as one. *)
Definition ustr := list Z.

Definition units (s : str) : ustr := map code s.

Fixpoint eqUnits (a b : ustr) : bool :=
  match a, b with
  | [], [] => true
  | x :: a', y :: b' => (x =? y) && eqUnits a' b'
  | _, _ => false
  end.

(** [String.prototype.toUpperCase] on one code unit of the range.  The
    capital of a-z and of U+00E0..U+00FE (the division sign apart) lies
    32 below; the capital of the sharp s U+00DF is the two letters SS;
    the capital of the micro sign U+00B5 is U+039C and that of U+00FF is
    U+0178, both above the range; every other code unit is its own. *)
Definition upperUnits (c : ascii) : ustr :=
  let n := code c in
  if ((97 <=? n) && (n <=? 122))
     || ((224 <=? n) && (n <=? 254) && negb (n =? 247))
  then [n - 32]
  else if n =? 223 then [83; 83]
  else if n =? 181 then [924]
  else if n =? 255 then [376]
  else [n].

Definition toUpperCase (s : str) : ustr := flat_map upperUnits s.

(** WhiteSpace and LineTerminator among all UTF-16 code units: those
    below U+0100, then U+1680, U+2000..U+200A, U+2028, U+2029, U+202F,
    U+205F, U+3000 and U+FEFF. *)
Definition isWhiteSpaceUnit (n : Z) : bool :=
  ((9 <=? n) && (n <=? 13)) || (n =? 32) || (n =? 160)
  || (n =? 5760) || ((8192 <=? n) && (n <=? 8202))
  || (n =? 8232) || (n =? 8233) || (n =? 8239) || (n =? 8287)
  || (n =? 12288) || (n =? 65279).

Fixpoint dropWhile {A} (p : A -> bool) (s : list A) : list A :=
  match s with
  | [] => []
  | c :: s' => if p c then dropWhile p s' else s
  end.

Definition trimStart (s : str) : str := dropWhile isWhiteSpace s.
Definition trimEnd (s : str) : str := rev (dropWhile isWhiteSpace (rev s)).

(** [String.prototype.trim]. *)
Definition trim (s : str) : str := trimEnd (trimStart s).

(** [String.prototype.trim] on a string of UTF-16 code units. *)
Definition trimUnits (s : ustr) : ustr :=
  rev (dropWhile isWhiteSpaceUnit (rev (dropWhile isWhiteSpaceUnit s))).

Fixpoint startsWith (needle s : str) : bool :=
  match needle, s with
  | [], _ => true
  | x :: needle', y :: s' => eqc x y && startsWith needle' s'
  | _ :: _, [] => false
  end.

(** [String.prototype.includes]. *)
Fixpoint includes (needle s : str) : bool :=
  startsWith needle s ||
  match s with
  | [] => false
  | _ :: s' => includes needle s'
  end.

(** [s.split(sep)] for a one-character separator; the result always has
    at least one element. *)
Fixpoint split (sep : ascii) (s : str) : list str :=
  match s with
  | [] => [[]]
  | c :: s' =>
      if eqc c sep then [] :: split sep s'
      else match split sep s' with
           | l :: ls => (c :: l) :: ls
           | [] => [[c]]
           end
  end.

(** [Array.prototype.join]. *)
Fixpoint join (sep : str) (ls : list str) : str :=
  match ls with
  | [] => []
  | [l] => l
  | l :: ls' => l ++ sep ++ join sep ls'
  end.

Definition clampIndex (len i : Z) : Z := Z.min (Z.max i 0) len.

(** [s.substring(a, b)]: both ends clamped to [0, length], swapped when
    out of order. *)
Definition substring (s : str) (a b : Z) : str :=
  let len := Z.of_nat (List.length s) in
  let a' := clampIndex len a in
  let b' := clampIndex len b in
  let lo := Z.min a' b' in
  let hi := Z.max a' b' in
  firstn (Z.to_nat (hi - lo)) (skipn (Z.to_nat lo) s).

(** [s.substring(a)]. *)
Definition substringFrom (s : str) (a : Z) : str :=
  substring s a (Z.of_nat (List.length s)).

(** [Array.prototype.slice(start, end)]: a negative index counts from
    the end, both are clamped to [0, length]. *)
Definition slice {A} (l : list A) (start stop : Z) : list A :=
  let len := Z.of_nat (List.length l) in
  let rel i := if i <? 0 then Z.max (len + i) 0 else Z.min i len in
  let k := rel start in
  let final := rel stop in
  firstn (Z.to_nat (Z.max (final - k) 0)) (skipn (Z.to_nat k) l).

(** Number-to-string conversion of an integer, as a template literal
    does it. *)
Definition showZ (z : Z) : str := lit (NilZero.string_of_int (Z.to_int z)).

End Js.
Import Js.

(* ================================================================== *)
(** ** src/config/limits.ts *)
(* ================================================================== *)

Module MCP_LIMITS.
Definition DEFAULT_LIMIT : Z := 20.
Definition MAX_LIMIT : Z := 50.
Definition MIN_LIMIT : Z := 1.
Definition MAX_MESSAGE_LENGTH : Z := 1000.
Definition MAX_STACK_TRACE_LINES : Z := 5.
Definition MAX_ERROR_CONTEXT : Z := 300.
Definition DEFAULT_TIME_WINDOW_MINUTES : Z := 60.
Definition MAX_TIME_WINDOW_HOURS : Z := 24.
Definition MAX_PAGES : Z := 100.
Definition REQUEST_TIMEOUT_MS : Z := 30000.
Definition MAX_RETRIES : Z := 3.
Definition RETRY_DELAY_MS : Z := 1000.
End MCP_LIMITS.

(** The [timeframe] enumeration of [QueryLogsInput]. *)
Inductive Timeframe := TF_15m | TF_1h | TF_6h | TF_24h | TF_custom.

Definition isCustom (t : Timeframe) : bool :=
  match t with TF_custom => true | _ => false end.

(** [TIMEFRAME_MAP]: the presets in milliseconds; ["custom"] is not a
    key of the table. *)
Definition TIMEFRAME_MAP (t : Timeframe) : option Z :=
  match t with
  | TF_15m => Some (15 * 60 * 1000)
  | TF_1h => Some (60 * 60 * 1000)
  | TF_6h => Some (6 * 60 * 60 * 1000)
  | TF_24h => Some (24 * 60 * 60 * 1000)
  | TF_custom => None
  end.

(* ================================================================== *)
(** ** Regular expressions of the source *)
(* ================================================================== *)

(** Every regular expression literal of the program is a concatenation
    of atoms: literal text, one character of a class, a class under [*]
    or [+], the assertions [\b] and [^] (the latter always under flag
    [m]).  [RegExp.prototype.test] only asks whether some match exists,
    so the matcher explores the same backtracking alternatives as the
    engine and reports whether one succeeds. *)
Module Regex.

Inductive atom :=
| Lit (s : str)                  (* literal characters *)
| Cls (p : ascii -> bool)        (* one character of a class *)
| Star (p : ascii -> bool)       (* class* *)
| Plus (p : ascii -> bool)       (* class+ *)
| WordBoundary                   (* \b *)
| LineStart.                     (* ^ with flag m *)

Record regex := Re { atoms : list atom; ignoreCase : bool }.

(** Canonicalize of the case-insensitive match without the unicode
    flag, on one code unit of the range: the capital of the code unit
    when that is a single code unit, the code unit itself otherwise (so
    the sharp s stays).  The capitals of U+00B5 and U+00FF lie above the
    range and are the capital of no other code unit of the range:
    keeping these two in place gives the same equalities between
    canonical forms. *)
Definition canonical (c : ascii) : ascii :=
  let n := code c in
  if ((97 <=? n) && (n <=? 122))
     || ((224 <=? n) && (n <=? 254) && negb (n =? 247))
  then chr (n - 32) else c.

Definition canonicalize (i : bool) (c : ascii) : ascii :=
  if i then canonical c else c.

Definition sameChar (i : bool) (a b : ascii) : bool :=
  eqc (canonicalize i a) (canonicalize i b).

Definition isWordOpt (c : option ascii) : bool :=
  match c with Some x => isWordChar x | None => false end.

(** [\b] holds between [prev] and the next character of [s] when exactly
    one of them is a word character. *)
Definition atWordBoundary (prev : option ascii) (s : str) : bool :=
  xorb (isWordOpt prev) (isWordOpt (hd_error s)).

(** [^] with flag [m]: at the start of the input or just after a line
    terminator. *)
Definition atLineStart (prev : option ascii) : bool :=
  match prev with None => true | Some c => isLineTerminator c end.

(** Literal text against a prefix of the input; returns the last
    character read and the rest. *)
Fixpoint eatLit (i : bool) (l : str) (prev : option ascii) (s : str)
  : option (option ascii * str) :=
  match l with
  | [] => Some (prev, s)
  | x :: l' =>
      match s with
      | c :: s' => if sameChar i c x then eatLit i l' (Some c) s' else None
      | [] => None
      end
  end.

(** Greedy repetition of a class followed by the continuation [k]: the
    longest run is tried first, then shorter ones. *)
Fixpoint starLoop (p : ascii -> bool) (k : option ascii -> str -> bool)
  (prev : option ascii) (s : str) : bool :=
  match s with
  | c :: s' =>
      if p c
      then if starLoop p k (Some c) s' then true else k prev s
      else k prev s
  | [] => k prev s
  end.

(** Does the sequence of atoms match at this position? *)
Fixpoint matchHere (i : bool) (rs : list atom) (prev : option ascii)
  (s : str) : bool :=
  match rs with
  | [] => true
  | Lit l :: rest =>
      match eatLit i l prev s with
      | Some (prev', s') => matchHere i rest prev' s'
      | None => false
      end
  | Cls p :: rest =>
      match s with
      | c :: s' => if p c then matchHere i rest (Some c) s' else false
      | [] => false
      end
  | Star p :: rest => starLoop p (matchHere i rest) prev s
  | Plus p :: rest =>
      match s with
      | c :: s' =>
          if p c then starLoop p (matchHere i rest) (Some c) s' else false
      | [] => false
      end
  | WordBoundary :: rest =>
      if atWordBoundary prev s then matchHere i rest prev s else false
  | LineStart :: rest =>
      if atLineStart prev then matchHere i rest prev s else false
  end.

(** Try every start position from left to right. *)
Fixpoint searchFrom (i : bool) (rs : list atom) (prev : option ascii)
  (s : str) : bool :=
  if matchHere i rs prev s then true
  else match s with
       | c :: s' => searchFrom i rs (Some c) s'
       | [] => false
       end.

(** [pattern.test(s)]. *)
Definition test (r : regex) (s : str) : bool :=
  searchFrom (ignoreCase r) (atoms r) None s.

Definition oneOf (cs : string) (c : ascii) : bool :=
  existsb (eqc c) (lit cs).

End Regex.
Import Regex.

(* ================================================================== *)
(** ** Exceptions, dates and JSON values of the runtime *)
(* ================================================================== *)

Module Runtime.

Inductive errorClass := Error | RangeError | TypeError | SyntaxError.

(** A thrown value: an [Error] object of some class with its message. *)
Record exn := Throw { ctor : errorClass; message : str }.

Definition throw {A} (c : errorClass) (m : string) : exn + A :=
  inl (Throw c (lit m)).

(** A time value in milliseconds since the epoch; [None] is [NaN].  A
    [Date] object is its time value, an invalid date being [None]. *)
Definition Date := option Z.

Definition TimeClip (v : Z) : Date :=
  if Z.abs v <=? 8640000000000000 then Some v else None.

(** [a - b] and [a > b], [a < b] on numbers that may be [NaN]. *)
Definition numSub (a b : option Z) : option Z :=
  match a, b with
  | Some x, Some y => Some (x - y)
  | _, _ => None
  end.

Definition numGt (a b : option Z) : bool :=
  match a, b with
  | Some x, Some y => x >? y
  | _, _ => false
  end.

Definition numLt (a b : option Z) : bool :=
  match a, b with
  | Some x, Some y => x <? y
  | _, _ => false
  end.

(** Values produced by [JSON.parse], and [undefined].  Objects keep
    their entries in the order of [Object.entries]. *)
Inductive jsval :=
| JUndefined
| JNull
| JBool (b : bool)
| JNum (z : Z)
| JStr (s : str)
| JArr (l : list jsval)
| JObj (fields : list (str * jsval)).

(** ToBoolean. *)
Definition truthy (v : jsval) : bool :=
  match v with
  | JUndefined | JNull => false
  | JBool b => b
  | JNum z => negb (z =? 0)
  | JStr s => match s with [] => false | _ => true end
  | JArr _ | JObj _ => true
  end.

(** [a || b]. *)
Definition orElse (a b : jsval) : jsval := if truthy a then a else b.

Fixpoint lookup (k : str) (fields : list (str * jsval)) : jsval :=
  match fields with
  | [] => JUndefined
  | (k', v) :: rest => if eqs k k' then v else lookup k rest
  end.

(** [v.k] for a property name [k] that is not an array index: reading
    a property of [null] or [undefined] throws, objects are looked up,
    strings and arrays have [length], nothing else has own properties. *)
Definition getProp (v : jsval) (k : string) : exn + jsval :=
  match v with
  | JUndefined =>
      inl (Throw TypeError
             (lit "Cannot read properties of undefined (reading '"
                ++ lit k ++ lit "')"))
  | JNull =>
      inl (Throw TypeError
             (lit "Cannot read properties of null (reading '"
                ++ lit k ++ lit "')"))
  | JObj fields => inr (lookup (lit k) fields)
  | JArr l =>
      inr (if eqs (lit k) (lit "length")
           then JNum (Z.of_nat (List.length l)) else JUndefined)
  | JStr s =>
      inr (if eqs (lit k) (lit "length")
           then JNum (Z.of_nat (List.length s)) else JUndefined)
  | JBool _ | JNum _ => inr JUndefined
  end.

(** [v?.k]. *)
Definition getPropOpt (v : jsval) (k : string) : jsval :=
  match getProp v k with
  | inr x => x
  | inl _ => JUndefined
  end.

End Runtime.
Import Runtime.

(* ================================================================== *)
(** ** src/types/index.ts *)
(* ================================================================== *)

Inductive QuerySyntax := lucene | dataprime.

Module Input.
(** [QueryLogsInput]; an absent optional field is [None]. *)
Record t := Build {
  query : str;
  timeframe : option Timeframe;
  startDate : option str;
  endDate : option str;
  limit : option Z;
  page : option Z
}.
End Input.

Module Context.
Record range := Range { start : Date; end_ : Date }.

(** [QueryContext]. *)
Record t := Build {
  originalQuery : str;
  detectedSyntax : QuerySyntax;
  timeRange : range;
  limit : Z;
  includeArchive : bool
}.
End Context.

(** Truthiness of an optional string field: present and not empty. *)
Definition truthyStr (s : option str) : bool :=
  match s with
  | Some (_ :: _) => true
  | _ => false
  end.

(** [x || d] for an optional number: [undefined] and [0] give [d]. *)
Definition numOr (x : option Z) (d : Z) : Z :=
  match x with
  | Some z => if z =? 0 then d else z
  | None => d
  end.

(* ================================================================== *)
(** ** src/utils/query-processor.ts *)
(* ================================================================== *)

Module QueryProcessor.

Definition dataPrimePatterns : list regex :=
  [ (* /\bsource\s+\w+\s*\|/i *)
    Re [WordBoundary; Lit (lit "source"); Plus isWhiteSpace;
        Plus isWordChar; Star isWhiteSpace; Lit (lit "|")] true;
    (* /\|\s*filter\b/i *)
    Re [Lit (lit "|"); Star isWhiteSpace; Lit (lit "filter"); WordBoundary] true;
    (* /\|\s*limit\b/i *)
    Re [Lit (lit "|"); Star isWhiteSpace; Lit (lit "limit"); WordBoundary] true;
    (* /\|\s*sort\b/i *)
    Re [Lit (lit "|"); Star isWhiteSpace; Lit (lit "sort"); WordBoundary] true;
    (* /\|\s*choose\b/i *)
    Re [Lit (lit "|"); Star isWhiteSpace; Lit (lit "choose"); WordBoundary] true;
    (* /\|\s*extract\b/i *)
    Re [Lit (lit "|"); Star isWhiteSpace; Lit (lit "extract"); WordBoundary] true;
    (* /\|\s*groupby\b/i *)
    Re [Lit (lit "|"); Star isWhiteSpace; Lit (lit "groupby"); WordBoundary] true;
    (* /\|\s*summarize\b/i *)
    Re [Lit (lit "|"); Star isWhiteSpace; Lit (lit "summarize"); WordBoundary] true;
    (* /\s+contains\s+/i *)
    Re [Plus isWhiteSpace; Lit (lit "contains"); Plus isWhiteSpace] true;
    (* /\s+startswith\s+/i *)
    Re [Plus isWhiteSpace; Lit (lit "startswith"); Plus isWhiteSpace] true;
    (* /\s+endswith\s+/i *)
    Re [Plus isWhiteSpace; Lit (lit "endswith"); Plus isWhiteSpace] true ].

Definition detectQuerySyntax (query : str) : QuerySyntax :=
  let isDataPrime := existsb (fun pattern => test pattern query) dataPrimePatterns in
  if isDataPrime then dataprime else lucene.

(** [shouldIncludeArchive]; [now] is the clock at the time of the call. *)
Definition shouldIncludeArchive (now : Z) (startTime _endTime : Date) : bool :=
  let oneDayAgo := TimeClip (now - 24 * 60 * 60 * 1000) in
  numLt startTime oneDayAgo.

Section WithDateParse.

(** [Date.parse] of the runtime: the time value of a date string, [None]
    when the string is not recognised. *)
Variable Date_parse : str -> option Z.

(** [new Date(s)] for a string [s]; it never throws. *)
Definition newDate (s : str) : Date :=
  match Date_parse s with
  | Some v => TimeClip v
  | None => None
  end.

(** The first step of [buildQueryContext]: the pair [(startTime,
    endTime)] before validation.  [now] is the clock read at entry. *)
Definition resolveTimeRange (now : Z) (input : Input.t) : Date * Date :=
  let endTime : Date := Some now in
  let minus (ms : option Z) : Date :=
    match numSub (Some now) ms with
    | Some v => TimeClip v
    | None => None
    end in
  let otherwise :=
    if truthyStr (Input.startDate input) && truthyStr (Input.endDate input)
    then
      match Input.startDate input, Input.endDate input with
      | Some s, Some e => (newDate s, newDate e)
      | _, _ => (None, None)
      end
    else
      let defaultMs := TIMEFRAME_MAP TF_1h in
      (minus defaultMs, endTime) in
  match Input.timeframe input with
  | Some tf =>
      if negb (isCustom tf)
      then
        let timeframeMs := TIMEFRAME_MAP tf in
        (minus timeframeMs, endTime)
      else otherwise
  | None => otherwise
  end.

(** [buildQueryContext]; [now] is the clock read at entry and [now']
    the clock read by [shouldIncludeArchive]. *)
Definition buildQueryContext (now now' : Z) (input : Input.t)
  : exn + Context.t :=
  let '(startTime, endTime) := resolveTimeRange now input in
  let maxTimeRange := MCP_LIMITS.MAX_TIME_WINDOW_HOURS * 60 * 60 * 1000 in
  if numGt (numSub endTime startTime) (Some maxTimeRange)
  then
    inl (Throw Error
           (lit "Time range cannot exceed "
              ++ showZ MCP_LIMITS.MAX_TIME_WINDOW_HOURS ++ lit " hours"))
  else
    let limit :=
      Z.min (Z.max (numOr (Input.limit input) MCP_LIMITS.DEFAULT_LIMIT)
                   MCP_LIMITS.MIN_LIMIT)
            MCP_LIMITS.MAX_LIMIT in
    inr (Context.Build
           (Input.query input)
           (detectQuerySyntax (Input.query input))
           (Context.Range startTime endTime)
           limit
           (shouldIncludeArchive now' startTime endTime)).

End WithDateParse.

Definition optimizeLuceneQuery (query : str) : str :=
  let optimized := trim query in
  if eqs optimized (lit "*") || eqs optimized []
  then optimized
  else if negb (includes (lit ":") optimized)
          && negb (includes (lit "(") optimized)
          && negb (includes [chr 34] optimized)
       then [chr 34] ++ optimized ++ [chr 34]
       else optimized.

Definition optimizeDataPrimeQuery (query : str) : str :=
  let optimized := trim query in
  if negb (includes (lit "| limit") (toLowerCase optimized))
  then optimized ++ lit " | limit " ++ showZ MCP_LIMITS.MAX_LIMIT
  else optimized.

Definition optimizeQuery (query : str) (syntax : QuerySyntax) : str :=
  match syntax with
  | lucene => optimizeLuceneQuery query
  | dataprime => optimizeDataPrimeQuery query
  end.

Definition calculateOffset (page limit : Z) : Z :=
  Z.max 0 ((page - 1) * limit).

Definition validatePagination (page limit : option Z) : exn + (Z * Z) :=
  let validatedPage := Z.max 1 (numOr page 1) in
  let validatedLimit :=
    Z.min (Z.max (numOr limit MCP_LIMITS.DEFAULT_LIMIT) MCP_LIMITS.MIN_LIMIT)
          MCP_LIMITS.MAX_LIMIT in
  if validatedPage >? MCP_LIMITS.MAX_PAGES
  then
    inl (Throw Error
           (lit "Page number cannot exceed " ++ showZ MCP_LIMITS.MAX_PAGES))
  else inr (validatedPage, validatedLimit).

End QueryProcessor.
Import QueryProcessor.

(* ================================================================== *)
(** ** src/utils/response-processor.ts *)
(* ================================================================== *)

Module ResponseProcessor.

(** [ProcessedLogEntry]; fields copied from the raw record keep the
    value the record had, [undefined] included.  The severity is the
    result of an upper-casing and so a string of UTF-16 code units. *)
Record ProcessedLogEntry := {
  timestamp : jsval;
  severity : ustr;
  message : str;
  application : jsval;
  subsystem : jsval;
  host : jsval;
  thread : jsval;
  className : jsval;
  methodName : jsval;
  category : jsval;
  additionalFields : option (list (str * jsval))
}.

Record Summary := {
  totalResults : jsval;
  resultsShown : Z;
  timeRangeStart : str;
  timeRangeEnd : str;
  page : Z;
  hasNextPage : bool;
  queryType : QuerySyntax
}.

Record Pagination := {
  currentPage : Z;
  nextPageAvailable : bool
}.

(** [QueryLogsOutput]. *)
Record QueryLogsOutput := {
  summary : Summary;
  logs : list ProcessedLogEntry;
  pagination : Pagination
}.

Definition severityMap : list (str * str) :=
  [ (lit "TRACE", lit "TRACE"); (lit "DEBUG", lit "DEBUG");
    (lit "INFO", lit "INFO"); (lit "INFORMATION", lit "INFO");
    (lit "WARN", lit "WARN"); (lit "WARNING", lit "WARN");
    (lit "ERROR", lit "ERROR"); (lit "ERR", lit "ERROR");
    (lit "FATAL", lit "FATAL"); (lit "CRITICAL", lit "FATAL");
    (lit "CRIT", lit "FATAL") ].

(** [severityMap[k]]: the entry of the table named [k].  The key is
    upper-cased text: it holds none of a-z, so it names no property that
    the table inherits. *)
Fixpoint assoc (k : ustr) (m : list (str * str)) : option str :=
  match m with
  | [] => None
  | (k', v) :: rest => if eqUnits k (units k') then Some v else assoc k rest
  end.

(** [normalizeSeverity]: [severity?.toUpperCase().trim()] is
    [undefined] for a missing severity and throws for a value that is
    not a string. *)
Definition normalizeSeverity (severity : jsval) : exn + ustr :=
  match severity with
  | JUndefined | JNull => inr (units (lit "UNKNOWN"))
  | JStr s =>
      let normalizedSeverity := trimUnits (toUpperCase s) in
      match assoc normalizedSeverity severityMap with
      | Some ((_ :: _) as mapped) => inr (units mapped)
      | _ =>
          match normalizedSeverity with
          | _ :: _ => inr normalizedSeverity
          | [] => inr (units (lit "UNKNOWN"))
          end
      end
  | _ => throw TypeError "severity?.toUpperCase is not a function"
  end.

Definition stackTracePatterns : list regex :=
  [ (* /at\s+[\w\$\.<>]+\([^)]*\)/ *)
    Re [Lit (lit "at"); Plus isWhiteSpace;
        Plus (fun c => isWordChar c || oneOf "$.<>" c);
        Lit (lit "("); Star (fun c => negb (oneOf ")" c)); Lit (lit ")")]
       false;
    (* /^\s*at\s+/m *)
    Re [LineStart; Star isWhiteSpace; Lit (lit "at"); Plus isWhiteSpace] false;
    (* /File\s+Q[^Q]+Q,\s+line\s+\d+/i, with Q the double quote *)
    Re [Lit (lit "File"); Plus isWhiteSpace; Lit [chr 34];
        Plus (fun c => negb (eqc c (chr 34))); Lit [chr 34; chr 44];
        Plus isWhiteSpace; Lit (lit "line"); Plus isWhiteSpace; Plus isDigit]
       true;
    (* /^\s*\w+Error:/m *)
    Re [LineStart; Star isWhiteSpace; Plus isWordChar; Lit (lit "Error:")]
       false;
    (* /^\s*Caused by:/m *)
    Re [LineStart; Star isWhiteSpace; Lit (lit "Caused by:")] false;
    (* /^\s*\.\.\.\s+\d+\s+more/m *)
    Re [LineStart; Star isWhiteSpace; Lit (lit "..."); Plus isWhiteSpace;
        Plus isDigit; Plus isWhiteSpace; Lit (lit "more")] false ].

Definition isStackTrace (text : str) : bool :=
  existsb (fun pattern => test pattern text) stackTracePatterns.

Definition newline : ascii := chr 10.

Definition truncateStackTrace (text : str) : str :=
  let lines := split newline text in
  let maxLines := MCP_LIMITS.MAX_STACK_TRACE_LINES in
  let errorLine := hd [] lines in
  let stackLines := slice lines 1 maxLines in
  let remainingLines := Z.of_nat (List.length lines) - maxLines in
  let truncatedStack := join [newline] stackLines in
  if remainingLines >? 0
  then errorLine ++ [newline] ++ truncatedStack ++ [newline]
         ++ lit "... and " ++ showZ remainingLines ++ lit " more lines"
  else errorLine ++ [newline] ++ truncatedStack.

Definition strlen (s : str) : Z := Z.of_nat (List.length s).

Definition intelligentTruncate (text : str) : str :=
  let maxLength := MCP_LIMITS.MAX_MESSAGE_LENGTH in
  if isStackTrace text then truncateStackTrace text
  else if strlen text >? maxLength
  then
    (* Math.floor(maxLength * 0.7) *)
    let preserveStart := (maxLength * 7) / 10 in
    let preserveEnd := maxLength - preserveStart - 10 in
    substring text 0 preserveStart ++ lit " ... "
      ++ substringFrom text (strlen text - preserveEnd)
  else text.

(** [processMessage] on a string. *)
Definition processMessage (text : str) : str :=
  match text with
  | [] => []
  | _ :: _ =>
      let processed := trim text in
      if strlen processed >? MCP_LIMITS.MAX_MESSAGE_LENGTH
      then intelligentTruncate processed
      else processed
  end.

(** [processMessage(log.text)] for whatever the record holds under
    [text]: a falsy value gives the empty message, a truthy value that
    is not a string has no [trim]. *)
Definition processMessageOf (text : jsval) : exn + str :=
  if negb (truthy text) then inr []
  else match text with
       | JStr s => inr (processMessage s)
       | _ => throw TypeError "text.trim is not a function"
       end.

Definition standardFields : list str :=
  [ lit "timestamp"; lit "severity"; lit "text"; lit "applicationName";
    lit "subsystemName"; lit "computerName"; lit "className";
    lit "methodName"; lit "threadId"; lit "category" ].

Fixpoint indexed {A} (i : Z) (l : list A) : list (str * A) :=
  match l with
  | [] => []
  | x :: l' => (showZ i, x) :: indexed (i + 1) l'
  end.

(** [Object.entries(v)] for a value that is neither [null] nor
    [undefined]. *)
Definition entries (v : jsval) : list (str * jsval) :=
  match v with
  | JObj fields => fields
  | JArr l => indexed 0 l
  | JStr s => indexed 0 (map (fun c => JStr [c]) s)
  | _ => []
  end.

Definition isNullish (v : jsval) : bool :=
  match v with JUndefined | JNull => true | _ => false end.

Definition extractAdditionalFields (log : jsval)
  : option (list (str * jsval)) :=
  let keep (kv : str * jsval) :=
    negb (existsb (eqs (fst kv)) standardFields) && negb (isNullish (snd kv)) in
  let shorten (kv : str * jsval) :=
    match snd kv with
    | JStr value =>
        if strlen value >? MCP_LIMITS.MAX_ERROR_CONTEXT
        then (fst kv,
              JStr (substring value 0 MCP_LIMITS.MAX_ERROR_CONTEXT ++ lit "..."))
        else kv
    | _ => kv
    end in
  let additionalFields := map shorten (filter keep (entries log)) in
  match additionalFields with
  | [] => None
  | _ :: _ => Some additionalFields
  end.

Definition bind {A B} (x : exn + A) (f : A -> exn + B) : exn + B :=
  match x with
  | inl e => inl e
  | inr a => f a
  end.

Notation "x <- c ;; k" := (bind c (fun x => k))
  (at level 61, c at next level, right associativity).

Definition processLogEntry (log : jsval) : exn + ProcessedLogEntry :=
  timestamp <- getProp log "timestamp" ;;
  severity <- getProp log "severity" ;;
  severity <- normalizeSeverity severity ;;
  text <- getProp log "text" ;;
  message <- processMessageOf text ;;
  application <- getProp log "applicationName" ;;
  subsystem <- getProp log "subsystemName" ;;
  host <- getProp log "computerName" ;;
  thread <- getProp log "threadId" ;;
  className <- getProp log "className" ;;
  methodName <- getProp log "methodName" ;;
  category <- getProp log "category" ;;
  inr {| timestamp := timestamp; severity := severity; message := message;
         application := application; subsystem := subsystem; host := host;
         thread := thread; className := className;
         methodName := methodName; category := category;
         additionalFields := extractAdditionalFields log |}.

(** [logs.map(f)] for an [f] that may throw: the first exception ends
    the traversal. *)
Fixpoint mapM {A B} (f : A -> exn + B) (l : list A) : exn + list B :=
  match l with
  | [] => inr []
  | x :: l' =>
      y <- f x ;;
      ys <- mapM f l' ;;
      inr (y :: ys)
  end.

Section WithDateFormat.

(** The ISO-8601 rendering of a valid time value. *)
Variable Date_format : Z -> str.

(** [Date.prototype.toISOString]: throws on an invalid date. *)
Definition toISOString (d : Date) : exn + str :=
  match d with
  | Some t => inr (Date_format t)
  | None => throw RangeError "Invalid time value"
  end.

Definition processLogs (logs : list jsval) (context : Context.t)
  (page : Z) (totalResults : jsval) : exn + QueryLogsOutput :=
  processedLogs <- mapM processLogEntry logs ;;
  startIso <- toISOString (Context.start (Context.timeRange context)) ;;
  endIso <- toISOString (Context.end_ (Context.timeRange context)) ;;
  let length := Z.of_nat (List.length logs) in
  inr {| summary :=
           {| totalResults := orElse totalResults (JNum length);
              resultsShown := Z.of_nat (List.length processedLogs);
              timeRangeStart := startIso;
              timeRangeEnd := endIso;
              page := page;
              hasNextPage := length =? Context.limit context;
              queryType := Context.detectedSyntax context |};
         logs := processedLogs;
         pagination :=
           {| currentPage := page;
              nextPageAvailable := length =? Context.limit context |} |}.

End WithDateFormat.

End ResponseProcessor.
Import ResponseProcessor.

(* ================================================================== *)
(** ** src/utils/coralogix-client.ts *)
(* ================================================================== *)

Module CoralogixClient.

(** What the program reads of a [Response]. *)
Record Response := {
  status : Z;
  statusText : str;
  contentType : option str;   (* headers.get("content-type") *)
  text : str                  (* the body *)
}.

(** [response.ok]. *)
Definition ok (r : Response) : bool :=
  (200 <=? status r) && (status r <=? 299).

(** One call of [fetch] either resolves to a response or rejects. *)
Inductive outcome :=
| Resolves (r : Response)
| Rejects (e : exn).

(** The remote side as the program observes it: the outcome of the
    n-th call of [fetch], counting from 0. *)
Definition remote := nat -> outcome.

(** The effects of the client: how many times [fetch] was called and
    the delays slept, oldest first. *)
Record world := World { fetched : nat; slept : list Z }.

Definition initial : world := World 0 [].

(** Computations that may throw and that act on the world. *)
Definition M (A : Type) := world -> (exn + A) * world.

Definition ret {A} (a : A) : M A := fun w => (inr a, w).

Definition raise {A} (e : exn) : M A := fun w => (inl e, w).

Definition bindM {A B} (c : M A) (k : A -> M B) : M B :=
  fun w =>
    match c w with
    | (inr a, w') => k a w'
    | (inl e, w') => (inl e, w')
    end.

(** [try { c } catch (e) { h e }]. *)
Definition tryCatch {A} (c : M A) (h : exn -> M A) : M A :=
  fun w =>
    match c w with
    | (inr a, w') => (inr a, w')
    | (inl e, w') => h e w'
    end.

(** A computation without effects on the world. *)
Definition pure {A} (x : exn + A) : M A := fun w => (x, w).

Definition fetch (server : remote) : M Response :=
  fun w =>
    (match server (fetched w) with
     | Resolves r => inr r
     | Rejects e => inl e
     end,
     World (S (fetched w)) (slept w)).

Definition sleep (ms : Z) : M unit :=
  fun w => (inr tt, World (fetched w) (slept w ++ [ms])).

(** The retry condition on a response. *)
Definition rateLimitedOrServerError (r : Response) : bool :=
  (status r =? 429) || (status r >=? 500).

(** The number of retries still allowed after [retryCount] of them. *)
Definition retriesLeft (retryCount : Z) : nat :=
  Z.to_nat (MCP_LIMITS.MAX_RETRIES - retryCount).

Arguments retriesLeft : simpl never.

(** [makeRequestWithRetry].  The recursive call is returned without
    [await], so an exception of a later attempt is not caught by the
    handler of an earlier one. *)
Equations? makeRequestWithRetry (server : remote) (retryCount : Z)
  (w : world) : (exn + Response) * world
  by wf (retriesLeft retryCount) lt :=
makeRequestWithRetry server retryCount w with fetch server w := {
  | (inr response, w1) with Z_lt_dec retryCount MCP_LIMITS.MAX_RETRIES := {
      | left _ =>
          if rateLimitedOrServerError response
          then
            let delay := MCP_LIMITS.RETRY_DELAY_MS * 2 ^ retryCount in
            makeRequestWithRetry server (retryCount + 1) (snd (sleep delay w1))
          else (inr response, w1)
      | right _ => (inr response, w1) }
  | (inl error, w1) with Z_lt_dec retryCount MCP_LIMITS.MAX_RETRIES := {
      | left _ =>
          let delay := MCP_LIMITS.RETRY_DELAY_MS * 2 ^ retryCount in
          makeRequestWithRetry server (retryCount + 1) (snd (sleep delay w1))
      | right _ => (inl error, w1) } }.
Proof.
  all: unfold retriesLeft; apply Z2Nat.inj_lt; lia.
Qed.

(** [CoralogixQueryRequest]. *)
Record CoralogixQueryRequest := {
  req_query : str;
  req_syntax : QuerySyntax;
  req_startDate : str;
  req_endDate : str;
  req_limit : Z;
  req_includeArchive : bool
}.

Notation "x <- c ;; k" := (ResponseProcessor.bind c (fun x => k))
  (at level 61, c at next level, right associativity).

(** [array.find(obj => obj.k)]: the first element whose property [k] is
    truthy, [undefined] when there is none; reading the property of a
    [null] element throws. *)
Fixpoint findByProp (k : string) (l : list jsval) : exn + jsval :=
  match l with
  | [] => inr JUndefined
  | obj :: l' =>
      v <- getProp obj k ;;
      if truthy v then inr obj else findByProp k l'
  end.

Definition nonBlank (line : str) : bool :=
  match trim line with [] => false | _ :: _ => true end.

Section WithJsonParse.

(** [JSON.parse]: the value of a JSON text, or the [SyntaxError]. *)
Variable JSON_parse : str -> exn + jsval.

(** The non-blank lines of the body. *)
Definition ndjsonLines (responseText : str) : list str :=
  filter nonBlank (split newline (trim responseText)).

Definition emptyResponse (parsedObjects : list jsval) : jsval :=
  JObj [ (lit "logs", JArr []);
         (lit "total", JNum 0);
         (lit "hasMore", JBool false);
         (lit "queryId",
          orElse (getPropOpt (getPropOpt (hd JUndefined parsedObjects)
                                          "queryId") "queryId")
                 (JStr (lit "unknown"))) ].

(** The inner [try] block of [queryLogs]: the body read as
    newline-delimited JSON. *)
Definition parseNdjson (responseText : str) : exn + jsval :=
  let lines := ndjsonLines responseText in
  parsedObjects <- mapM JSON_parse lines ;;
  byResult <- findByProp "result" parsedObjects ;;
  resultObject <- (if truthy byResult then inr byResult
                   else findByProp "logs" parsedObjects) ;;
  let fallThrough := inr (emptyResponse parsedObjects) in
  if truthy resultObject
  then
    result <- getProp resultObject "result" ;;
    if truthy result
    then
      results <- getProp result "results" ;;
      let logs := orElse results (JArr []) in
      total <- getProp logs "length" ;;
      inr (JObj [ (lit "logs", logs);
                  (lit "total", total);
                  (lit "hasMore", JBool false);
                  (lit "queryId",
                   orElse (getPropOpt (getPropOpt (hd JUndefined parsedObjects)
                                                   "queryId") "queryId")
                          (JStr (lit "unknown"))) ])
    else
      oldLogs <- getProp resultObject "logs" ;;
      if truthy oldLogs then inr resultObject else fallThrough
  else fallThrough.

Definition showHeader (h : option str) : str :=
  match h with Some v => v | None => lit "null" end.

(** [queryLogs]. *)
Definition queryLogs (server : remote) (request : CoralogixQueryRequest)
  : M jsval :=
  tryCatch
    (bindM (makeRequestWithRetry server 0) (fun response =>
     let responseText := text response in
     if negb (ok response)
     then
       raise (Throw Error
                (lit "Coralogix API error: " ++ showZ (status response)
                   ++ lit " " ++ statusText response ++ lit ". Response: "
                   ++ substring responseText 0 500))
     else
       match parseNdjson responseText with
       | inr parsed => ret parsed
       | inl parseError =>
           raise (Throw Error
                    (lit "Failed to parse Coralogix NDJSON response. Content-Type: "
                       ++ showHeader (contentType response)
                       ++ lit ", Lines: "
                       ++ showZ (Z.of_nat
                                   (List.length
                                      (split newline (trim responseText))))
                       ++ lit ", Error: " ++ Runtime.message parseError))
       end))
    (fun error =>
       raise (Throw Error (lit "Failed to query Coralogix: " ++ Runtime.message error))).

(** [testConnection]: any failure collapses to [false]. *)
Definition testConnection (server : remote) (startIso endIso : str) : M bool :=
  let testRequest :=
    {| req_query := lit "*"; req_syntax := lucene;
       req_startDate := startIso; req_endDate := endIso;
       req_limit := 1; req_includeArchive := false |} in
  tryCatch (bindM (queryLogs server testRequest) (fun _ => ret true))
           (fun _ => ret false).

End WithJsonParse.

End CoralogixClient.
Import CoralogixClient.

(* ================================================================== *)
(** ** src/tools/query-logs.ts *)
(* ================================================================== *)

Module QueryLogs.

(** The argument of the tool handler, typed [unknown]: either a value
    the structural check rejects (a falsy value, a non-object, an object
    without a [query] key), or an object with a string [query] and the
    optional fields of [QueryLogsInput]. *)
Inductive unknown :=
| NoQueryKey
| Args (queryInput : Input.t).

Section WithRuntime.

Variable Date_parse : str -> option Z.
Variable Date_format : Z -> str.
Variable JSON_parse : str -> exn + jsval.

(** [executeQueryLogs]; [now] and [now'] are the two clock readings of
    [buildQueryContext]. *)
Definition executeQueryLogs (now now' : Z) (input : Input.t)
  (server : remote) : M QueryLogsOutput :=
  tryCatch
    (bindM (pure (buildQueryContext Date_parse now now' input)) (fun context =>
     bindM (pure (validatePagination (Input.page input) (Input.limit input)))
       (fun '(page, limit) =>
     let offset := calculateOffset page limit in
     let optimizedQuery :=
       optimizeQuery (Context.originalQuery context)
                     (Context.detectedSyntax context) in
     bindM (pure (toISOString Date_format
                    (Context.start (Context.timeRange context))))
       (fun startDate =>
     bindM (pure (toISOString Date_format
                    (Context.end_ (Context.timeRange context))))
       (fun endDate =>
     let coralogixRequest :=
       {| req_query := optimizedQuery;
          req_syntax := Context.detectedSyntax context;
          req_startDate := startDate;
          req_endDate := endDate;
          req_limit := limit + offset;
          req_includeArchive := Context.includeArchive context |} in
     bindM (queryLogs JSON_parse server coralogixRequest) (fun response =>
     bindM (pure (getProp response "logs")) (fun responseLogs =>
     let logs := orElse responseLogs (JArr []) in
     bindM (match logs with
            | JArr l => ret (slice l offset (offset + limit))
            | JStr _ => raise (Throw TypeError (lit "logs.map is not a function"))
            | _ => raise (Throw TypeError (lit "logs.slice is not a function"))
            end) (fun paginatedLogs =>
     bindM (pure (getProp response "total")) (fun total =>
     pure (processLogs Date_format paginatedLogs context page total))))))))))
    (fun error =>
       raise (Throw Error (lit "Failed to query logs: " ++ Runtime.message error))).

(** [new Date(s)] as a step that could throw; it never does. *)
Definition constructDate (s : str) : exn + Date := inr (newDate Date_parse s).

(** The handler returned by [createQueryLogsHandler]. *)
Definition createQueryLogsHandler (server : remote) (now now' : Z)
  (input : unknown) : M QueryLogsOutput :=
  match input with
  | NoQueryKey =>
      raise (Throw Error (lit "Invalid input: query parameter is required"))
  | Args queryInput =>
      match Input.query queryInput with
      | [] =>
          raise (Throw Error
                   (lit "Invalid input: query must be a non-empty string"))
      | _ :: _ =>
          let validateCustom : M unit :=
            match Input.timeframe queryInput with
            | Some TF_custom =>
                match Input.startDate queryInput, Input.endDate queryInput with
                | Some ((_ :: _) as startDate), Some ((_ :: _) as endDate) =>
                    tryCatch
                      (bindM (pure (constructDate startDate)) (fun _ =>
                       bindM (pure (constructDate endDate)) (fun _ =>
                       ret tt)))
                      (fun _ =>
                         raise (Throw Error
                                  (lit "startDate and endDate must be valid ISO 8601 date strings")))
                | _, _ =>
                    raise (Throw Error
                             (lit "startDate and endDate are required when timeframe is "
                                ++ [chr 34] ++ lit "custom" ++ [chr 34]))
                end
            | _ => ret tt
            end in
          bindM validateCustom (fun _ =>
          executeQueryLogs now now' queryInput server)
      end
  end.

End WithRuntime.

End QueryLogs.
Import QueryLogs.

(* ================================================================== *)
(** ** Reference instances of the runtime functions *)
(* ================================================================== *)

(** The program is parametric in [Date.parse], the ISO rendering of a
    time value and [JSON.parse].  The instances below run it on concrete
    inputs: the date functions cover the UTC form
    [YYYY-MM-DDTHH:mm:ss.sssZ] (fraction optional when reading), the JSON
    reader covers objects, arrays, strings with the simple escapes,
    integers and the three literals. *)
Module Reference.

Definition digitVal (c : ascii) : option Z :=
  if isDigit c then Some (code c - 48) else None.

(** Reads exactly [n] digits. *)
Fixpoint digits (n : nat) (acc : Z) (s : str) : option (Z * str) :=
  match n with
  | O => Some (acc, s)
  | S n' =>
      match s with
      | c :: s' =>
          match digitVal c with
          | Some d => digits n' (10 * acc + d) s'
          | None => None
          end
      | [] => None
      end
  end.

Definition expect (c : string) (s : str) : option str :=
  if startsWith (lit c) s
  then Some (skipn (List.length (lit c)) s) else None.

(** Days from 1970-01-01 to the given civil date. *)
Definition daysFromCivil (y m d : Z) : Z :=
  let y' := if m <=? 2 then y - 1 else y in
  let era := y' / 400 in
  let yoe := y' - era * 400 in
  let doy := (153 * (if m >? 2 then m - 3 else m + 9) + 2) / 5 + d - 1 in
  let doe := yoe * 365 + yoe / 4 - yoe / 100 + doy in
  era * 146097 + doe - 719468.

(** The civil date of a day number. *)
Definition civilFromDays (days : Z) : Z * Z * Z :=
  let z := days + 719468 in
  let era := z / 146097 in
  let doe := z - era * 146097 in
  let yoe := (doe - doe / 1460 + doe / 36524 - doe / 146096) / 365 in
  let doy := doe - (365 * yoe + yoe / 4 - yoe / 100) in
  let mp := (5 * doy + 2) / 153 in
  let d := doy - (153 * mp + 2) / 5 + 1 in
  let m := if mp <? 10 then mp + 3 else mp - 9 in
  let y := yoe + era * 400 in
  ((if m <=? 2 then y + 1 else y), m, d).

Definition daysInMonth (y m : Z) : Z :=
  daysFromCivil (if m =? 12 then y + 1 else y) (if m =? 12 then 1 else m + 1) 1
  - daysFromCivil y m 1.

Definition obind {A B} (x : option A) (f : A -> option B) : option B :=
  match x with Some a => f a | None => None end.

Definition Date_parse (s : str) : option Z :=
  obind (digits 4 0 s) (fun '(y, s) =>
  obind (expect "-" s) (fun s =>
  obind (digits 2 0 s) (fun '(mo, s) =>
  obind (expect "-" s) (fun s =>
  obind (digits 2 0 s) (fun '(d, s) =>
  obind (expect "T" s) (fun s =>
  obind (digits 2 0 s) (fun '(h, s) =>
  obind (expect ":" s) (fun s =>
  obind (digits 2 0 s) (fun '(mi, s) =>
  obind (expect ":" s) (fun s =>
  obind (digits 2 0 s) (fun '(sec, s) =>
  obind (match expect "." s with
         | Some s' => digits 3 0 s'
         | None => Some (0, s)
         end) (fun '(ms, s) =>
  if eqs s (lit "Z")
     && (1 <=? mo) && (mo <=? 12) && (1 <=? d) && (d <=? daysInMonth y mo)
     && (h <=? 23) && (mi <=? 59) && (sec <=? 59)
  then Some (daysFromCivil y mo d * 86400000
             + h * 3600000 + mi * 60000 + sec * 1000 + ms)
  else None)))))))))))).

(** A number in decimal, padded with zeros to [width] digits. *)
Definition padded (width : nat) (z : Z) : str :=
  let d := showZ z in
  repeat (chr 48) (width - List.length d) ++ d.

Definition Date_format (t : Z) : str :=
  let days := t / 86400000 in
  let rest := t mod 86400000 in
  let '(y, m, d) := civilFromDays days in
  let year :=
    if (0 <=? y) && (y <=? 9999) then padded 4 y
    else (if y <? 0 then lit "-" else lit "+") ++ padded 6 (Z.abs y) in
  year ++ lit "-" ++ padded 2 m ++ lit "-" ++ padded 2 d ++ lit "T"
    ++ padded 2 (rest / 3600000) ++ lit ":"
    ++ padded 2 (rest mod 3600000 / 60000) ++ lit ":"
    ++ padded 2 (rest mod 60000 / 1000) ++ lit "."
    ++ padded 3 (rest mod 1000) ++ lit "Z".

(** JSON white space. *)
Definition isJsonSpace (c : ascii) : bool :=
  let n := code c in (n =? 32) || (n =? 9) || (n =? 10) || (n =? 13).

Definition skipSpace (s : str) : str := dropWhile isJsonSpace s.

(** The characters of a string literal after its opening quote. *)
Fixpoint stringBody (fuel : nat) (acc : str) (s : str) : option (str * str) :=
  match fuel with
  | O => None
  | S fuel' =>
      match s with
      | [] => None
      | c :: s' =>
          if eqc c (chr 34) then Some (rev acc, s')
          else if eqc c (chr 92) then
            match s' with
            | e :: s'' =>
                let plain x := stringBody fuel' (x :: acc) s'' in
                if eqc e (chr 34) then plain (chr 34)
                else if eqc e (chr 92) then plain (chr 92)
                else if eqc e (chr 47) then plain (chr 47)
                else if eqc e (chr 110) then plain (chr 10)
                else if eqc e (chr 116) then plain (chr 9)
                else if eqc e (chr 114) then plain (chr 13)
                else if eqc e (chr 98) then plain (chr 8)
                else if eqc e (chr 102) then plain (chr 12)
                else None
            | [] => None
            end
          else if code c <? 32 then None
          else stringBody fuel' (c :: acc) s'
      end
  end.

Fixpoint number (acc : Z) (s : str) : Z * str :=
  match s with
  | c :: s' =>
      match digitVal c with
      | Some d => number (10 * acc + d) s'
      | None => (acc, s)
      end
  | [] => (acc, s)
  end.

(** A later member with the same key replaces the value of the earlier
    one and keeps its place. *)
Fixpoint setField (k : str) (v : jsval) (fields : list (str * jsval))
  : list (str * jsval) :=
  match fields with
  | [] => [(k, v)]
  | (k', v') :: rest =>
      if eqs k k' then (k, v) :: rest else (k', v') :: setField k v rest
  end.

Fixpoint value (fuel : nat) (s : str) : option (jsval * str) :=
  match fuel with
  | O => None
  | S fuel' =>
      match skipSpace s with
      | [] => None
      | c :: s' =>
          if eqc c (chr 34) then
            obind (stringBody (List.length s') [] s') (fun '(x, r) =>
            Some (JStr x, r))
          else if eqc c (chr 91) then
            match skipSpace s' with
            | d :: r =>
                if eqc d (chr 93) then Some (JArr [], r)
                else obind (elements fuel' [] s') (fun '(l, r) =>
                     Some (JArr l, r))
            | [] => None
            end
          else if eqc c (chr 123) then
            match skipSpace s' with
            | d :: r =>
                if eqc d (chr 125) then Some (JObj [], r)
                else obind (members fuel' [] s') (fun '(l, r) =>
                     Some (JObj l, r))
            | [] => None
            end
          else if eqc c (chr 45) then
            match s' with
            | d :: _ =>
                if isDigit d
                then let '(n, r) := number 0 s' in Some (JNum (- n), r)
                else None
            | [] => None
            end
          else if isDigit c then
            let '(n, r) := number 0 (c :: s') in Some (JNum n, r)
          else if startsWith (lit "null") (c :: s') then
            Some (JNull, skipn 4 (c :: s'))
          else if startsWith (lit "true") (c :: s') then
            Some (JBool true, skipn 4 (c :: s'))
          else if startsWith (lit "false") (c :: s') then
            Some (JBool false, skipn 5 (c :: s'))
          else None
      end
  end
with elements (fuel : nat) (acc : list jsval) (s : str)
  : option (list jsval * str) :=
  match fuel with
  | O => None
  | S fuel' =>
      obind (value fuel' s) (fun '(v, r) =>
      match skipSpace r with
      | c :: r' =>
          if eqc c (chr 44) then elements fuel' (acc ++ [v]) r'
          else if eqc c (chr 93) then Some (acc ++ [v], r')
          else None
      | [] => None
      end)
  end
with members (fuel : nat) (acc : list (str * jsval)) (s : str)
  : option (list (str * jsval) * str) :=
  match fuel with
  | O => None
  | S fuel' =>
      match skipSpace s with
      | q :: s1 =>
          if eqc q (chr 34) then
            obind (stringBody (List.length s1) [] s1) (fun '(k, r) =>
            match skipSpace r with
            | c :: r1 =>
                if eqc c (chr 58) then
                  obind (value fuel' r1) (fun '(v, r2) =>
                  match skipSpace r2 with
                  | d :: r3 =>
                      if eqc d (chr 44) then members fuel' (setField k v acc) r3
                      else if eqc d (chr 125) then Some (setField k v acc, r3)
                      else None
                  | [] => None
                  end)
                else None
            | [] => None
            end)
          else None
      | [] => None
      end
  end.

Definition JSON_parse (s : str) : exn + jsval :=
  match value (S (List.length s)) s with
  | Some (v, rest) =>
      match skipSpace rest with
      | [] => inr v
      | _ :: _ => throw SyntaxError "Unexpected non-whitespace character after JSON"
      end
  | None => throw SyntaxError "Unexpected token in JSON"
  end.

End Reference.

(* ================================================================== *)
(** * Properties *)
(* ================================================================== *)

Unset Implicit Arguments.

(** ** Vocabulary of the specification *)

(** [clamp(x, lo, hi)]. *)
Definition clamp (x lo hi : Z) : Z := Z.min (Z.max x lo) hi.

(** [x ?? d]: the default applies to an absent value only. *)
Definition nullish (x : option Z) (d : Z) : Z :=
  match x with Some z => z | None => d end.

(** The resolved limit as the specification words it. *)
Definition specLimit (requested : option Z) : Z :=
  clamp (nullish requested MCP_LIMITS.DEFAULT_LIMIT)
        MCP_LIMITS.MIN_LIMIT MCP_LIMITS.MAX_LIMIT.

(** The error of a time range wider than the maximum. *)
Definition RangeTooWide : exn :=
  Throw Error (lit "Time range cannot exceed 24 hours").

(** Both ends are valid dates and the range is longer than 24 hours. *)
Definition exceeds24h (s e : Date) : Prop :=
  exists a b, s = Some a /\ e = Some b /\ b - a > 24 * 60 * 60 * 1000.

(** A request with nothing but a query and a limit. *)
Definition limitOnly (q : string) (l : option Z) : Input.t :=
  Input.Build (lit q) None None None l None.


(** An outcome of [fetch] that the client retries. *)
Definition transient (o : outcome) : bool :=
  match o with
  | Resolves r => rateLimitedOrServerError r
  | Rejects _ => true
  end.


(** What an outcome means to the caller of [fetch]. *)
Definition settled (o : outcome) : exn + Response :=
  match o with
  | Resolves r => inr r
  | Rejects e => inl e
  end.

(** The delays before retries [c], [c + 1], ..., [c + k - 1]:
    base delay times 2 to the attempt. *)
Definition backoffFrom (c : Z) (k : nat) : list Z :=
  map (fun a => MCP_LIMITS.RETRY_DELAY_MS * 2 ^ (c + Z.of_nat a)) (seq 0 k).

Definition response503 : Response :=
  Build_Response 503 (lit "Service Unavailable") None [].

Definition response200 : Response :=
  Build_Response 200 (lit "OK") (Some (lit "application/x-ndjson")) [].

(** A remote side that answers 503 twice and 200 from then on. *)
Definition scenario503 : remote :=
  fun n => match n with
           | 0%nat | 1%nat => Resolves response503
           | _ => Resolves response200
           end.





(** The request of the connectivity probe. *)
Definition wildcardRequest : CoralogixQueryRequest :=
  {| req_query := lit "*"; req_syntax := lucene;
     req_startDate := lit "2024-01-15T10:00:00.000Z";
     req_endDate := lit "2024-01-15T10:01:00.000Z";
     req_limit := 1; req_includeArchive := false |}.

(** A clock reading used in the examples: 2024-01-16T10:13:20Z. *)
Definition now0 : Z := 1705400000000.

(** A request with a custom time range. *)
Definition customInput (s e : string) : Input.t :=
  Input.Build (lit "error") (Some TF_custom) (Some (lit s)) (Some (lit e))
              None None.

(** A request with a preset time range. *)
Definition presetInput (tf : Timeframe) : Input.t :=
  Input.Build (lit "error") (Some tf) None None None None.

(** Text in which ['] stands for the double quote. *)
Definition sq (s : string) : str :=
  map (fun c => if eqc c "'"%char then chr 34 else c) (lit s).

(** The value is an object with an own property [k]. *)
Definition exposes (k : string) (v : jsval) : bool :=
  match v with
  | JObj fields => existsb (fun kv => eqs (lit k) (fst kv)) fields
  | _ => false
  end.

(** A line of the body that parses to a value, other than [null],
    exposing neither a [result] nor a [logs] key. *)
Definition plainLine (JSON_parse : str -> exn + jsval) (line : str) : Prop :=
  exists v,
    JSON_parse line = inr v /\ isNullish v = false
    /\ exposes "result" v = false /\ exposes "logs" v = false.

(** A context with the given limit. *)
Definition contextWithLimit (l : Z) : Context.t :=
  Context.Build (lit "error") lucene
                (Context.Range (Some (now0 - 3600000)) (Some now0)) l false.

(** A minimal raw log record. *)
Definition rawLog (sev msg : string) : jsval :=
  JObj [ (lit "timestamp", JStr (lit "2024-01-16T10:00:00.000Z"));
         (lit "severity", JStr (lit sev));
         (lit "text", JStr (lit msg)) ].

(** A 200 answer whose two lines carry a query id and a warning, but no
    result object. *)
Definition responseNoResult : Response :=
  Build_Response 200 (lit "OK") (Some (lit "application/x-ndjson"))
    (sq "{'queryId':{'queryId':'q-17'}}" ++ [newline]
       ++ sq "{'warning':{'message':'no data in range'}}" ++ [newline]).

(** The four messages with which the tool handler rejects its input. *)
Definition invalidInputMessages : list str :=
  [ lit "Invalid input: query parameter is required";
    lit "Invalid input: query must be a non-empty string";
    lit "startDate and endDate are required when timeframe is "
      ++ [chr 34] ++ lit "custom" ++ [chr 34];
    lit "startDate and endDate must be valid ISO 8601 date strings" ].

(** The error is one of the input rejections of the handler. *)
Definition InvalidInput (e : exn) : bool :=
  existsb (eqs (Runtime.message e)) invalidInputMessages.

(** The rejection written for dates that do not parse. *)
Definition DatesNotValid : exn :=
  Throw Error (lit "startDate and endDate must be valid ISO 8601 date strings").

(** The rejection of a custom time frame without both dates. *)
Definition DatesRequired : exn :=
  Throw Error (lit "startDate and endDate are required when timeframe is "
                 ++ [chr 34] ++ lit "custom" ++ [chr 34]).

(** The marker that closes a truncated stack trace. *)
Definition moreLines (omitted : list str) : str :=
  match omitted with
  | [] => []
  | _ :: _ =>
      [newline] ++ lit "... and " ++ showZ (Z.of_nat (List.length omitted))
        ++ lit " more lines"
  end.

(** Stack-trace truncation as the specification words it: the first
    line, then up to [keep] of the lines that follow it, then the marker
    counting the lines left out. *)
Definition specTruncateStackTrace (keep : nat) (text : str) : str :=
  let lines := split newline text in
  join [newline] (firstn (S keep) lines) ++ moreLines (skipn (S keep) lines).

(** A stack trace of nine lines, the first of them 1007 characters long. *)
Definition longTrace : str :=
  join [newline]
    ((lit "Error: " ++ repeat "x"%char 1000)
       :: map (fun n => lit "    at frame" ++ showZ n ++ lit " (app.js)")
              [1; 2; 3; 4; 5; 6; 7; 8]).

(** The character just before a position that lies [w] further on. *)
Definition lastOr (prev : option ascii) (w : str) : option ascii :=
  fold_left (fun _ c => Some c) w prev.

(** Every code unit of the model. *)
Definition allAscii : list ascii := map ascii_of_nat (seq 0 256).

(** The atom is literal text starting with a character that is not white
    space, in either case. *)
Definition inked (a : atom) : bool :=
  match a with
  | Lit (x :: _) => negb (isWhiteSpace x) && negb (isWhiteSpace (canonical x))
  | _ => false
  end.

(** The double quote. *)
Definition dquote : str := [chr 34].

(** Equal up to the case of letters, as a case-insensitive pattern
    compares code units. *)
Definition sameIgnoringCase (w kw : str) : Prop :=
  map canonical w = map canonical kw.

(** Only white space. *)
Definition blank (ws : str) : Prop := forallb isWhiteSpace ws = true.

(** The stage keywords and the text operators of the signature list. *)
Definition pipeKeywords : list str :=
  [ lit "filter"; lit "limit"; lit "sort"; lit "choose"; lit "extract";
    lit "groupby"; lit "summarize" ].

Definition textOperators : list str :=
  [ lit "contains"; lit "startswith"; lit "endswith" ].

(** The query holds a pipe, optional white space, the keyword in any
    case, and then no word character. *)
Definition PipeStage (kw q : str) : Prop :=
  exists pre ws w post,
    q = pre ++ lit "|" ++ ws ++ w ++ post
    /\ blank ws
    /\ sameIgnoringCase w kw
    /\ isWordOpt (hd_error post) = false.

(** The query holds the word [source] in any case, not preceded by a
    word character, then white space, a word, optional white space and a
    pipe. *)
Definition SourcePipe (q : str) : Prop :=
  exists pre src ws1 name ws2 post,
    q = pre ++ src ++ ws1 ++ name ++ ws2 ++ lit "|" ++ post
    /\ isWordOpt (lastOr None pre) = false
    /\ sameIgnoringCase src (lit "source")
    /\ ws1 <> [] /\ blank ws1
    /\ name <> [] /\ forallb isWordChar name = true
    /\ blank ws2.

(** The query holds the operator in any case with white space on both
    sides. *)
Definition TextOperator (kw q : str) : Prop :=
  exists pre ws1 w ws2 post,
    q = pre ++ ws1 ++ w ++ ws2 ++ post
    /\ ws1 <> [] /\ blank ws1
    /\ sameIgnoringCase w kw
    /\ ws2 <> [] /\ blank ws2.

(** The signatures of the claim: a pipe stage with one of the seven
    keywords. *)
Definition HasPipeStage (q : str) : Prop :=
  exists kw, In kw pipeKeywords /\ PipeStage kw q.

(** All the signatures of the detector. *)
Definition DataPrimeSignature (q : str) : Prop :=
  SourcePipe q
  \/ HasPipeStage q
  \/ exists kw, In kw textOperators /\ TextOperator kw q.

(** The three shapes of pattern in [dataPrimePatterns]. *)
Definition pipePattern (kw : str) : regex :=
  Re [Lit (lit "|"); Star isWhiteSpace; Lit kw; WordBoundary] true.

Definition textPattern (kw : str) : regex :=
  Re [Plus isWhiteSpace; Lit kw; Plus isWhiteSpace] true.

Definition sourcePattern : regex :=
  Re [WordBoundary; Lit (lit "source"); Plus isWhiteSpace;
      Plus isWordChar; Star isWhiteSpace; Lit (lit "|")] true.

(** The error of a page number beyond the maximum. *)
Definition PageOutOfRange : exn :=
  Throw Error (lit "Page number cannot exceed 100").

(** A clock reading far enough from the ends of the time-value range for
    the program's subtractions to stay valid dates. *)
Definition ordinaryClock (t : Z) : Prop :=
  Z.abs t <= 8640000000000000 - 24 * 60 * 60 * 1000.

(** A request with a preset and, beside it, explicit dates. *)
Definition presetWithDates (tf : Timeframe) (s e : string) : Input.t :=
  Input.Build (lit "error") (Some tf) (Some (lit s)) (Some (lit e)) None None.

(** A request with explicit dates and no time frame. *)
Definition datesOnly (s e : option str) : Input.t :=
  Input.Build (lit "error") None s e None None.

(** A stack trace of two lines, the first of them 1011 characters
    long. *)
Definition shortTrace : str :=
  join [newline]
    [ lit "TypeError: " ++ repeat "x"%char 1000; lit "    at main (app.js)" ].

(** A message of 1200 characters that is not shaped like a stack trace. *)
Definition longMessage : str :=
  lit "begin " ++ repeat "y"%char 1190 ++ lit " end".

(** Some entry key is the name of the accessor that sets the prototype
    of an object instead of adding a property. *)
Definition hasProtoKey (log : jsval) : bool :=
  existsb (fun kv => eqs (fst kv) (lit "__proto__")) (entries log).

(** A raw record the normaliser accepts: an object whose [severity] is a
    string or missing and whose [text] is a string or a falsy value. *)
Definition wellTypedLog (log : jsval) : Prop :=
  exists fields,
    log = JObj fields
    /\ (match lookup (lit "severity") fields with
        | JUndefined | JNull | JStr _ => True
        | _ => False
        end)
    /\ (match lookup (lit "text") fields with
        | JStr _ => True
        | v => truthy v = false
        end).

(** A context with the given range. *)
Definition contextWithRange (s e : Date) : Context.t :=
  Context.Build (lit "error") lucene (Context.Range s e) 20 false.

(** A raw record with a trace id, a null field and an overlong field. *)
Definition richLog : jsval :=
  JObj [ (lit "timestamp", JStr (lit "2024-01-16T10:00:00.000Z"));
         (lit "severity", JStr (lit "  warning "));
         (lit "text", JStr (lit "disk almost full"));
         (lit "traceId", JStr (lit "abc-123"));
         (lit "userId", JNull);
         (lit "payload", JStr (repeat "z"%char 400)) ].

(** The value has the property [k], readable and falsy or absent. *)
Definition lacks (k : string) (v : jsval) : Prop :=
  exists x, getProp v k = inr x /\ truthy x = false.

(** The query id copied into a response: the one nested under [queryId]
    in the first parsed line, or the word unknown. *)
Definition queryIdOf (parsedObjects : list jsval) : jsval :=
  orElse (getPropOpt (getPropOpt (hd JUndefined parsedObjects) "queryId")
                     "queryId")
         (JStr (lit "unknown")).

(** The error of [queryLogs] for a body that is not line-delimited
    JSON. *)
Definition parseFailure (response : Response) (cause : exn) : exn :=
  Throw Error
    (lit "Failed to query Coralogix: Failed to parse Coralogix NDJSON response. Content-Type: "
       ++ showHeader (contentType response) ++ lit ", Lines: "
       ++ showZ (Z.of_nat (List.length (split newline (trim (text response)))))
       ++ lit ", Error: " ++ Runtime.message cause).

(** A line of a body that parses as line-delimited JSON without a
    result object: the line is a JSON text ([JSON.parse] gives a value,
    which is never [undefined]) and the value exposes neither a [result]
    nor a [logs] key. *)
Definition keylessLine (JSON_parse : str -> exn + jsval) (line : str) : Prop :=
  exists v,
    JSON_parse line = inr v /\ v <> JUndefined
    /\ exposes "result" v = false /\ exposes "logs" v = false.

(** The failure of reading [result] off the value [null], as
    [queryLogs] reports it. *)
Definition nullLineFailure (response : Response) : exn :=
  parseFailure response
    (Throw TypeError (lit "Cannot read properties of null (reading 'result')")).

(** A 200 answer whose two lines are a query id and the JSON text
    [null]. *)
Definition responseNullLine : Response :=
  Build_Response 200 (lit "OK") (Some (lit "application/x-ndjson"))
    (sq "{'queryId':{'queryId':'q-17'}}" ++ [newline] ++ lit "null").

(** A 200 answer in the streaming shape: a query-id line, then a result
    line with three records. *)
Definition responseThreeRecords : Response :=
  Build_Response 200 (lit "OK") (Some (lit "application/x-ndjson"))
    (sq "{'queryId':{'queryId':'q-17'}}" ++ [newline]
       ++ sq "{'result':{'results':[{'severity':'err','text':'a'},{'severity':'info','text':'b'},{'text':'c'}]}}"
       ++ [newline]).

Definition threeRecords : list jsval :=
  [ JObj [(lit "severity", JStr (lit "err")); (lit "text", JStr (lit "a"))];
    JObj [(lit "severity", JStr (lit "info")); (lit "text", JStr (lit "b"))];
    JObj [(lit "text", JStr (lit "c"))] ].

(** A 200 answer in the single-object shape. *)
Definition responseLogsObject : Response :=
  Build_Response 200 (lit "OK") (Some (lit "application/json"))
    (sq "{'logs':[{'text':'a'}],'total':9}").

(** A 200 answer whose second line is not JSON. *)
Definition responseBrokenLine : Response :=
  Build_Response 200 (lit "OK") (Some (lit "text/html"))
    (sq "{'queryId':{'queryId':'q-17'}}" ++ [newline] ++ lit "<html>").

Definition sumZ (l : list Z) : Z := fold_right Z.add 0 l.

(** The request of the connectivity probe: the wildcard, one row, no
    archive, over the given minute. *)
Definition probeRequest (startIso endIso : str) : CoralogixQueryRequest :=
  {| req_query := lit "*"; req_syntax := lucene;
     req_startDate := startIso; req_endDate := endIso;
     req_limit := 1; req_includeArchive := false |}.

(** An error wrapped by [executeQueryLogs]. *)
Definition queryFailure (cause : exn) : exn :=
  Throw Error (lit "Failed to query logs: " ++ Runtime.message cause).

(** What an entry holds of the record it was made from: its timestamp,
    the label of its severity and its processed text. *)
Definition normalises (log : jsval) (entry : ProcessedLogEntry) : Prop :=
  timestamp entry = getPropOpt log "timestamp"
  /\ normalizeSeverity (getPropOpt log "severity") = inr (severity entry)
  /\ processMessageOf (getPropOpt log "text") = inr (message entry).

(** A request for the given page and limit over the last hour. *)
Definition pagedInput (page limit : Z) : Input.t :=
  Input.Build (lit "error") (Some TF_1h) None None (Some limit) (Some page).

(** The eleven names of levels the normaliser knows, each with the level
    it stands for. *)
Definition levelNames : list (string * string) :=
  [ ("TRACE", "TRACE"); ("DEBUG", "DEBUG"); ("INFO", "INFO");
    ("INFORMATION", "INFO"); ("WARN", "WARN"); ("WARNING", "WARN");
    ("ERROR", "ERROR"); ("ERR", "ERROR"); ("FATAL", "FATAL");
    ("CRITICAL", "FATAL"); ("CRIT", "FATAL") ]%string.
(** Splits a conjunction into its conjuncts, in order. *)
Ltac conjuncts := repeat match goal with |- _ /\ _ => split end.

(** ** Result limit *)

Lemma numOr_nonzero (x : option Z) (d : Z) :
  x <> Some 0 -> numOr x d = nullish x d.
Proof.
  destruct x as [z|]; simpl; [|reflexivity].
  intros H. destruct (Z.eqb_spec z 0) as [->|]; congruence.
Qed.

Lemma validatePagination_limit (page limit : option Z) (p l : Z) :
  validatePagination page limit = inr (p, l) ->
  l = clamp (numOr limit MCP_LIMITS.DEFAULT_LIMIT)
            MCP_LIMITS.MIN_LIMIT MCP_LIMITS.MAX_LIMIT.
Proof.
  unfold validatePagination.
  destruct (_ >? _); intros H; inversion H; reflexivity.
Qed.

Lemma buildQueryContext_limit Date_parse now now' input ctx :
  buildQueryContext Date_parse now now' input = inr ctx ->
  Context.limit ctx
  = clamp (numOr (Input.limit input) MCP_LIMITS.DEFAULT_LIMIT)
          MCP_LIMITS.MIN_LIMIT MCP_LIMITS.MAX_LIMIT.
Proof.
  unfold buildQueryContext.
  destruct (resolveTimeRange Date_parse now input) as [s e].
  destruct (numGt _ _); intros H; inversion H; reflexivity.
Qed.

(** Away from a requested limit of 0 both resolutions are the clamp of
    the specification, and every resolved limit lies in [1, 50]. *)
Lemma resolved_limit_nonzero Date_parse now now' input ctx p l :
  Input.limit input <> Some 0 ->
  buildQueryContext Date_parse now now' input = inr ctx ->
  validatePagination (Input.page input) (Input.limit input) = inr (p, l) ->
  Context.limit ctx = specLimit (Input.limit input)
  /\ l = specLimit (Input.limit input).
Proof.
  intros Hz Hb Hv.
  rewrite (buildQueryContext_limit _ _ _ _ _ Hb), (validatePagination_limit _ _ _ _ Hv).
  unfold specLimit. rewrite (numOr_nonzero _ _ Hz). split; reflexivity.
Qed.

Lemma resolved_limit_bounds (requested : option Z) :
  1 <= clamp (numOr requested MCP_LIMITS.DEFAULT_LIMIT)
             MCP_LIMITS.MIN_LIMIT MCP_LIMITS.MAX_LIMIT <= 50.
Proof.
  unfold clamp, MCP_LIMITS.MIN_LIMIT, MCP_LIMITS.MAX_LIMIT. lia.
Qed.

Example limit_200_resolves_to_50 :
  validatePagination None (Some 200) = inr (1, 50).
Proof. reflexivity. Qed.

(** C1 (the code departs from the claim at a requested limit of 0): the
    specification resolves a requested limit of 0 to the minimum 1, but
    both [validatePagination] and [buildQueryContext] treat 0 as absent
    and resolve it to the default 20. *)
Theorem limit_zero_resolves_to_default :
  specLimit (Some 0) = 1
  /\ validatePagination None (Some 0) = inr (1, 20)
  /\ forall Date_parse now now',
       exists ctx,
         buildQueryContext Date_parse now now' (limitOnly "error" (Some 0))
         = inr ctx
         /\ Context.limit ctx = 20.
Proof.
  split; [reflexivity|]. split; [reflexivity|].
  intros Date_parse now now'.
  unfold buildQueryContext, resolveTimeRange, limitOnly; simpl.
  destruct (TimeClip (now - 3600000)) as [v|] eqn:Hclip; simpl.
  - unfold TimeClip in Hclip.
    destruct (Z.abs (now - 3600000) <=? 8640000000000000); inversion Hclip; subst.
    destruct (now - (now - 3600000) >? 86400000) eqn:Hgt.
    + apply Z.gtb_lt in Hgt. lia.
    + eexists; split; reflexivity.
  - eexists; split; reflexivity.
Qed.

(** ** Time range *)

(** The comparison of [buildQueryContext] holds exactly of two valid
    dates more than 24 hours apart. *)
Lemma range_test_exceeds (s e : Date) :
  numGt (numSub e s)
        (Some (MCP_LIMITS.MAX_TIME_WINDOW_HOURS * 60 * 60 * 1000)) = true
  <-> exceeds24h s e.
Proof.
  unfold exceeds24h. destruct e as [b|], s as [a|]; simpl;
    try (split; [discriminate | intros (x & y & H1 & H2 & _); discriminate]).
  split.
  - intros H. apply Z.gtb_lt in H. exists a, b. repeat split; try reflexivity.
    unfold MCP_LIMITS.MAX_TIME_WINDOW_HOURS in H. lia.
  - intros (x & y & H1 & H2 & H3). inversion H1; inversion H2; subst.
    apply Z.gtb_lt. unfold MCP_LIMITS.MAX_TIME_WINDOW_HOURS. lia.
Qed.

(** A range that is not too wide gives a context carrying it. *)
Lemma buildQueryContext_within Date_parse now now' input s e :
  resolveTimeRange Date_parse now input = (s, e) ->
  ~ exceeds24h s e ->
  exists ctx,
    buildQueryContext Date_parse now now' input = inr ctx
    /\ Context.timeRange ctx = Context.Range s e.
Proof.
  intros Hr Hn. unfold buildQueryContext. rewrite Hr.
  destruct (numGt _ _) eqn:Hc.
  - exfalso. apply Hn, range_test_exceeds. exact Hc.
  - eexists. split; reflexivity.
Qed.

(** C4: context building fails, with the too-wide error, exactly when the
    resolved range is longer than 24 hours, whichever branch resolved it
    (a preset, the custom dates or the default); in every other case it
    succeeds and the context carries the resolved range. *)
Theorem range_check_uniform Date_parse now now' input s e :
  resolveTimeRange Date_parse now input = (s, e) ->
  (buildQueryContext Date_parse now now' input = inl RangeTooWide
   <-> exceeds24h s e)
  /\ ((exists err, buildQueryContext Date_parse now now' input = inl err)
      <-> exceeds24h s e)
  /\ (~ exceeds24h s e ->
      exists ctx,
        buildQueryContext Date_parse now now' input = inr ctx
        /\ Context.timeRange ctx = Context.Range s e).
Proof.
  intros Hr.
  assert (Hfail : exceeds24h s e ->
                  buildQueryContext Date_parse now now' input = inl RangeTooWide).
  { intros Hex. apply range_test_exceeds in Hex.
    unfold buildQueryContext. rewrite Hr, Hex. reflexivity. }
  assert (Hok : forall err,
             buildQueryContext Date_parse now now' input = inl err ->
             exceeds24h s e).
  { intros err Herr. apply range_test_exceeds.
    unfold buildQueryContext in Herr. rewrite Hr in Herr.
    destruct (numGt _ _); [reflexivity | discriminate Herr]. }
  split; [|split].
  - split; [apply Hok | exact Hfail].
  - split; [intros [err Herr]; exact (Hok err Herr)|].
    intros Hex. exists RangeTooWide. apply Hfail. exact Hex.
  - apply buildQueryContext_within. exact Hr.
Qed.

(** A custom range of 24 hours and one second is refused. *)
Lemma range_check_witness :
  resolveTimeRange Reference.Date_parse now0
    (customInput "2024-01-15T10:00:00Z" "2024-01-16T10:00:01Z")
  = (Some 1705312800000, Some 1705399201000)
  /\ buildQueryContext Reference.Date_parse now0 now0
       (customInput "2024-01-15T10:00:00Z" "2024-01-16T10:00:01Z")
     = inl RangeTooWide.
Proof.
  split; [reflexivity|].
  apply (proj2 (proj1 (@range_check_uniform Reference.Date_parse now0 now0
                         (customInput "2024-01-15T10:00:00Z" "2024-01-16T10:00:01Z")
                         (Some 1705312800000) (Some 1705399201000) eq_refl))).
  exists 1705312800000, 1705399201000. repeat split; reflexivity.
Defined.

(** A custom range of exactly 24 hours, and the widest preset, pass. *)
Example range_of_24h_accepted :
  (exists ctx,
      buildQueryContext Reference.Date_parse now0 now0
        (customInput "2024-01-15T10:00:00Z" "2024-01-16T10:00:00Z") = inr ctx)
  /\ (exists ctx,
         buildQueryContext Reference.Date_parse now0 now0 (presetInput TF_24h)
         = inr ctx).
Proof. split; eexists; reflexivity. Qed.

(** No preset can trip the check: the presets are at most 24 hours. *)
Lemma preset_never_too_wide Date_parse now now' tf input :
  Input.timeframe input = Some tf -> isCustom tf = false ->
  exists ctx, buildQueryContext Date_parse now now' input = inr ctx.
Proof.
  intros Htf Hc.
  destruct (resolveTimeRange Date_parse now input) as [s e] eqn:Hr.
  destruct (buildQueryContext_within Date_parse now now' input s e Hr)
    as [ctx [Hctx _]]; [|exists ctx; exact Hctx].
  intros (a & b & -> & -> & Hgt).
  unfold resolveTimeRange in Hr. rewrite Htf, Hc in Hr. simpl in Hr.
  inversion Hr as [[Hs He]]. subst b.
  destruct (TIMEFRAME_MAP tf) as [ms|] eqn:Hms; simpl in Hs; [|discriminate].
  unfold TimeClip in Hs.
  destruct (Z.abs (now - ms) <=? 8640000000000000); inversion Hs; subst a.
  destruct tf; inversion Hms; subst ms; lia.
Qed.

(** ** Retry policy of the client *)

Lemma makeRequestWithRetry_unfold server retryCount w :
  makeRequestWithRetry server retryCount w =
  match fetch server w with
  | (inr response, w1) =>
      if rateLimitedOrServerError response && (retryCount <? MCP_LIMITS.MAX_RETRIES)
      then makeRequestWithRetry server (retryCount + 1)
             (snd (sleep (MCP_LIMITS.RETRY_DELAY_MS * 2 ^ retryCount) w1))
      else (inr response, w1)
  | (inl error, w1) =>
      if retryCount <? MCP_LIMITS.MAX_RETRIES
      then makeRequestWithRetry server (retryCount + 1)
             (snd (sleep (MCP_LIMITS.RETRY_DELAY_MS * 2 ^ retryCount) w1))
      else (inl error, w1)
  end.
Proof.
  rewrite makeRequestWithRetry_equation_1.
  destruct (fetch server w) as [[error|response] w1]; simpl.
  - destruct (Z_lt_dec retryCount MCP_LIMITS.MAX_RETRIES) as [H|H]; simpl.
    + apply Z.ltb_lt in H. rewrite H. reflexivity.
    + apply Z.ltb_nlt in H. rewrite H. reflexivity.
  - destruct (Z_lt_dec retryCount MCP_LIMITS.MAX_RETRIES) as [H|H]; simpl.
    + apply Z.ltb_lt in H. rewrite H, andb_true_r. reflexivity.
    + apply Z.ltb_nlt in H. rewrite H, andb_false_r. reflexivity.
Qed.

Lemma backoffFrom_S (c : Z) (k : nat) :
  backoffFrom c (S k)
  = MCP_LIMITS.RETRY_DELAY_MS * 2 ^ c :: backoffFrom (c + 1) k.
Proof.
  unfold backoffFrom.
  change (seq 0 (S k)) with (0%nat :: seq 1 k).
  rewrite map_cons. change (Z.of_nat 0) with 0. rewrite Z.add_0_r. f_equal.
  rewrite <- seq_shift, map_map. apply map_ext. intros a.
  f_equal. f_equal. lia.
Qed.

(** A transient outcome below the retry ceiling costs one call of
    [fetch] and one sleep, and the loop goes on with the next count. *)
Lemma retry_step server c w :
  c < MCP_LIMITS.MAX_RETRIES ->
  transient (server (fetched w)) = true ->
  makeRequestWithRetry server c w
  = makeRequestWithRetry server (c + 1)
      (World (S (fetched w)) (slept w ++ [MCP_LIMITS.RETRY_DELAY_MS * 2 ^ c])).
Proof.
  intros Hc Ht. rewrite makeRequestWithRetry_unfold. unfold fetch.
  apply Z.ltb_lt in Hc.
  destruct (server (fetched w)) as [r|e]; cbn [transient sleep snd] in *.
  - rewrite Ht, Hc. reflexivity.
  - rewrite Hc. reflexivity.
Qed.

(** An outcome that is not retried ends the loop. *)
Lemma retry_stop server c w :
  (transient (server (fetched w)) = false \/ MCP_LIMITS.MAX_RETRIES <= c) ->
  makeRequestWithRetry server c w
  = (settled (server (fetched w)), World (S (fetched w)) (slept w)).
Proof.
  intros H. rewrite makeRequestWithRetry_unfold. unfold fetch.
  destruct (server (fetched w)) as [r|e]; cbn [transient settled] in *.
  - destruct H as [H|H].
    + rewrite H. reflexivity.
    + apply Z.ltb_ge in H. rewrite H, andb_false_r. reflexivity.
  - destruct H as [H|H]; [discriminate|].
    apply Z.ltb_ge in H. rewrite H. reflexivity.
Qed.

(** [k] transient outcomes in a row, then the loop stops at outcome
    [k]: [k + 1] calls of [fetch], and the delays of the [k] retries. *)
Lemma retry_run server (k : nat) : forall c w,
  0 <= c ->
  (forall j, (j < k)%nat -> transient (server (fetched w + j)%nat) = true) ->
  c + Z.of_nat k <= MCP_LIMITS.MAX_RETRIES ->
  (transient (server (fetched w + k)%nat) = false
   \/ c + Z.of_nat k = MCP_LIMITS.MAX_RETRIES) ->
  makeRequestWithRetry server c w
  = (settled (server (fetched w + k)%nat),
     World (S (fetched w + k)) (slept w ++ backoffFrom c k)).
Proof.
  induction k as [|k IH]; intros c w Hc Htr Hle Hstop.
  - rewrite Nat.add_0_r in *. rewrite retry_stop.
    + unfold backoffFrom. simpl. rewrite app_nil_r. reflexivity.
    + destruct Hstop as [H|H]; [left; exact H | right; lia].
  - rewrite retry_step.
    + rewrite IH; cbn [fetched slept].
      * rewrite backoffFrom_S, <- app_assoc. cbn [app].
        replace (S (fetched w) + k)%nat with (fetched w + S k)%nat by lia.
        reflexivity.
      * lia.
      * intros j Hj. replace (S (fetched w) + j)%nat with (fetched w + S j)%nat by lia.
        apply Htr. lia.
      * lia.
      * replace (S (fetched w) + k)%nat with (fetched w + S k)%nat by lia.
        destruct Hstop as [H|H]; [left; exact H | right; lia].
    + lia.
    + rewrite <- (Nat.add_0_r (fetched w)). apply Htr. lia.
Qed.


(** Whatever the remote side does, the loop ends after at most four
    calls of [fetch]. *)
Lemma retry_always_settles server :
  exists k : nat,
    (k <= 3)%nat
    /\ (forall j, (j < k)%nat -> transient (server j) = true)
    /\ makeRequestWithRetry server 0 initial
       = (settled (server k), World (S k) (backoffFrom 0 k)).
Proof.
  assert (Hrun : forall k : nat,
             (k <= 3)%nat ->
             (forall j, (j < k)%nat -> transient (server j) = true) ->
             (transient (server k) = false \/ k = 3%nat) ->
             makeRequestWithRetry server 0 initial
             = (settled (server k), World (S k) (backoffFrom 0 k))).
  { intros k Hk Htr Hstop.
    apply (retry_run server k 0 initial); cbn [initial fetched Nat.add].
    - lia.
    - exact Htr.
    - unfold MCP_LIMITS.MAX_RETRIES. lia.
    - destruct Hstop as [H|H];
        [left; exact H | right; unfold MCP_LIMITS.MAX_RETRIES; lia]. }
  destruct (transient (server 0%nat)) eqn:H0.
  2:{ exists 0%nat. split; [lia|]. split; [intros j Hj; lia|].
      apply Hrun; [lia | intros j Hj; lia | left; exact H0]. }
  destruct (transient (server 1%nat)) eqn:H1.
  2:{ exists 1%nat. split; [lia|].
      assert (Htr : forall j, (j < 1)%nat -> transient (server j) = true).
      { intros j Hj. destruct j as [|j]; [exact H0 | lia]. }
      split; [exact Htr|]. apply Hrun; [lia | exact Htr | left; exact H1]. }
  destruct (transient (server 2%nat)) eqn:H2.
  2:{ exists 2%nat. split; [lia|].
      assert (Htr : forall j, (j < 2)%nat -> transient (server j) = true).
      { intros j Hj. destruct j as [|[|j]]; [exact H0 | exact H1 | lia]. }
      split; [exact Htr|]. apply Hrun; [lia | exact Htr | left; exact H2]. }
  exists 3%nat. split; [lia|].
  assert (Htr : forall j, (j < 3)%nat -> transient (server j) = true).
  { intros j Hj. destruct j as [|[|[|j]]]; [exact H0 | exact H1 | exact H2 | lia]. }
  split; [exact Htr|]. apply Hrun; [lia | exact Htr | right; reflexivity].
Qed.





(** With the 200 answer carrying an empty body, [queryLogs] as a whole
    succeeds after the two retries. *)
Example queryLogs_after_two_retries :
  queryLogs Reference.JSON_parse scenario503 wildcardRequest initial
  = (inr (emptyResponse []), World 3 [1000; 2000]).
Proof. vm_compute. reflexivity. Qed.

(** Four server errors in a row: three retries, then the last response
    is handed back. *)
Example retry_gives_up_after_three :
  makeRequestWithRetry (fun _ => Resolves response503) 0 initial
  = (inr response503, World 4 [1000; 2000; 4000]).
Proof. vm_compute. reflexivity. Qed.

(** ** Pagination flag of the normaliser *)

Lemma processLogs_flags Date_format logs ctx page total out :
  processLogs Date_format logs ctx page total = inr out ->
  hasNextPage (summary out) = (Z.of_nat (List.length logs) =? Context.limit ctx)
  /\ nextPageAvailable (pagination out)
     = (Z.of_nat (List.length logs) =? Context.limit ctx).
Proof.
  unfold processLogs, ResponseProcessor.bind.
  destruct (mapM processLogEntry logs); [discriminate|].
  destruct (toISOString Date_format (Context.start _)); [discriminate|].
  destruct (toISOString Date_format (Context.end_ _)); [discriminate|].
  intros H. inversion H. split; reflexivity.
Qed.

(** C8: in every result of the normaliser both flags are true exactly
    when the number of records it was given equals the limit of the
    context, whatever total the server reported. *)
Theorem hasNextPage_iff_full_page Date_format logs ctx page total out :
  processLogs Date_format logs ctx page total = inr out ->
  (hasNextPage (summary out) = true
   <-> Z.of_nat (List.length logs) = Context.limit ctx)
  /\ (nextPageAvailable (pagination out) = true
      <-> Z.of_nat (List.length logs) = Context.limit ctx)
  /\ (forall total' out',
         processLogs Date_format logs ctx page total' = inr out' ->
         hasNextPage (summary out') = hasNextPage (summary out)
         /\ nextPageAvailable (pagination out')
            = nextPageAvailable (pagination out)).
Proof.
  intros H. destruct (processLogs_flags _ _ _ _ _ _ H) as [Hs Hp].
  rewrite Hs, Hp. split; [apply Z.eqb_eq | split; [apply Z.eqb_eq|]].
  intros total' out' H'. destruct (processLogs_flags _ _ _ _ _ _ H') as [Hs' Hp'].
  rewrite Hs', Hp'. split; reflexivity.
Qed.

(** Two records against a limit of 2, with a server total of 40: a full
    page, so a next page is announced. *)
Lemma hasNextPage_witness :
  exists out,
    processLogs Reference.Date_format
      [rawLog "warning" "disk almost full"; rawLog "err" "disk full"]
      (contextWithLimit 2) 1 (JNum 40) = inr out
    /\ hasNextPage (summary out) = true.
Proof.
  eexists. split; [vm_compute; reflexivity|].
  eapply (proj1 (hasNextPage_iff_full_page Reference.Date_format
                   [rawLog "warning" "disk almost full"; rawLog "err" "disk full"]
                   (contextWithLimit 2) 1 (JNum 40) _ _)).
  reflexivity.
  Unshelve. vm_compute. reflexivity.
Defined.

(** ** Bodies without a result object *)

Lemma lookup_absent k fields :
  existsb (fun kv => eqs k (fst kv)) fields = false ->
  lookup k fields = JUndefined.
Proof.
  induction fields as [|[k' v] rest IH]; simpl; [reflexivity|].
  intros H. apply orb_false_iff in H. destruct H as [H1 H2].
  rewrite H1. apply IH. exact H2.
Qed.

Lemma getProp_absent (k : string) v :
  eqs (lit k) (lit "length") = false ->
  isNullish v = false -> exposes k v = false ->
  getProp v k = inr JUndefined.
Proof.
  intros Hk Hn He. destruct v; simpl in *; try discriminate; try reflexivity.
  - rewrite Hk. reflexivity.
  - rewrite Hk. reflexivity.
  - rewrite lookup_absent; [reflexivity | exact He].
Qed.

Lemma findByProp_none k vs :
  Forall (fun v => getProp v k = inr JUndefined) vs ->
  findByProp k vs = inr JUndefined.
Proof.
  induction 1 as [|v vs Hv _ IH]; simpl; [reflexivity|].
  rewrite Hv. simpl. exact IH.
Qed.

Lemma mapM_plain JSON_parse lines :
  Forall (plainLine JSON_parse) lines ->
  exists vs,
    mapM JSON_parse lines = inr vs
    /\ Forall (fun v => getProp v "result" = inr JUndefined) vs
    /\ Forall (fun v => getProp v "logs" = inr JUndefined) vs.
Proof.
  induction 1 as [|line lines (v & Hp & Hn & Hr & Hl) _ (vs & Hm & Hrs & Hls)].
  - exists []. repeat split; constructor.
  - exists (v :: vs). simpl. rewrite Hp. simpl. rewrite Hm. simpl.
    repeat split; constructor; try assumption;
      apply getProp_absent; try assumption; reflexivity.
Qed.

Lemma parseNdjson_plain JSON_parse responseText :
  Forall (plainLine JSON_parse) (ndjsonLines responseText) ->
  exists vs, parseNdjson JSON_parse responseText = inr (emptyResponse vs).
Proof.
  intros H. destruct (mapM_plain _ _ H) as (vs & Hm & Hr & Hl).
  exists vs. unfold parseNdjson. rewrite Hm. simpl.
  rewrite (findByProp_none _ _ Hr). simpl.
  rewrite (findByProp_none _ _ Hl). simpl. reflexivity.
Qed.

(** Reading the property off [null] ends the search with a
    [TypeError], when the elements before it do not have the property. *)
Lemma findByProp_null (k : string) vs :
  Forall (fun v => v = JNull \/ getProp v k = inr JUndefined) vs ->
  In JNull vs ->
  findByProp k vs
  = inl (Throw TypeError
           (lit "Cannot read properties of null (reading '"
              ++ lit k ++ lit "')")).
Proof.
  induction 1 as [|v vs Hv _ IH]; intros Hin; [destruct Hin|].
  cbn [findByProp]. destruct Hv as [->|Hv]; [reflexivity|].
  rewrite Hv. cbn [ResponseProcessor.bind truthy].
  apply IH. destruct Hin as [->|Hin]; [discriminate Hv | exact Hin].
Qed.

Lemma keyless_not_null JSON_parse line :
  keylessLine JSON_parse line -> JSON_parse line <> inr JNull ->
  plainLine JSON_parse line.
Proof.
  intros (v & Hp & Hu & Hr & Hl) Hn. exists v. conjuncts; try assumption.
  destruct v; try reflexivity; [contradiction | congruence].
Qed.

Lemma mapM_keyless JSON_parse lines :
  Forall (keylessLine JSON_parse) lines ->
  exists vs,
    mapM JSON_parse lines = inr vs
    /\ Forall (fun v => v = JNull \/ getProp v "result" = inr JUndefined) vs
    /\ (forall line, In line lines -> JSON_parse line = inr JNull ->
                     In JNull vs).
Proof.
  induction 1 as [|line lines (v & Hp & Hu & Hr & Hl) _ (vs & Hm & Hvs & Hin)].
  - exists []. conjuncts; [reflexivity | constructor | intros line []].
  - exists (v :: vs). cbn [mapM]. rewrite Hp. cbn [ResponseProcessor.bind].
    rewrite Hm. cbn [ResponseProcessor.bind]. conjuncts.
    + reflexivity.
    + constructor; [|exact Hvs].
      destruct v; try (right; reflexivity); [contradiction | left; reflexivity |].
      right. apply getProp_absent; [reflexivity | reflexivity | exact Hr].
    + intros line' [<-|Hin'] Hnull.
      * left. congruence.
      * right. exact (Hin line' Hin' Hnull).
Qed.

(** C9, as the code has it.  Take a successful answer whose non-blank
    lines all parse as JSON and expose neither a [result] nor a [logs]
    key.  When none of the lines is the JSON text [null], [queryLogs]
    returns, without an error, a response with an empty log list and
    total 0.  When one of them is, [queryLogs] raises: reading [result]
    off [null] throws inside the search for the result object, and the
    call fails with the error of a body that could not be parsed. *)
Theorem null_line_breaks_empty_result
  JSON_parse server request w response w' :
  makeRequestWithRetry server 0 w = (inr response, w') ->
  ok response = true ->
  Forall (keylessLine JSON_parse) (ndjsonLines (text response)) ->
  ((forall line, In line (ndjsonLines (text response)) ->
                 JSON_parse line <> inr JNull) ->
   exists v,
     queryLogs JSON_parse server request w = (inr v, w')
     /\ getProp v "logs" = inr (JArr [])
     /\ getProp v "total" = inr (JNum 0))
  /\ ((exists line, In line (ndjsonLines (text response))
                    /\ JSON_parse line = inr JNull) ->
      queryLogs JSON_parse server request w
      = (inl (nullLineFailure response), w')).
Proof.
  intros Hr Hok Hlines. split.
  - intros Hnonull.
    assert (Hplain : Forall (plainLine JSON_parse)
                            (ndjsonLines (text response))).
    { rewrite Forall_forall in *. intros line Hin.
      apply keyless_not_null; [apply Hlines | apply Hnonull]; exact Hin. }
    destruct (parseNdjson_plain _ _ Hplain) as [vs Hp].
    exists (emptyResponse vs).
    unfold queryLogs, tryCatch, bindM. rewrite Hr, Hok. cbn [negb].
    rewrite Hp. conjuncts; reflexivity.
  - intros (line & Hin & Hnull).
    destruct (mapM_keyless _ _ Hlines) as (vs & Hm & Hvs & Hnulls).
    assert (Hp : parseNdjson JSON_parse (text response)
                 = inl (Throw TypeError
                          (lit "Cannot read properties of null (reading 'result')"))).
    { unfold parseNdjson. rewrite Hm. cbn [ResponseProcessor.bind].
      rewrite (findByProp_null "result" vs Hvs (Hnulls line Hin Hnull)).
      reflexivity. }
    unfold queryLogs, tryCatch, bindM. rewrite Hr, Hok. cbn [negb].
    rewrite Hp. reflexivity.
Qed.

(** A 200 answer with a query-id line and a warning line gives the empty
    result; with the line [null] in place of the warning the call
    fails. *)
Lemma null_line_witness :
  (exists v,
      queryLogs Reference.JSON_parse (fun _ => Resolves responseNoResult)
        wildcardRequest initial = (inr v, World 1 [])
      /\ getProp v "logs" = inr (JArr [])
      /\ getProp v "total" = inr (JNum 0))
  /\ queryLogs Reference.JSON_parse (fun _ => Resolves responseNullLine)
       wildcardRequest initial
     = (inl (Throw Error
               (lit "Failed to query Coralogix: Failed to parse Coralogix NDJSON response. Content-Type: application/x-ndjson, Lines: 2, Error: Cannot read properties of null (reading 'result')")),
        World 1 []).
Proof.
  split.
  - apply (proj1 (null_line_breaks_empty_result Reference.JSON_parse
                    (fun _ => Resolves responseNoResult) wildcardRequest
                    initial responseNoResult (World 1 [])
                    ltac:(vm_compute; reflexivity) eq_refl
                    ltac:(let l := eval vm_compute in
                                   (ndjsonLines (text responseNoResult)) in
                          change (ndjsonLines (text responseNoResult)) with l;
                          apply Forall_cons;
                          [|apply Forall_cons; [|apply Forall_nil]];
                          eexists; conjuncts;
                          [vm_compute; reflexivity | discriminate
                          | reflexivity | reflexivity
                          | vm_compute; reflexivity | discriminate
                          | reflexivity | reflexivity]))).
    let l := eval vm_compute in (ndjsonLines (text responseNoResult)) in
    change (ndjsonLines (text responseNoResult)) with l.
    intros line [<-|[<-|[]]]; vm_compute; discriminate.
  - apply (proj2 (null_line_breaks_empty_result Reference.JSON_parse
                    (fun _ => Resolves responseNullLine) wildcardRequest
                    initial responseNullLine (World 1 [])
                    ltac:(vm_compute; reflexivity) eq_refl
                    ltac:(let l := eval vm_compute in
                                   (ndjsonLines (text responseNullLine)) in
                          change (ndjsonLines (text responseNullLine)) with l;
                          apply Forall_cons;
                          [|apply Forall_cons; [|apply Forall_nil]];
                          eexists; conjuncts;
                          [vm_compute; reflexivity | discriminate
                          | reflexivity | reflexivity
                          | vm_compute; reflexivity | discriminate
                          | reflexivity | reflexivity]))).
    exists (lit "null"). split; [|vm_compute; reflexivity].
    let l := eval vm_compute in (ndjsonLines (text responseNullLine)) in
    change (ndjsonLines (text responseNullLine)) with l.
    right. left. reflexivity.
Defined.

(** The query id of the first line is carried into the empty response. *)
Example no_result_keeps_query_id :
  fst (queryLogs Reference.JSON_parse (fun _ => Resolves responseNoResult)
         wildcardRequest initial)
  = inr (JObj [ (lit "logs", JArr []); (lit "total", JNum 0);
                (lit "hasMore", JBool false);
                (lit "queryId", JStr (lit "q-17")) ]).
Proof. vm_compute. reflexivity. Qed.

(** ** Validation of a custom time range by the tool handler *)

Lemma executeQueryLogs_error_shape
  Date_parse Date_format JSON_parse now now' input server w e :
  fst (executeQueryLogs Date_parse Date_format JSON_parse now now' input server w)
  = inl e ->
  exists m, e = Throw Error (lit "Failed to query logs: " ++ m).
Proof.
  unfold executeQueryLogs, tryCatch.
  match goal with |- context [match ?c w with _ => _ end] => destruct (c w) as [[err|out] w1] end;
    simpl; intros H; inversion H.
  eexists. reflexivity.
Qed.

(** A custom request with both dates present passes the validation of
    the handler, whatever the dates parse to. *)
Lemma custom_dates_pass_validation
  Date_parse Date_format JSON_parse server now now' qi s e w :
  Input.query qi <> [] ->
  Input.timeframe qi = Some TF_custom ->
  Input.startDate qi = Some s -> s <> [] ->
  Input.endDate qi = Some e -> e <> [] ->
  createQueryLogsHandler Date_parse Date_format JSON_parse server now now'
    (Args qi) w
  = executeQueryLogs Date_parse Date_format JSON_parse now now' qi server w.
Proof.
  intros Hq Htf Hs Hs' He He'. unfold createQueryLogsHandler.
  destruct (Input.query qi) as [|c q]; [congruence|].
  rewrite Htf, Hs, He.
  destruct s as [|a s]; [congruence|]. destruct e as [|b e]; [congruence|].
  reflexivity.
Qed.

(** C10: constructing a [Date] from a string never throws, so the
    handler never answers with the rejection written for malformed
    dates, and a custom request whose two dates are present passes the
    validation whether or not they parse. *)
Theorem date_validation_never_rejects
  Date_parse Date_format JSON_parse server now now' :
  (forall s, exists d, constructDate Date_parse s = inr d)
  /\ (forall input w,
         fst (createQueryLogsHandler Date_parse Date_format JSON_parse
                server now now' input w) <> inl DatesNotValid)
  /\ (forall qi s e w,
         Input.query qi <> [] ->
         Input.timeframe qi = Some TF_custom ->
         Input.startDate qi = Some s -> s <> [] ->
         Input.endDate qi = Some e -> e <> [] ->
         createQueryLogsHandler Date_parse Date_format JSON_parse
           server now now' (Args qi) w
         = executeQueryLogs Date_parse Date_format JSON_parse
             now now' qi server w).
Proof.
  split; [|split].
  - intros s. eexists. reflexivity.
  - intros input w Hbad.
    assert (Hexec : forall qi w0,
               fst (executeQueryLogs Date_parse Date_format JSON_parse
                      now now' qi server w0) <> inl DatesNotValid).
    { intros qi w0 H.
      destruct (executeQueryLogs_error_shape _ _ _ _ _ _ _ _ _ H) as [m Hm].
      discriminate Hm. }
    unfold createQueryLogsHandler in Hbad.
    destruct input as [|qi]; [discriminate Hbad|].
    destruct (Input.query qi) as [|c q]; [discriminate Hbad|].
    destruct (Input.timeframe qi) as [[| | | |]|];
      try (apply (Hexec qi w); exact Hbad).
    destruct (Input.startDate qi) as [[|a s]|]; try discriminate Hbad;
      destruct (Input.endDate qi) as [[|b e]|]; try discriminate Hbad.
    apply (Hexec qi w). exact Hbad.
  - intros qi s e w. apply custom_dates_pass_validation.
Qed.

(** Dates that do not parse are let through to [executeQueryLogs]. *)
Lemma date_validation_witness :
  createQueryLogsHandler Reference.Date_parse Reference.Date_format
    Reference.JSON_parse scenario503 now0 now0
    (Args (customInput "yesterday" "today")) initial
  = executeQueryLogs Reference.Date_parse Reference.Date_format
      Reference.JSON_parse now0 now0 (customInput "yesterday" "today")
      scenario503 initial.
Proof.
  apply (proj2 (proj2 (date_validation_never_rejects Reference.Date_parse
                         Reference.Date_format Reference.JSON_parse
                         scenario503 now0 now0))
           (customInput "yesterday" "today") (lit "yesterday") (lit "today")
           initial).
  - discriminate.
  - reflexivity.
  - reflexivity.
  - discriminate.
  - reflexivity.
  - discriminate.
Defined.

(** A custom request lacking a date is rejected by the handler before
    anything else happens. *)
Lemma custom_missing_dates_rejected
  Date_parse Date_format JSON_parse server now now' qi w :
  Input.query qi <> [] ->
  Input.timeframe qi = Some TF_custom ->
  truthyStr (Input.startDate qi) && truthyStr (Input.endDate qi) = false ->
  createQueryLogsHandler Date_parse Date_format JSON_parse server now now'
    (Args qi) w
  = (inl DatesRequired, w)
  /\ InvalidInput DatesRequired = true.
Proof.
  intros Hq Htf Hd. split; [|reflexivity].
  unfold createQueryLogsHandler.
  destruct (Input.query qi) as [|c q]; [congruence|].
  rewrite Htf.
  destruct (Input.startDate qi) as [[|a s]|];
    destruct (Input.endDate qi) as [[|b e]|]; try reflexivity.
  discriminate Hd.
Qed.

(** With both dates present the context, when one is built, carries
    exactly the dates as constructed from the two strings. *)
Lemma custom_range_is_parsed Date_parse now now' qi s e ctx :
  Input.timeframe qi = Some TF_custom ->
  Input.startDate qi = Some s -> s <> [] ->
  Input.endDate qi = Some e -> e <> [] ->
  buildQueryContext Date_parse now now' qi = inr ctx ->
  Context.timeRange ctx
  = Context.Range (newDate Date_parse s) (newDate Date_parse e).
Proof.
  intros Htf Hs Hs' He He' Hb.
  assert (Hr : resolveTimeRange Date_parse now qi
               = (newDate Date_parse s, newDate Date_parse e)).
  { unfold resolveTimeRange. rewrite Htf, Hs, He.
    destruct s; [congruence|]. destruct e; [congruence|]. reflexivity. }
  unfold buildQueryContext in Hb. rewrite Hr in Hb.
  destruct (numGt _ _); inversion Hb. reflexivity.
Qed.

(** When one of the two dates does not parse, the context is built all
    the same, with an invalid date in it: the range check cannot see a
    range that is not a number. *)
Lemma unparsable_date_builds_context Date_parse now now' qi s e :
  Input.timeframe qi = Some TF_custom ->
  Input.startDate qi = Some s -> s <> [] ->
  Input.endDate qi = Some e -> e <> [] ->
  Date_parse s = None \/ Date_parse e = None ->
  exists ctx,
    buildQueryContext Date_parse now now' qi = inr ctx
    /\ Context.timeRange ctx
       = Context.Range (newDate Date_parse s) (newDate Date_parse e)
    /\ (Context.start (Context.timeRange ctx) = None
        \/ Context.end_ (Context.timeRange ctx) = None).
Proof.
  intros Htf Hs Hs' He He' Hbad.
  assert (Hr : resolveTimeRange Date_parse now qi
               = (newDate Date_parse s, newDate Date_parse e)).
  { unfold resolveTimeRange. rewrite Htf, Hs, He.
    destruct s; [congruence|]. destruct e; [congruence|]. reflexivity. }
  destruct (buildQueryContext_within Date_parse now now' qi _ _ Hr)
    as [ctx [Hctx Hrange]].
  - intros (a & b & Ha & Hb & _). unfold newDate in Ha, Hb.
    destruct Hbad as [H|H]; rewrite H in *; discriminate.
  - exists ctx. split; [exact Hctx|]. split; [exact Hrange|].
    rewrite Hrange. simpl. unfold newDate.
    destruct Hbad as [H|H]; rewrite H; [left|right]; reflexivity.
Qed.

(** In that case the handler raises none of its input rejections: the
    call ends inside [executeQueryLogs], before any remote call, on an
    error reported as a query failure. *)
Lemma unparsable_dates_no_input_rejection
  Date_parse Date_format JSON_parse server now now' qi s e w :
  Input.query qi <> [] ->
  Input.timeframe qi = Some TF_custom ->
  Input.startDate qi = Some s -> s <> [] ->
  Input.endDate qi = Some e -> e <> [] ->
  Date_parse s = None \/ Date_parse e = None ->
  exists m,
    createQueryLogsHandler Date_parse Date_format JSON_parse server now now'
      (Args qi) w
    = (inl (Throw Error (lit "Failed to query logs: " ++ m)), w)
    /\ InvalidInput (Throw Error (lit "Failed to query logs: " ++ m)) = false.
Proof.
  intros Hq Htf Hs Hs' He He' Hbad.
  rewrite (custom_dates_pass_validation Date_parse Date_format JSON_parse
             server now now' qi s e w Hq Htf Hs Hs' He He').
  destruct (unparsable_date_builds_context Date_parse now now' qi s e
              Htf Hs Hs' He He' Hbad) as (ctx & Hctx & _ & Hnone).
  unfold executeQueryLogs, tryCatch, bindM, pure. rewrite Hctx.
  destruct (validatePagination (Input.page qi) (Input.limit qi))
    as [err|[page limit]].
  - eexists. split; reflexivity.
  - destruct (Context.start (Context.timeRange ctx)) as [a|] eqn:Ha.
    + destruct Hnone as [Hn|Hn]; [discriminate|].
      rewrite Hn. simpl. eexists. split; reflexivity.
    + simpl. eexists. split; reflexivity.
Qed.

(** C3 (the code departs from the claim when a date does not parse): for
    the custom request with start date "not-a-date" the handler raises
    no input rejection; the context is built with an invalid start date,
    and the call ends, before any remote call, on the range error that
    rendering the invalid date throws, wrapped as a query failure. *)
Theorem unparsable_custom_date_fails_late :
  Reference.Date_parse (lit "not-a-date") = None
  /\ (exists ctx,
         buildQueryContext Reference.Date_parse now0 now0
           (customInput "not-a-date" "2024-01-15T11:00:00Z") = inr ctx
         /\ Context.timeRange ctx
            = Context.Range None (Some 1705316400000))
  /\ (forall server,
         createQueryLogsHandler Reference.Date_parse Reference.Date_format
           Reference.JSON_parse server now0 now0
           (Args (customInput "not-a-date" "2024-01-15T11:00:00Z")) initial
         = (inl (Throw Error (lit "Failed to query logs: Invalid time value")),
            initial))
  /\ InvalidInput (Throw Error (lit "Failed to query logs: Invalid time value"))
     = false.
Proof.
  split; [reflexivity|]. split; [eexists; split; reflexivity|].
  split; [|reflexivity].
  intros server. reflexivity.
Qed.

(** ** Truncation of stack traces *)

Lemma eqc_eq a b : eqc a b = true <-> a = b.
Proof. apply Ascii.eqb_eq. Qed.

Lemma eqs_eq a : forall b, eqs a b = true <-> a = b.
Proof.
  induction a as [|x a IH]; intros [|y b]; simpl; split; intros H;
    try reflexivity; try discriminate.
  - apply andb_true_iff in H. destruct H as [H1 H2].
    apply eqc_eq in H1. apply IH in H2. congruence.
  - inversion H; subst. apply andb_true_iff. split.
    + apply eqc_eq. reflexivity.
    + apply IH. reflexivity.
Qed.

Lemma split_nonempty sep s : exists first rest, split sep s = first :: rest.
Proof.
  induction s as [|c s (first & rest & IH)]; simpl.
  - eexists _, _. reflexivity.
  - destruct (eqc c sep).
    + eexists _, _. reflexivity.
    + rewrite IH. eexists _, _. reflexivity.
Qed.

(** [lines.slice(1, 5)] keeps the four elements after the first. *)
Lemma slice_after_first {A} (x : A) (rest : list A) :
  slice (x :: rest) 1 MCP_LIMITS.MAX_STACK_TRACE_LINES = firstn 4 rest.
Proof.
  unfold slice, MCP_LIMITS.MAX_STACK_TRACE_LINES.
  change (1 <? 0) with false. change (5 <? 0) with false. cbv iota.
  set (len := Z.of_nat (List.length (x :: rest))).
  assert (Hlen : len = Z.of_nat (List.length rest) + 1).
  { unfold len. simpl List.length. lia. }
  replace (Z.to_nat (Z.min 1 len)) with 1%nat by lia.
  change (skipn 1 (x :: rest)) with rest.
  destruct (Nat.le_gt_cases 4 (List.length rest)) as [H|H].
  - replace (Z.to_nat (Z.max (Z.min 5 len - Z.min 1 len) 0)) with 4%nat by lia.
    reflexivity.
  - replace (Z.to_nat (Z.max (Z.min 5 len - Z.min 1 len) 0))
      with (List.length rest) by lia.
    rewrite firstn_all. symmetry. apply firstn_all2. lia.
Qed.

(** The shape of [truncateStackTrace]: the first line, a newline, the
    (at most four) lines kept, and the marker for the lines left out. *)
Lemma truncateStackTrace_shape text first rest :
  split newline text = first :: rest ->
  truncateStackTrace text
  = first ++ [newline] ++ join [newline] (firstn 4 rest)
      ++ moreLines (skipn 4 rest).
Proof.
  intros Hs. unfold truncateStackTrace. rewrite Hs.
  rewrite slice_after_first. cbn [hd].
  unfold MCP_LIMITS.MAX_STACK_TRACE_LINES.
  destruct (Nat.le_gt_cases (List.length rest) 4) as [H|H].
  - (* at most five lines: nothing is left out *)
    replace (Z.of_nat (List.length (first :: rest)) - 5 >? 0) with false.
    + rewrite skipn_all2 by exact H. cbn [moreLines].
      rewrite app_nil_r. reflexivity.
    + symmetry. simpl List.length. rewrite Z.gtb_ltb. apply Z.ltb_ge. lia.
  - (* more than five lines *)
    replace (Z.of_nat (List.length (first :: rest)) - 5 >? 0) with true.
    + assert (Hk : Z.of_nat (List.length (first :: rest)) - 5
                   = Z.of_nat (List.length (skipn 4 rest))).
      { rewrite length_skipn. simpl List.length. lia. }
      rewrite Hk.
      destruct (skipn 4 rest) as [|l ls] eqn:Hsk.
      * apply (f_equal (@List.length str)) in Hsk.
        rewrite length_skipn in Hsk. simpl in Hsk. lia.
      * unfold moreLines. reflexivity.
    + symmetry. simpl List.length. rewrite Z.gtb_ltb. apply Z.ltb_lt. lia.
Qed.

Lemma processMessage_long text :
  strlen (trim text) > MCP_LIMITS.MAX_MESSAGE_LENGTH ->
  processMessage text = intelligentTruncate (trim text).
Proof.
  intros H. unfold processMessage. destruct text as [|c text].
  - exfalso. revert H. unfold MCP_LIMITS.MAX_MESSAGE_LENGTH. cbn. lia.
  - replace (strlen (trim (c :: text)) >? MCP_LIMITS.MAX_MESSAGE_LENGTH) with true.
    + reflexivity.
    + symmetry. rewrite Z.gtb_ltb. apply Z.ltb_lt. lia.
Qed.

(** C6, as the code has it: for a message that is, once trimmed, longer
    than 1000 characters and matches a stack-trace signature, the
    result is the first line verbatim, a newline, and the lines that
    follow it up to four of them (five lines in all); when the message
    has more than five lines the result ends with the marker
    [... and K more lines], K being exactly the number of lines left
    out. *)
Theorem stack_trace_truncation text :
  strlen (trim text) > MCP_LIMITS.MAX_MESSAGE_LENGTH ->
  isStackTrace (trim text) = true ->
  exists first kept omitted,
    split newline (trim text) = first :: kept ++ omitted
    /\ (List.length kept <= 4)%nat
    /\ (omitted <> [] -> List.length kept = 4%nat)
    /\ processMessage text
       = first ++ [newline] ++ join [newline] kept ++ moreLines omitted
    /\ (omitted <> [] ->
        moreLines omitted
        = [newline] ++ lit "... and "
            ++ showZ (Z.of_nat (List.length (split newline (trim text))) - 5)
            ++ lit " more lines").
Proof.
  intros Hlen Hst.
  destruct (split_nonempty newline (trim text)) as (first & rest & Hs).
  exists first, (firstn 4 rest), (skipn 4 rest).
  split; [rewrite firstn_skipn; exact Hs|].
  split; [apply firstn_le_length|].
  split.
  { intros Hne. rewrite length_firstn.
    destruct (Nat.le_gt_cases 4 (List.length rest)) as [H|H]; [lia|].
    exfalso. apply Hne. apply skipn_all2. lia. }
  split.
  { rewrite (processMessage_long _ Hlen). unfold intelligentTruncate.
    rewrite Hst. apply truncateStackTrace_shape. exact Hs. }
  intros Hne. rewrite Hs.
  assert (Hk : Z.of_nat (List.length (skipn 4 rest))
               = Z.of_nat (List.length (first :: rest)) - 5).
  { rewrite length_skipn. simpl List.length.
    destruct (Nat.le_gt_cases (List.length rest) 4) as [H|H]; [|lia].
    exfalso. apply Hne. apply skipn_all2. exact H. }
  rewrite <- Hk.
  destruct (skipn 4 rest) as [|l ls]; [congruence|]. reflexivity.
Qed.

(** On the nine-line trace the code keeps frames 1 to 4 and counts four
    lines left out. *)
Lemma stack_trace_truncation_witness :
  exists first kept omitted,
    split newline (trim longTrace) = first :: kept ++ omitted
    /\ (List.length kept <= 4)%nat
    /\ (omitted <> [] -> List.length kept = 4%nat)
    /\ processMessage longTrace
       = first ++ [newline] ++ join [newline] kept ++ moreLines omitted
    /\ (omitted <> [] ->
        moreLines omitted
        = [newline] ++ lit "... and "
            ++ showZ (Z.of_nat (List.length (split newline (trim longTrace))) - 5)
            ++ lit " more lines").
Proof.
  apply (stack_trace_truncation longTrace).
  - vm_compute. reflexivity.
  - vm_compute. reflexivity.
Defined.

Example longTrace_truncated :
  processMessage longTrace
  = join [newline]
      [ lit "Error: " ++ repeat "x"%char 1000;
        lit "    at frame1 (app.js)"; lit "    at frame2 (app.js)";
        lit "    at frame3 (app.js)"; lit "    at frame4 (app.js)";
        lit "... and 4 more lines" ].
Proof. vm_compute. reflexivity. Qed.

(** C6 as stated fails on the nine-line trace: with five following
    lines kept the result would hold frame 5 and count three lines left
    out, which is not what the code returns. *)
Lemma stack_trace_five_lines_counterexample :
  strlen (trim longTrace) > MCP_LIMITS.MAX_MESSAGE_LENGTH
  /\ isStackTrace (trim longTrace) = true
  /\ specTruncateStackTrace 5 (trim longTrace)
     = join [newline]
         [ lit "Error: " ++ repeat "x"%char 1000;
           lit "    at frame1 (app.js)"; lit "    at frame2 (app.js)";
           lit "    at frame3 (app.js)"; lit "    at frame4 (app.js)";
           lit "    at frame5 (app.js)"; lit "... and 3 more lines" ]
  /\ processMessage longTrace <> specTruncateStackTrace 5 (trim longTrace).
Proof.
  split; [vm_compute; reflexivity|].
  split; [vm_compute; reflexivity|].
  split; [vm_compute; reflexivity|].
  intros H. apply eqs_eq in H. vm_compute in H. discriminate H.
Qed.

(** ** Characters *)

Lemma allAscii_complete c : In c allAscii.
Proof.
  unfold allAscii. rewrite <- (ascii_nat_embedding c).
  apply in_map, in_seq. pose proof (nat_ascii_bounded c). lia.
Qed.

(** A property checked on the 256 code units holds of every one. *)
Lemma forall_ascii (P : ascii -> bool) :
  forallb P allAscii = true -> forall c, P c = true.
Proof.
  intros H c. rewrite forallb_forall in H. apply H, allAscii_complete.
Qed.

Lemma whitespace_upper c : isWhiteSpace c = true -> canonical c = c.
Proof.
  intros H.
  assert (Hall : forall c, implb (isWhiteSpace c) (eqc (canonical c) c) = true).
  { apply forall_ascii. vm_compute. reflexivity. }
  specialize (Hall c). rewrite H in Hall. apply eqc_eq. exact Hall.
Qed.

Lemma whitespace_lower c : isWhiteSpace (lowerChar c) = isWhiteSpace c.
Proof.
  assert (Hall : forall c, Bool.eqb (isWhiteSpace (lowerChar c)) (isWhiteSpace c) = true).
  { apply forall_ascii. vm_compute. reflexivity. }
  apply eqb_prop, Hall.
Qed.

(** ** Regular expression matcher *)

Lemma lastOr_app prev w1 w2 : lastOr prev (w1 ++ w2) = lastOr (lastOr prev w1) w2.
Proof. apply fold_left_app. Qed.

Lemma app_same_length {A} (w1 w2 s1 s2 : list A) :
  List.length w1 = List.length w2 -> w1 ++ s1 = w2 ++ s2 ->
  w1 = w2 /\ s1 = s2.
Proof.
  revert w2. induction w1 as [|a w1 IH]; intros [|b w2] Hlen Happ;
    try discriminate.
  - split; [reflexivity | exact Happ].
  - simpl in *. inversion Happ; subst.
    destruct (IH w2) as [-> ->]; auto.
Qed.

Lemma eatLit_spec i l : forall prev s p' s',
  eatLit i l prev s = Some (p', s') <->
  exists w,
    s = w ++ s'
    /\ map (canonicalize i) w = map (canonicalize i) l
    /\ p' = lastOr prev w.
Proof.
  induction l as [|x l IH]; intros prev s p' s'; simpl.
  - split.
    + intros H. inversion H; subst. exists []. repeat split.
    + intros (w & Hs & Hm & Hp). destruct w; [|discriminate].
      simpl in *. subst. reflexivity.
  - destruct s as [|c s0].
    + split; [discriminate|].
      intros (w & Hs & Hm & _). destruct w; discriminate.
    + unfold sameChar. destruct (eqc (canonicalize i c) (canonicalize i x)) eqn:Hc.
      * apply eqc_eq in Hc. rewrite IH. split.
        -- intros (w & Hs & Hm & Hp). exists (c :: w). simpl.
           repeat split; try congruence.
        -- intros (w & Hs & Hm & Hp). destruct w as [|c' w]; [discriminate|].
           simpl in *. inversion Hs; inversion Hm; subst.
           exists w. repeat split; assumption.
      * split; [discriminate|].
        intros (w & Hs & Hm & _). destruct w as [|c' w]; [discriminate|].
        simpl in *. inversion Hs; inversion Hm; subst.
        assert (eqc (canonicalize i c') (canonicalize i x) = true)
          by (apply eqc_eq; assumption).
        congruence.
Qed.

Lemma starLoop_spec p k : forall s prev,
  starLoop p k prev s = true <->
  exists w s',
    s = w ++ s' /\ forallb p w = true /\ k (lastOr prev w) s' = true.
Proof.
  induction s as [|c s IH]; intros prev; simpl.
  - split.
    + intros H. exists [], []. repeat split. exact H.
    + intros (w & s' & Hs & _ & Hk).
      symmetry in Hs. apply app_eq_nil in Hs. destruct Hs; subst. exact Hk.
  - split.
    + intros H. destruct (p c) eqn:Hp.
      * destruct (starLoop p k (Some c) s) eqn:Hl.
        -- apply IH in Hl. destruct Hl as (w & s' & Hs & Hw & Hk).
           exists (c :: w), s'. simpl. rewrite Hp, Hw. subst. repeat split. exact Hk.
        -- exists [], (c :: s). repeat split. exact H.
      * exists [], (c :: s). repeat split. exact H.
    + intros (w & s' & Hs & Hw & Hk). destruct w as [|c' w].
      * simpl in *. subst s'.
        destruct (p c); [destruct (starLoop p k (Some c) s)|]; auto.
      * simpl in *. inversion Hs as [[Hc Hs0]]. apply andb_true_iff in Hw.
        destruct Hw as [Hp Hw]. rewrite <- Hc in *. rewrite Hp.
        assert (Hl : starLoop p k (Some c) s = true).
        { apply IH. exists w, s'. repeat split; assumption. }
        rewrite <- Hs0, Hl. reflexivity.
Qed.

Lemma matchHere_Lit i l rest prev s :
  matchHere i (Lit l :: rest) prev s = true <->
  exists w s',
    s = w ++ s'
    /\ map (canonicalize i) w = map (canonicalize i) l
    /\ matchHere i rest (lastOr prev w) s' = true.
Proof.
  simpl. destruct (eatLit i l prev s) as [[p' s']|] eqn:He.
  - apply eatLit_spec in He. destruct He as (w & Hs & Hm & Hp). split.
    + intros H. exists w, s'. subst. repeat split; assumption.
    + intros (w2 & s2 & Hs2 & Hm2 & H2).
      assert (Hlen : List.length w2 = List.length w).
      { rewrite <- (length_map (canonicalize i) w2), Hm2, <- Hm, length_map.
        reflexivity. }
      destruct (app_same_length w2 w s2 s' Hlen) as [-> ->]; [congruence|].
      subst p'. exact H2.
  - split; [discriminate|].
    intros (w & s' & Hs & Hm & H).
    assert (Hsome : eatLit i l prev s = Some (lastOr prev w, s')).
    { apply eatLit_spec. exists w. repeat split; assumption. }
    congruence.
Qed.

Lemma matchHere_Star i p rest prev s :
  matchHere i (Star p :: rest) prev s = true <->
  exists w s',
    s = w ++ s' /\ forallb p w = true
    /\ matchHere i rest (lastOr prev w) s' = true.
Proof. simpl. apply starLoop_spec. Qed.

Lemma matchHere_Plus i p rest prev s :
  matchHere i (Plus p :: rest) prev s = true <->
  exists w s',
    s = w ++ s' /\ w <> [] /\ forallb p w = true
    /\ matchHere i rest (lastOr prev w) s' = true.
Proof.
  simpl. destruct s as [|c s0].
  - split; [discriminate|].
    intros (w & s' & Hs & Hne & _). destruct w; [congruence | discriminate].
  - destruct (p c) eqn:Hp.
    + rewrite starLoop_spec. split.
      * intros (w & s' & Hs & Hw & Hk). exists (c :: w), s'. simpl.
        rewrite Hp, Hw. subst. repeat split; [discriminate | exact Hk].
      * intros (w & s' & Hs & Hne & Hw & Hk).
        destruct w as [|c' w]; [congruence|].
        simpl in *. inversion Hs; subst. apply andb_true_iff in Hw.
        exists w, s'. repeat split; [apply Hw | exact Hk].
    + split; [discriminate|].
      intros (w & s' & Hs & Hne & Hw & _).
      destruct w as [|c' w]; [congruence|].
      simpl in *. inversion Hs; subst. rewrite Hp in Hw. discriminate.
Qed.

Lemma matchHere_WordBoundary i rest prev s :
  matchHere i (WordBoundary :: rest) prev s = true <->
  atWordBoundary prev s = true /\ matchHere i rest prev s = true.
Proof.
  simpl. destruct (atWordBoundary prev s); intuition discriminate.
Qed.

Lemma searchFrom_spec i rs : forall s prev,
  searchFrom i rs prev s = true <->
  exists pre s', s = pre ++ s' /\ matchHere i rs (lastOr prev pre) s' = true.
Proof.
  induction s as [|c s IH]; intros prev; simpl.
  - split.
    + destruct (matchHere i rs prev []) eqn:H; [|discriminate].
      intros _. exists [], []. split; [reflexivity | exact H].
    + intros (pre & s' & Hs & H).
      symmetry in Hs. apply app_eq_nil in Hs. destruct Hs; subst.
      simpl in H. rewrite H. reflexivity.
  - split.
    + destruct (matchHere i rs prev (c :: s)) eqn:H.
      * intros _. exists [], (c :: s). split; [reflexivity | exact H].
      * intros Hs. apply IH in Hs. destruct Hs as (pre & s' & Hs & Hm).
        exists (c :: pre), s'. subst. split; [reflexivity | exact Hm].
    + intros (pre & s' & Hs & Hm). destruct pre as [|c' pre].
      * simpl in *. subst s'. rewrite Hm. reflexivity.
      * simpl in *. inversion Hs; subst.
        destruct (matchHere i rs prev (c' :: pre ++ s')); [reflexivity|].
        apply IH. exists pre, s'. split; [reflexivity | exact Hm].
Qed.

(** [test] holds exactly when the atoms match at some position. *)
Lemma test_spec r s :
  test r s = true <->
  exists pre s',
    s = pre ++ s'
    /\ matchHere (ignoreCase r) (atoms r) (lastOr None pre) s' = true.
Proof. apply searchFrom_spec. Qed.

(** *** Blank input *)

Lemma forallb_suffix (p : ascii -> bool) w s :
  forallb p (w ++ s) = true -> forallb p s = true.
Proof. rewrite forallb_app. intros H. apply andb_true_iff in H. apply H. Qed.

(** Literal text that starts with a visible character cannot match in a
    string of white space. *)
Lemma matchHere_blank i rs : forall prev s,
  existsb inked rs = true ->
  forallb isWhiteSpace s = true ->
  matchHere i rs prev s = false.
Proof.
  induction rs as [|a rest IH]; intros prev s Hink Hs; [discriminate|].
  apply not_true_is_false. intros Hm.
  simpl in Hink. destruct (inked a) eqn:Ha.
  - destruct a as [[|x l]| | | | |]; try discriminate.
    apply matchHere_Lit in Hm. destruct Hm as (w & s' & Hw & Hmap & _).
    destruct w as [|c w]; [discriminate|].
    simpl in *. subst s. simpl in Hs. apply andb_true_iff in Hs.
    destruct Hs as [Hc _]. inversion Hmap as [[Hcx _]].
    apply andb_true_iff in Ha. destruct Ha as [Hx Hux].
    apply negb_true_iff in Hx. apply negb_true_iff in Hux.
    unfold canonicalize in Hcx. destruct i.
    + rewrite (whitespace_upper c Hc) in Hcx. congruence.
    + congruence.
  - simpl in Hink.
    assert (Hrest : forall p' s', (exists w, s = w ++ s') ->
                                   matchHere i rest p' s' = false).
    { intros p' s' [w Hw]. apply IH; [exact Hink|].
      subst s. apply (forallb_suffix _ w). exact Hs. }
    destruct a as [l|p|p|p| |].
    + apply matchHere_Lit in Hm. destruct Hm as (w & s' & Hw & _ & Hr).
      rewrite Hrest in Hr; [discriminate | exists w; exact Hw].
    + simpl in Hm. destruct s as [|c s0]; [discriminate|].
      destruct (p c); [|discriminate].
      rewrite Hrest in Hm; [discriminate | exists [c]; reflexivity].
    + apply matchHere_Star in Hm. destruct Hm as (w & s' & Hw & _ & Hr).
      rewrite Hrest in Hr; [discriminate | exists w; exact Hw].
    + apply matchHere_Plus in Hm. destruct Hm as (w & s' & Hw & _ & _ & Hr).
      rewrite Hrest in Hr; [discriminate | exists w; exact Hw].
    + apply matchHere_WordBoundary in Hm. destruct Hm as [_ Hr].
      rewrite Hrest in Hr; [discriminate | exists []; reflexivity].
    + simpl in Hm. destruct (atLineStart prev); [|discriminate].
      rewrite Hrest in Hm; [discriminate | exists []; reflexivity].
Qed.

Lemma test_blank r s :
  existsb inked (atoms r) = true ->
  forallb isWhiteSpace s = true ->
  test r s = false.
Proof.
  intros Hink Hs. apply not_true_is_false. intros Ht.
  apply test_spec in Ht. destruct Ht as (pre & s' & Hpre & Hm).
  rewrite matchHere_blank in Hm; [discriminate | exact Hink|].
  subst s. apply (forallb_suffix _ pre). exact Hs.
Qed.

(** A query of white space only is never classified as DataPrime. *)
Lemma detect_blank q :
  forallb isWhiteSpace q = true -> detectQuerySyntax q = lucene.
Proof.
  intros Hq. unfold detectQuerySyntax.
  replace (existsb (fun pattern => test pattern q) dataPrimePatterns) with false;
    [reflexivity|].
  symmetry. apply not_true_is_false. intros H.
  apply existsb_exists in H. destruct H as (r & Hin & Ht).
  rewrite test_blank in Ht; [discriminate| |exact Hq].
  unfold dataPrimePatterns in Hin. simpl in Hin.
  repeat (destruct Hin as [<-|Hin]; [reflexivity|]). contradiction.
Qed.

(** ** Trimming and searching *)

Lemma dropWhile_nil_iff {A} (p : A -> bool) s : dropWhile p s = [] <-> forallb p s = true.
Proof.
  induction s as [|c s IH]; simpl; [tauto|].
  destruct (p c); simpl; [exact IH|]. split; discriminate.
Qed.

Lemma dropWhile_head {A} (p : A -> bool) s c r : dropWhile p s = c :: r -> p c = false.
Proof.
  induction s as [|a s IH]; simpl; [discriminate|].
  destruct (p a) eqn:Ha; [exact IH|]. intros H. inversion H; subst. exact Ha.
Qed.

Lemma dropWhile_snoc {A} (p : A -> bool) l c :
  p c = false -> dropWhile p (l ++ [c]) = dropWhile p l ++ [c].
Proof.
  intros Hc. induction l as [|a l IH]; simpl.
  - rewrite Hc. reflexivity.
  - destruct (p a); [exact IH | reflexivity].
Qed.

Lemma trimEnd_cons c r :
  isWhiteSpace c = false -> trimEnd (c :: r) = c :: trimEnd r.
Proof.
  intros Hc. unfold trimEnd. simpl rev.
  rewrite (dropWhile_snoc _ _ _ Hc), rev_app_distr. reflexivity.
Qed.

Lemma trimEnd_snoc r d :
  isWhiteSpace d = false -> trimEnd (r ++ [d]) = r ++ [d].
Proof.
  intros Hd. unfold trimEnd. rewrite rev_app_distr. simpl.
  rewrite Hd. simpl. rewrite rev_involutive. reflexivity.
Qed.

(** The last character of a trimmed end is not white space. *)
Lemma trimEnd_last s :
  trimEnd s = [] \/ exists r d, trimEnd s = r ++ [d] /\ isWhiteSpace d = false.
Proof.
  unfold trimEnd. destruct (dropWhile isWhiteSpace (rev s)) as [|d e] eqn:He.
  - left. reflexivity.
  - right. exists (rev e), d. split; [reflexivity|].
    apply (dropWhile_head _ _ _ _ He).
Qed.

Lemma trim_blank_iff q : trim q = [] <-> forallb isWhiteSpace q = true.
Proof.
  unfold trim, trimStart. split.
  - intros H. destruct (dropWhile isWhiteSpace q) as [|c r] eqn:Hd.
    + apply dropWhile_nil_iff. exact Hd.
    + rewrite (trimEnd_cons _ _ (dropWhile_head _ _ _ _ Hd)) in H. discriminate.
  - intros H. apply dropWhile_nil_iff in H. rewrite H. reflexivity.
Qed.

(** A trimmed string that is not empty starts and ends with characters
    that are not white space. *)
Lemma trim_ends q :
  trim q <> [] ->
  (exists c r, trim q = c :: r /\ isWhiteSpace c = false)
  /\ (exists r d, trim q = r ++ [d] /\ isWhiteSpace d = false).
Proof.
  intros Hne. split.
  - unfold trim, trimStart in *.
    destruct (dropWhile isWhiteSpace q) as [|c r] eqn:Hd; [contradiction|].
    pose proof (dropWhile_head _ _ _ _ Hd) as Hc.
    rewrite (trimEnd_cons _ _ Hc). eexists _, _. split; [reflexivity | exact Hc].
  - unfold trim in *. destruct (trimEnd_last (trimStart q)) as [H|H];
      [contradiction | exact H].
Qed.

Lemma trim_fixed s :
  (exists c r, s = c :: r /\ isWhiteSpace c = false) ->
  (exists r d, s = r ++ [d] /\ isWhiteSpace d = false) ->
  trim s = s.
Proof.
  intros (c & r & Hs & Hc) (r' & d & Hs' & Hd).
  unfold trim, trimStart.
  replace (dropWhile isWhiteSpace s) with s.
  - rewrite Hs'. apply trimEnd_snoc. exact Hd.
  - rewrite Hs. simpl. rewrite Hc. reflexivity.
Qed.

Lemma trim_idempotent q : trim (trim q) = trim q.
Proof.
  destruct (trim q) as [|c r] eqn:Ht; [reflexivity|].
  rewrite <- Ht. destruct (trim_ends q) as [H1 H2]; [congruence|].
  apply trim_fixed; assumption.
Qed.

Lemma includes_app_left needle s t :
  includes needle t = true -> includes needle (s ++ t) = true.
Proof.
  intros H. induction s as [|c s IH]; simpl; [exact H|].
  rewrite IH. apply orb_true_r.
Qed.

(** ** Query optimisation *)

Lemma optimizeLucene_idempotent q :
  optimizeLuceneQuery (optimizeLuceneQuery q) = optimizeLuceneQuery q.
Proof.
  unfold optimizeLuceneQuery. cbv zeta.
  destruct (eqs (trim q) (lit "*") || eqs (trim q) []) eqn:Hw.
  - rewrite trim_idempotent, Hw. reflexivity.
  - destruct (negb (includes (lit ":") (trim q))
              && negb (includes (lit "(") (trim q))
              && negb (includes [chr 34] (trim q))) eqn:Hplain.
    + assert (Hfix : trim ([chr 34] ++ trim q ++ [chr 34])
                     = [chr 34] ++ trim q ++ [chr 34]).
      { apply trim_fixed.
        - eexists _, _. split; [reflexivity|]. reflexivity.
        - exists ([chr 34] ++ trim q), (chr 34).
          split; [rewrite <- app_assoc; reflexivity | reflexivity]. }
      rewrite Hfix.
      assert (Hstar : eqs ([chr 34] ++ trim q ++ [chr 34]) (lit "*")
                      || eqs ([chr 34] ++ trim q ++ [chr 34]) [] = false)
        by reflexivity.
      assert (Hquote : includes [chr 34] ([chr 34] ++ trim q ++ [chr 34]) = true)
        by reflexivity.
      rewrite Hstar, Hquote, andb_false_r. reflexivity.
    + rewrite trim_idempotent, Hw, Hplain. reflexivity.
Qed.

Lemma optimizeDataPrime_idempotent q :
  trim q <> [] ->
  optimizeDataPrimeQuery (optimizeDataPrimeQuery q) = optimizeDataPrimeQuery q.
Proof.
  intros Hne. unfold optimizeDataPrimeQuery. cbv zeta.
  change (showZ MCP_LIMITS.MAX_LIMIT) with (lit "50").
  destruct (negb (includes (lit "| limit") (toLowerCase (trim q)))) eqn:Hl.
  - assert (Hfix : trim (trim q ++ lit " | limit " ++ lit "50")
                   = trim q ++ lit " | limit " ++ lit "50").
    { destruct (trim_ends q Hne) as [(c & r & Hc & Hws) _].
      apply trim_fixed.
      - exists c, (r ++ lit " | limit " ++ lit "50"). rewrite Hc.
        split; [reflexivity | exact Hws].
      - exists (trim q ++ lit " | limit 5"), "0"%char.
        split; [rewrite <- app_assoc; reflexivity | reflexivity]. }
    rewrite Hfix. unfold toLowerCase at 1. rewrite map_app.
    rewrite includes_app_left; [reflexivity|]. reflexivity.
  - rewrite trim_idempotent, Hl. reflexivity.
Qed.

(** Forced onto a blank query, which detection never does, the DataPrime
    step appends the limit stage after a leading space that the second
    application trims away. *)
Example optimizeDataPrime_blank :
  optimizeQuery [] dataprime = lit " | limit 50"
  /\ optimizeQuery (lit " | limit 50") dataprime = lit "| limit 50".
Proof. split; reflexivity. Qed.

(** C7: applied with the dialect detected for the query (and, beyond
    that, for any dialect when the query is not blank), the optimisation
    step returns its own output unchanged.  For lucene, [*] and the empty
    string stay as they are, and a query without colon, parenthesis and
    double quote is wrapped in double quotes, which a second application
    leaves alone; for dataprime, [ | limit 50] is appended exactly when
    the lower-cased query does not contain [| limit]. *)
Theorem optimizeQuery_idempotent :
  (forall q d,
      d = detectQuerySyntax q \/ trim q <> [] ->
      optimizeQuery (optimizeQuery q d) d = optimizeQuery q d)
  /\ optimizeQuery (lit "*") lucene = lit "*"
  /\ optimizeQuery [] lucene = []
  /\ (forall q,
         trim q <> lit "*" -> trim q <> [] ->
         includes (lit ":") (trim q) = false ->
         includes (lit "(") (trim q) = false ->
         includes dquote (trim q) = false ->
         optimizeQuery q lucene = dquote ++ trim q ++ dquote
         /\ optimizeQuery (dquote ++ trim q ++ dquote) lucene
            = dquote ++ trim q ++ dquote)
  /\ (forall q,
         optimizeQuery q dataprime
         = if includes (lit "| limit") (toLowerCase (trim q))
           then trim q
           else trim q ++ lit " | limit 50").
Proof.
  split; [|split; [reflexivity | split; [reflexivity | split]]].
  - intros q d Hd. destruct d; unfold optimizeQuery.
    + apply optimizeLucene_idempotent.
    + apply optimizeDataPrime_idempotent.
      destruct Hd as [Hd|Hd]; [|exact Hd].
      intros Hblank. apply trim_blank_iff in Hblank.
      rewrite (detect_blank q Hblank) in Hd. discriminate.
  - intros q Hstar Hempty Hc Hp Hq.
    assert (Hopt : optimizeQuery q lucene = dquote ++ trim q ++ dquote).
    { unfold optimizeQuery, optimizeLuceneQuery.
      replace (eqs (trim q) (lit "*")) with false.
      2:{ symmetry. apply not_true_is_false. intros H. apply eqs_eq in H.
          contradiction. }
      replace (eqs (trim q) []) with false.
      2:{ symmetry. apply not_true_is_false. intros H. apply eqs_eq in H.
          contradiction. }
      unfold dquote in Hq. rewrite Hc, Hp, Hq. reflexivity. }
    split; [exact Hopt|].
    rewrite <- Hopt. apply optimizeLucene_idempotent.
  - intros q. unfold optimizeQuery, optimizeDataPrimeQuery.
    destruct (includes (lit "| limit") (toLowerCase (trim q))); reflexivity.
Qed.

(** A plain-text query is quoted once; a DataPrime query without a limit
    stage receives one, once. *)
Lemma optimizeQuery_idempotent_witness :
  optimizeQuery (optimizeQuery (lit " connection timeout ") lucene) lucene
  = optimizeQuery (lit " connection timeout ") lucene
  /\ optimizeQuery
       (optimizeQuery (lit "source logs | filter level == 5") dataprime)
       dataprime
     = optimizeQuery (lit "source logs | filter level == 5") dataprime.
Proof.
  split.
  - apply (proj1 optimizeQuery_idempotent (lit " connection timeout ") lucene).
    left. reflexivity.
  - apply (proj1 optimizeQuery_idempotent
             (lit "source logs | filter level == 5") dataprime).
    left. reflexivity.
Defined.

Example optimizeQuery_examples :
  optimizeQuery (lit " connection timeout ") lucene
  = dquote ++ lit "connection timeout" ++ dquote
  /\ optimizeQuery (lit "level:ERROR") lucene = lit "level:ERROR"
  /\ optimizeQuery (lit "source logs | filter level == 5") dataprime
     = lit "source logs | filter level == 5 | limit 50"
  /\ optimizeQuery (lit "source logs | LIMIT 10") dataprime
     = lit "source logs | LIMIT 10".
Proof. repeat split; reflexivity. Qed.

(** ** Dialect detection *)

Lemma upper_pipe c : canonical c = "|"%char -> c = "|"%char.
Proof.
  intros H.
  assert (Hall : forall c, implb (eqc (canonical c) "|"%char) (eqc c "|"%char) = true).
  { apply forall_ascii. vm_compute. reflexivity. }
  specialize (Hall c). rewrite H in Hall. apply eqc_eq. exact Hall.
Qed.

Lemma same_pipe w : map canonical w = map canonical (lit "|") -> w = lit "|".
Proof.
  destruct w as [|c [|c' w]]; try discriminate.
  intros H. inversion H as [Hc]. rewrite (upper_pipe c Hc). reflexivity.
Qed.

(** A character equal, up to case, to a word character is a word
    character. *)
Lemma word_upper c x :
  canonical c = canonical x -> isWordChar x = true -> isWordChar c = true.
Proof.
  intros Hu Hx.
  assert (Hall : forall c,
             forallb (fun x => implb (eqc (canonical c) (canonical x) && isWordChar x)
                                     (isWordChar c)) allAscii = true).
  { apply forall_ascii. vm_compute. reflexivity. }
  specialize (Hall c). rewrite forallb_forall in Hall.
  specialize (Hall x (allAscii_complete x)).
  assert (He : eqc (canonical c) (canonical x) = true) by (apply eqc_eq; exact Hu).
  rewrite He, Hx in Hall. exact Hall.
Qed.

Lemma same_word w : forall kw,
  map canonical w = map canonical kw ->
  forallb isWordChar kw = true -> forallb isWordChar w = true.
Proof.
  induction w as [|c w IH]; intros [|x kw] Hm Hk; try discriminate;
    [reflexivity|].
  simpl in *. inversion Hm. apply andb_true_iff in Hk. destruct Hk as [Hx Hk].
  rewrite (word_upper c x); [|assumption|assumption].
  apply (IH kw); assumption.
Qed.

Lemma same_nonempty w kw :
  map canonical w = map canonical kw -> kw <> [] -> w <> [].
Proof. intros Hm Hk ->. destruct kw; [congruence | discriminate]. Qed.

Lemma lastOr_word w : forall prev,
  w <> [] -> forallb isWordChar w = true -> isWordOpt (lastOr prev w) = true.
Proof.
  induction w as [|c w IH]; intros prev Hne Hw; [congruence|].
  simpl in Hw. apply andb_true_iff in Hw. destruct Hw as [Hc Hw].
  unfold lastOr. simpl. destruct w as [|c' w'].
  - simpl. exact Hc.
  - apply IH; [discriminate | exact Hw].
Qed.

Lemma hd_word w s :
  w <> [] -> forallb isWordChar w = true ->
  isWordOpt (hd_error (w ++ s)) = true.
Proof.
  destruct w as [|c w]; [congruence|]. simpl. intros _ H.
  apply andb_true_iff in H. apply H.
Qed.

Lemma matchHere_nil i prev s : matchHere i [] prev s = true.
Proof. reflexivity. Qed.

(** [/\|\s*kw\b/i] for a keyword made of word characters. *)
Lemma test_pipePattern kw q :
  kw <> [] -> forallb isWordChar kw = true ->
  test (pipePattern kw) q = true <-> PipeStage kw q.
Proof.
  intros Hne Hword. rewrite test_spec. unfold pipePattern, PipeStage. simpl atoms.
  simpl ignoreCase. split.
  - intros (pre & s0 & Hq & Hm).
    apply matchHere_Lit in Hm. destruct Hm as (bar & s1 & Hs0 & Hbar & Hm).
    apply matchHere_Star in Hm. destruct Hm as (ws & s2 & Hs1 & Hws & Hm).
    apply matchHere_Lit in Hm. destruct Hm as (w & post & Hs2 & Hw & Hm).
    apply matchHere_WordBoundary in Hm. destruct Hm as [Hb _].
    simpl in Hbar, Hw. apply same_pipe in Hbar.
    exists pre, ws, w, post. subst.
    conjuncts; [reflexivity | exact Hws | exact Hw |].
    unfold atWordBoundary in Hb.
    rewrite lastOr_word in Hb.
    + destruct (isWordOpt (hd_error post)); [discriminate | reflexivity].
    + apply (same_nonempty w kw); assumption.
    + apply (same_word w kw); assumption.
  - intros (pre & ws & w & post & Hq & Hws & Hw & Hpost).
    exists pre, (lit "|" ++ ws ++ w ++ post). split; [exact Hq|].
    apply matchHere_Lit. exists (lit "|"), (ws ++ w ++ post).
    conjuncts; [reflexivity | reflexivity |].
    apply matchHere_Star. exists ws, (w ++ post).
    conjuncts; [reflexivity | exact Hws |].
    apply matchHere_Lit. exists w, post.
    conjuncts; [reflexivity | exact Hw |].
    apply matchHere_WordBoundary. split; [|reflexivity].
    unfold atWordBoundary. rewrite lastOr_word, Hpost.
    + reflexivity.
    + apply (same_nonempty w kw); assumption.
    + apply (same_word w kw); assumption.
Qed.

(** [/\s+kw\s+/i]. *)
Lemma test_textPattern kw q :
  test (textPattern kw) q = true <-> TextOperator kw q.
Proof.
  rewrite test_spec. unfold textPattern, TextOperator. simpl atoms.
  simpl ignoreCase. split.
  - intros (pre & s0 & Hq & Hm).
    apply matchHere_Plus in Hm. destruct Hm as (ws1 & s1 & Hs0 & Hne1 & Hws1 & Hm).
    apply matchHere_Lit in Hm. destruct Hm as (w & s2 & Hs1 & Hw & Hm).
    apply matchHere_Plus in Hm. destruct Hm as (ws2 & post & Hs2 & Hne2 & Hws2 & _).
    exists pre, ws1, w, ws2, post. subst.
    conjuncts; [reflexivity | assumption ..].
  - intros (pre & ws1 & w & ws2 & post & Hq & Hne1 & Hws1 & Hw & Hne2 & Hws2).
    exists pre, (ws1 ++ w ++ ws2 ++ post). split; [exact Hq|].
    apply matchHere_Plus. exists ws1, (w ++ ws2 ++ post).
    conjuncts; [reflexivity | exact Hne1 | exact Hws1 |].
    apply matchHere_Lit. exists w, (ws2 ++ post).
    conjuncts; [reflexivity | exact Hw |].
    apply matchHere_Plus. exists ws2, post.
    conjuncts; [reflexivity | exact Hne2 | exact Hws2 | reflexivity].
Qed.

(** [/\bsource\s+\w+\s*\|/i]. *)
Lemma test_sourcePattern q :
  test sourcePattern q = true <-> SourcePipe q.
Proof.
  rewrite test_spec. unfold sourcePattern, SourcePipe. simpl atoms.
  simpl ignoreCase.
  assert (Hsrc : forall src, map canonical src = map canonical (lit "source") ->
                             src <> [] /\ forallb isWordChar src = true).
  { intros src H. split.
    - apply (same_nonempty src (lit "source") H). discriminate.
    - apply (same_word src (lit "source") H). reflexivity. }
  split.
  - intros (pre & s0 & Hq & Hm).
    apply matchHere_WordBoundary in Hm. destruct Hm as [Hb Hm].
    apply matchHere_Lit in Hm. destruct Hm as (src & s1 & Hs0 & Hw & Hm).
    apply matchHere_Plus in Hm. destruct Hm as (ws1 & s2 & Hs1 & Hne1 & Hws1 & Hm).
    apply matchHere_Plus in Hm. destruct Hm as (name & s3 & Hs2 & Hne2 & Hname & Hm).
    apply matchHere_Star in Hm. destruct Hm as (ws2 & s4 & Hs3 & Hws2 & Hm).
    apply matchHere_Lit in Hm. destruct Hm as (bar & post & Hs4 & Hbar & _).
    simpl in Hw, Hbar. apply same_pipe in Hbar.
    destruct (Hsrc src Hw) as [Hsne Hsword].
    exists pre, src, ws1, name, ws2, post. subst.
    conjuncts; [reflexivity | | assumption ..].
    unfold atWordBoundary in Hb. rewrite (hd_word src _ Hsne Hsword) in Hb.
    destruct (isWordOpt (lastOr None pre)); [discriminate | reflexivity].
  - intros (pre & src & ws1 & name & ws2 & post
            & Hq & Hpre & Hw & Hne1 & Hws1 & Hne2 & Hname & Hws2).
    destruct (Hsrc src Hw) as [Hsne Hsword].
    exists pre, (src ++ ws1 ++ name ++ ws2 ++ lit "|" ++ post).
    split; [exact Hq|].
    apply matchHere_WordBoundary. split.
    { unfold atWordBoundary. rewrite (hd_word src _ Hsne Hsword), Hpre.
      reflexivity. }
    apply matchHere_Lit. exists src, (ws1 ++ name ++ ws2 ++ lit "|" ++ post).
    conjuncts; [reflexivity | exact Hw |].
    apply matchHere_Plus. exists ws1, (name ++ ws2 ++ lit "|" ++ post).
    conjuncts; [reflexivity | exact Hne1 | exact Hws1 |].
    apply matchHere_Plus. exists name, (ws2 ++ lit "|" ++ post).
    conjuncts; [reflexivity | exact Hne2 | exact Hname |].
    apply matchHere_Star. exists ws2, (lit "|" ++ post).
    conjuncts; [reflexivity | exact Hws2 |].
    apply matchHere_Lit. exists (lit "|"), post.
    conjuncts; reflexivity.
Qed.

(** The list of the source is one source pattern, the seven pipe
    patterns and the three text patterns. *)
Lemma dataPrimePatterns_shapes :
  dataPrimePatterns
  = sourcePattern :: map pipePattern pipeKeywords
      ++ map textPattern textOperators.
Proof. reflexivity. Qed.

Lemma detect_dataprime_iff q :
  detectQuerySyntax q = dataprime <-> DataPrimeSignature q.
Proof.
  unfold detectQuerySyntax, DataPrimeSignature, HasPipeStage.
  rewrite dataPrimePatterns_shapes.
  assert (Hkw : forall kw, In kw pipeKeywords ->
                           kw <> [] /\ forallb isWordChar kw = true).
  { intros kw Hin. unfold pipeKeywords in Hin. simpl in Hin.
    repeat (destruct Hin as [<-|Hin]; [split; [discriminate | reflexivity]|]).
    contradiction. }
  destruct (existsb _ _) eqn:He.
  - split; [intros _ | reflexivity].
    apply existsb_exists in He. destruct He as (r & Hin & Ht).
    destruct Hin as [<-|Hin].
    + left. apply test_sourcePattern. exact Ht.
    + apply in_app_or in Hin. destruct Hin as [Hin|Hin];
        apply in_map_iff in Hin; destruct Hin as (kw & <- & Hkwin).
      * right. left. exists kw. split; [exact Hkwin|].
        destruct (Hkw kw Hkwin). apply test_pipePattern; assumption.
      * right. right. exists kw. split; [exact Hkwin|].
        apply test_textPattern. exact Ht.
  - split; [discriminate|]. intros Hsig. exfalso.
    assert (Hex : existsb (fun pattern => test pattern q)
                    (sourcePattern :: map pipePattern pipeKeywords
                       ++ map textPattern textOperators) = true).
    { apply existsb_exists. destruct Hsig as [H|[(kw & Hin & H)|(kw & Hin & H)]].
      - exists sourcePattern. split; [left; reflexivity|].
        apply test_sourcePattern. exact H.
      - exists (pipePattern kw). split.
        + right. apply in_or_app. left. apply in_map. exact Hin.
        + destruct (Hkw kw Hin). apply test_pipePattern; assumption.
      - exists (textPattern kw). split.
        + right. apply in_or_app. right. apply in_map. exact Hin.
        + apply test_textPattern. exact H. }
    rewrite He in Hex. discriminate.
Qed.

(** C2, as the code has it: the detector answers dataprime exactly for
    the queries that hold one of its signatures, case-insensitively: a
    pipe, optional white space and one of the seven stage keywords
    ending at a word boundary; the word [source], white space, a word,
    optional white space and a pipe; or one of [contains],
    [startswith], [endswith] between white space.  Every other query is
    lucene. *)
Theorem dialect_detection q :
  (HasPipeStage q -> detectQuerySyntax q = dataprime)
  /\ (detectQuerySyntax q = dataprime <-> DataPrimeSignature q)
  /\ (detectQuerySyntax q = lucene <-> ~ DataPrimeSignature q).
Proof.
  split; [|split].
  - intros H. apply detect_dataprime_iff. right. left. exact H.
  - apply detect_dataprime_iff.
  - split.
    + intros Hl Hsig. apply detect_dataprime_iff in Hsig. congruence.
    + intros Hn. destruct (detectQuerySyntax q) eqn:Hd; [reflexivity|].
      exfalso. apply Hn. apply detect_dataprime_iff. exact Hd.
Qed.

(** A query with a stage keyword in capitals after the pipe. *)
Lemma dialect_detection_witness :
  detectQuerySyntax (lit "source logs |  FILTER level == 5") = dataprime.
Proof.
  apply (proj1 (dialect_detection (lit "source logs |  FILTER level == 5"))).
  exists (lit "filter"). split; [left; reflexivity|].
  exists (lit "source logs "), (lit "  "), (lit "FILTER"), (lit " level == 5").
  conjuncts; reflexivity.
Defined.

Lemma no_pipe_no_stage q : ~ In "|"%char q -> ~ HasPipeStage q.
Proof.
  intros Hno (kw & _ & pre & ws & w & post & Hq & _). apply Hno.
  rewrite Hq. apply in_or_app. right. left. reflexivity.
Qed.

(** C2 as stated fails: a query without any pipe, hence none of the
    claimed signatures, is classified as dataprime because of the text
    operator [contains]. *)
Lemma text_operator_counterexample :
  ~ (forall q,
        (HasPipeStage q -> detectQuerySyntax q = dataprime)
        /\ (~ HasPipeStage q -> detectQuerySyntax q = lucene)).
Proof.
  intros H.
  destruct (H (lit "message contains timeout")) as [_ Hl].
  assert (Hd : detectQuerySyntax (lit "message contains timeout") = dataprime)
    by reflexivity.
  rewrite Hl in Hd; [discriminate|].
  apply no_pipe_no_stage. simpl. intuition discriminate.
Qed.

Example detection_examples :
  detectQuerySyntax (lit "level:ERROR AND timeout") = lucene
  /\ detectQuerySyntax (lit "source logs | stats count()") = dataprime
  /\ detectQuerySyntax (lit "a |limit 5") = dataprime
  /\ detectQuerySyntax (lit "a | limits 5") = lucene
  /\ detectQuerySyntax (lit "msg STARTSWITH x") = dataprime
  /\ detectQuerySyntax (lit "msg contains") = lucene.
Proof. repeat split; reflexivity. Qed.

(** ** Pages and offsets *)

(** A page above the maximum is refused, whatever the limit. *)
Lemma validatePagination_above (p : Z) (limit : option Z) :
  100 < p -> validatePagination (Some p) limit = inl PageOutOfRange.
Proof.
  intros Hp. unfold validatePagination, MCP_LIMITS.MAX_PAGES.
  assert (Hpage : numOr (Some p) 1 = p).
  { simpl. destruct (Z.eqb_spec p 0); [lia | reflexivity]. }
  rewrite Hpage. replace (Z.max 1 p) with p by lia.
  replace (p >? 100) with true
    by (symmetry; rewrite Z.gtb_ltb; apply Z.ltb_lt; lia).
  reflexivity.
Qed.

(** X1: a requested page between 1 and 100 is kept, an absent, zero or
    negative page becomes page 1, and a page above 100 is refused with
    the page error, whatever the limit. *)
Theorem page_resolution (limit : option Z) :
  (forall p, 1 <= p <= 100 ->
             exists l, validatePagination (Some p) limit = inr (p, l))
  /\ (forall p, p <= 0 ->
                exists l, validatePagination (Some p) limit = inr (1, l))
  /\ (exists l, validatePagination None limit = inr (1, l))
  /\ (forall p, 100 < p ->
                validatePagination (Some p) limit = inl PageOutOfRange).
Proof.
  assert (Hpage : forall p, p <> 0 -> numOr (Some p) 1 = p).
  { intros p Hp. simpl. destruct (Z.eqb_spec p 0); [contradiction | reflexivity]. }
  unfold validatePagination, MCP_LIMITS.MAX_PAGES. split; [|split; [|split]].
  - intros p Hp. rewrite Hpage by lia.
    replace (Z.max 1 p) with p by lia.
    replace (p >? 100) with false by (symmetry; rewrite Z.gtb_ltb; apply Z.ltb_ge; lia).
    eexists. reflexivity.
  - intros p Hp. destruct (Z.eq_dec p 0) as [->|Hnz].
    + eexists. reflexivity.
    + rewrite Hpage by exact Hnz. replace (Z.max 1 p) with 1 by lia.
      eexists. reflexivity.
  - eexists. reflexivity.
  - intros p Hp. rewrite Hpage by lia.
    replace (Z.max 1 p) with p by lia.
    replace (p >? 100) with true by (symmetry; rewrite Z.gtb_ltb; apply Z.ltb_lt; lia).
    reflexivity.
Qed.

Lemma page_resolution_witness :
  (exists l, validatePagination (Some 7) (Some 10) = inr (7, l))
  /\ validatePagination (Some 101) (Some 10) = inl PageOutOfRange.
Proof.
  split.
  - apply (proj1 (page_resolution (Some 10)) 7). lia.
  - apply (proj2 (proj2 (proj2 (page_resolution (Some 10)))) 101). lia.
Defined.

Lemma validatePagination_bounds page limit p l :
  validatePagination page limit = inr (p, l) ->
  1 <= p <= 100 /\ 1 <= l <= 50.
Proof.
  unfold validatePagination, MCP_LIMITS.MAX_PAGES, MCP_LIMITS.MIN_LIMIT,
    MCP_LIMITS.MAX_LIMIT.
  destruct (Z.max 1 (numOr page 1) >? 100) eqn:Hgt; [discriminate|].
  intros H. inversion H; subst. rewrite Z.gtb_ltb in Hgt. apply Z.ltb_ge in Hgt.
  lia.
Qed.

(** X2: for every accepted pair of page and limit the offset is
    (page - 1) * limit, never negative, and the number of rows asked of
    the remote side, limit + offset, is page * limit and at most 5000. *)
Theorem remote_window (page limit : option Z) (p l : Z) :
  validatePagination page limit = inr (p, l) ->
  calculateOffset p l = (p - 1) * l
  /\ 0 <= calculateOffset p l
  /\ l + calculateOffset p l = p * l
  /\ l + calculateOffset p l <= 5000.
Proof.
  intros H. destruct (validatePagination_bounds page limit p l H) as [Hp Hl].
  unfold calculateOffset.
  assert (0 <= (p - 1) * l) by nia.
  replace (Z.max 0 ((p - 1) * l)) with ((p - 1) * l) by lia.
  repeat split; try lia; nia.
Qed.

Lemma remote_window_witness :
  calculateOffset 3 20 = 40
  /\ 20 + calculateOffset 3 20 = 60.
Proof.
  destruct (remote_window (Some 3) None 3 20 eq_refl) as (H1 & _ & H2 & _).
  split; [exact H1 | exact H2].
Defined.

(** ** Time range of presets and of bare dates *)

Lemma TimeClip_ordinary t ms :
  ordinaryClock t -> 0 <= ms <= 24 * 60 * 60 * 1000 ->
  TimeClip (t - ms) = Some (t - ms).
Proof.
  unfold ordinaryClock, TimeClip. intros Ht Hms.
  replace (Z.abs (t - ms) <=? 8640000000000000) with true; [reflexivity|].
  symmetry. apply Z.leb_le. lia.
Qed.

Lemma TIMEFRAME_MAP_bounds tf ms :
  TIMEFRAME_MAP tf = Some ms -> 0 < ms <= 24 * 60 * 60 * 1000.
Proof. destruct tf; intros H; inversion H; lia. Qed.

(** X3: under a preset the range is the preset's duration ending at the
    clock reading, whatever explicit dates the request also carries; the
    context is always built; and the archive flag is set exactly when
    the start lies more than 24 hours before the second clock reading.
    With the 24h preset that is as soon as the clock has moved between
    the two readings. *)
Theorem preset_range Date_parse now now' input tf ms :
  Input.timeframe input = Some tf ->
  TIMEFRAME_MAP tf = Some ms ->
  ordinaryClock now -> ordinaryClock now' ->
  exists ctx,
    buildQueryContext Date_parse now now' input = inr ctx
    /\ Context.timeRange ctx = Context.Range (Some (now - ms)) (Some now)
    /\ (Context.includeArchive ctx = true
        <-> now' - now > 24 * 60 * 60 * 1000 - ms)
    /\ (tf = TF_24h -> (Context.includeArchive ctx = true <-> now < now')).
Proof.
  intros Htf Hms Hnow Hnow'.
  pose proof (TIMEFRAME_MAP_bounds tf ms Hms) as Hb.
  assert (Hc : isCustom tf = false) by (destruct tf; [reflexivity ..|discriminate]).
  assert (Hr : resolveTimeRange Date_parse now input = (Some (now - ms), Some now)).
  { unfold resolveTimeRange. rewrite Htf, Hc, Hms. cbn [negb numSub].
    rewrite TimeClip_ordinary; [reflexivity | exact Hnow | lia]. }
  unfold buildQueryContext. rewrite Hr. cbn [numSub numGt].
  replace (now - (now - ms) >? MCP_LIMITS.MAX_TIME_WINDOW_HOURS * 60 * 60 * 1000)
    with false.
  2:{ symmetry. rewrite Z.gtb_ltb. apply Z.ltb_ge.
      unfold MCP_LIMITS.MAX_TIME_WINDOW_HOURS. lia. }
  eexists. split; [reflexivity|]. cbn [Context.timeRange Context.includeArchive].
  split; [reflexivity|].
  unfold shouldIncludeArchive.
  rewrite (TimeClip_ordinary now' (24 * 60 * 60 * 1000)) by (try exact Hnow'; lia).
  cbn [numLt]. rewrite Z.ltb_lt.
  split; [lia|]. intros ->. inversion Hms; subst ms. lia.
Qed.

Lemma preset_range_witness :
  exists ctx,
    buildQueryContext Reference.Date_parse now0 (now0 + 1)
      (presetWithDates TF_24h "2020-01-01T00:00:00Z" "2020-01-02T00:00:00Z")
    = inr ctx
    /\ Context.timeRange ctx = Context.Range (Some (now0 - 86400000)) (Some now0)
    /\ Context.includeArchive ctx = true.
Proof.
  destruct (preset_range Reference.Date_parse now0 (now0 + 1)
              (presetWithDates TF_24h "2020-01-01T00:00:00Z" "2020-01-02T00:00:00Z")
              TF_24h 86400000 eq_refl eq_refl)
    as (ctx & Hctx & Hrange & _ & H24).
  - unfold ordinaryClock, now0. simpl. lia.
  - unfold ordinaryClock, now0. simpl. lia.
  - exists ctx. split; [exact Hctx|]. split; [exact Hrange|].
    apply (H24 eq_refl). unfold now0. lia.
Defined.

(** X4: without a time frame the two dates decide.  When both are
    present they are the range, also without the word custom, and the
    24-hour check applies to them; when one is missing the other is
    ignored and the range is the last hour before the clock reading. *)
Theorem range_without_timeframe Date_parse now now' input :
  Input.timeframe input = None ->
  ordinaryClock now ->
  (forall s e,
      Input.startDate input = Some s -> s <> [] ->
      Input.endDate input = Some e -> e <> [] ->
      (exceeds24h (newDate Date_parse s) (newDate Date_parse e) ->
       buildQueryContext Date_parse now now' input = inl RangeTooWide)
      /\ (forall ctx,
             buildQueryContext Date_parse now now' input = inr ctx ->
             Context.timeRange ctx
             = Context.Range (newDate Date_parse s) (newDate Date_parse e)))
  /\ (truthyStr (Input.startDate input) && truthyStr (Input.endDate input) = false ->
      exists ctx,
        buildQueryContext Date_parse now now' input = inr ctx
        /\ Context.timeRange ctx
           = Context.Range (Some (now - 60 * 60 * 1000)) (Some now)).
Proof.
  intros Htf Hnow. split.
  - intros s e Hs Hs' He He'.
    assert (Hr : resolveTimeRange Date_parse now input
                 = (newDate Date_parse s, newDate Date_parse e)).
    { unfold resolveTimeRange. rewrite Htf, Hs, He.
      destruct s; [congruence|]. destruct e; [congruence|]. reflexivity. }
    split.
    + intros Hex. apply range_test_exceeds in Hex.
      unfold buildQueryContext. rewrite Hr, Hex. reflexivity.
    + intros ctx Hb. unfold buildQueryContext in Hb. rewrite Hr in Hb.
      destruct (numGt _ _); inversion Hb. reflexivity.
  - intros Hmiss.
    assert (Hr : resolveTimeRange Date_parse now input
                 = (Some (now - 60 * 60 * 1000), Some now)).
    { unfold resolveTimeRange. rewrite Htf, Hmiss. cbn [TIMEFRAME_MAP numSub].
      rewrite TimeClip_ordinary; [reflexivity | exact Hnow | lia]. }
    apply (buildQueryContext_within Date_parse now now' input _ _ Hr).
    intros (a & b & Ha & Hb & Hgt). inversion Ha; inversion Hb; subst. lia.
Qed.

Lemma range_without_timeframe_witness :
  (forall ctx,
      buildQueryContext Reference.Date_parse now0 now0
        (datesOnly (Some (lit "2024-01-15T10:00:00Z"))
                   (Some (lit "2024-01-15T11:00:00Z"))) = inr ctx ->
      Context.timeRange ctx
      = Context.Range (newDate Reference.Date_parse (lit "2024-01-15T10:00:00Z"))
                      (newDate Reference.Date_parse (lit "2024-01-15T11:00:00Z")))
  /\ exists ctx,
       buildQueryContext Reference.Date_parse now0 now0
         (datesOnly (Some (lit "2024-01-15T10:00:00Z")) None) = inr ctx
       /\ Context.timeRange ctx
          = Context.Range (Some (now0 - 60 * 60 * 1000)) (Some now0).
Proof.
  assert (Hclock : ordinaryClock now0) by (unfold ordinaryClock, now0; simpl; lia).
  split.
  - apply (proj1 (range_without_timeframe Reference.Date_parse now0 now0
                    (datesOnly (Some (lit "2024-01-15T10:00:00Z"))
                               (Some (lit "2024-01-15T11:00:00Z")))
                    eq_refl Hclock)
             (lit "2024-01-15T10:00:00Z") (lit "2024-01-15T11:00:00Z")
             eq_refl ltac:(discriminate) eq_refl ltac:(discriminate)).
  - apply (proj2 (range_without_timeframe Reference.Date_parse now0 now0
                    (datesOnly (Some (lit "2024-01-15T10:00:00Z")) None)
                    eq_refl Hclock)).
    reflexivity.
Defined.

(** ** Messages *)

Lemma join_split sep s : join [sep] (split sep s) = s.
Proof.
  induction s as [|c s IH]; [reflexivity|].
  simpl split. destruct (eqc c sep) eqn:Hc.
  - apply eqc_eq in Hc. subst c.
    destruct (split_nonempty sep s) as (f & r & Hs). rewrite Hs in *.
    change (join [sep] ([] :: f :: r)) with ([] ++ [sep] ++ join [sep] (f :: r)).
    rewrite IH. reflexivity.
  - destruct (split sep s) as [|l ls] eqn:Hs.
    + destruct (split_nonempty sep s) as (f & r & Hs'). congruence.
    + destruct ls as [|l2 ls]; simpl in *; rewrite <- IH; reflexivity.
Qed.

Lemma substring_prefix (t : str) (n : Z) :
  0 <= n <= strlen t -> substring t 0 n = firstn (Z.to_nat n) t.
Proof.
  unfold strlen, substring, clampIndex. intros H.
  replace (Z.min (Z.max 0 0) (Z.of_nat (List.length t))) with 0 by lia.
  replace (Z.min (Z.max n 0) (Z.of_nat (List.length t))) with n by lia.
  replace (Z.min 0 n) with 0 by lia. replace (Z.max 0 n) with n by lia.
  rewrite Z.sub_0_r. reflexivity.
Qed.

Lemma substringFrom_suffix (t : str) (n : Z) :
  0 <= n <= strlen t -> substringFrom t n = skipn (Z.to_nat n) t.
Proof.
  unfold strlen, substringFrom, substring, clampIndex. intros H.
  set (len := Z.of_nat (List.length t)) in *.
  replace (Z.min (Z.max n 0) len) with n by lia.
  replace (Z.min (Z.max len 0) len) with len by lia.
  replace (Z.min n len) with n by lia. replace (Z.max n len) with len by lia.
  apply firstn_all2. rewrite length_skipn. unfold len. lia.
Qed.

Lemma processMessage_short text :
  strlen (trim text) <= MCP_LIMITS.MAX_MESSAGE_LENGTH ->
  processMessage text = trim text.
Proof.
  intros H. unfold processMessage. destruct text as [|c text]; [reflexivity|].
  replace (strlen (trim (c :: text)) >? MCP_LIMITS.MAX_MESSAGE_LENGTH) with false;
    [reflexivity|].
  symmetry. rewrite Z.gtb_ltb. apply Z.ltb_ge. exact H.
Qed.

(** X5: a message of at most 1000 characters after trimming comes back
    trimmed and otherwise unchanged; a longer one that is not shaped
    like a stack trace comes back as its first 700 characters, the
    marker [ ... ] and its last 290 characters, 995 characters in all. *)
Theorem message_budget text :
  (strlen (trim text) <= 1000 -> processMessage text = trim text)
  /\ (strlen (trim text) > 1000 ->
      isStackTrace (trim text) = false ->
      processMessage text
      = firstn 700 (trim text) ++ lit " ... "
          ++ skipn (List.length (trim text) - 290) (trim text)
      /\ strlen (processMessage text) = 995).
Proof.
  split; [apply processMessage_short|].
  intros Hlen Hst.
  assert (Heq : processMessage text
                = firstn 700 (trim text) ++ lit " ... "
                    ++ skipn (List.length (trim text) - 290) (trim text)).
  { rewrite (processMessage_long text Hlen). unfold intelligentTruncate.
    rewrite Hst. unfold MCP_LIMITS.MAX_MESSAGE_LENGTH.
    replace (strlen (trim text) >? 1000) with true
      by (symmetry; rewrite Z.gtb_ltb; apply Z.ltb_lt; lia).
    change (1000 * 7 / 10) with 700. change (1000 - 700 - 10) with 290.
    rewrite substring_prefix by lia.
    rewrite substringFrom_suffix by lia.
    change (Z.to_nat 700) with 700%nat.
    replace (Z.to_nat (strlen (trim text) - 290))
      with (List.length (trim text) - 290)%nat by (unfold strlen; lia).
    reflexivity. }
  split; [exact Heq|].
  rewrite Heq. unfold strlen in *. rewrite !length_app, length_firstn, length_skipn.
  change (List.length (lit " ... ")) with 5%nat. lia.
Qed.

Lemma message_budget_witness :
  processMessage (lit "  connection reset  ") = lit "connection reset"
  /\ strlen (processMessage longMessage) = 995.
Proof.
  split.
  - apply (proj1 (message_budget (lit "  connection reset  "))).
    vm_compute. discriminate.
  - apply (proj2 (message_budget longMessage)).
    + vm_compute. reflexivity.
    + vm_compute. reflexivity.
Defined.

(** X6: the budget does not bind stack traces of few lines.  A message
    longer than 1000 characters that matches a stack-trace signature and
    has two to five lines comes back whole, and one of a single line
    comes back whole with a newline added. *)
Theorem short_trace_kept_whole text :
  strlen (trim text) > 1000 ->
  isStackTrace (trim text) = true ->
  (List.length (split newline (trim text)) <= 5)%nat ->
  processMessage text
  = (if (List.length (split newline (trim text)) =? 1)%nat
     then trim text ++ [newline] else trim text)
  /\ strlen (processMessage text) > 1000.
Proof.
  intros Hlen Hst Hlines.
  assert (Heq : processMessage text
                = (if (List.length (split newline (trim text)) =? 1)%nat
                   then trim text ++ [newline] else trim text)).
  { rewrite (processMessage_long text Hlen). unfold intelligentTruncate.
    rewrite Hst.
    destruct (split_nonempty newline (trim text)) as (first & rest & Hs).
    rewrite (truncateStackTrace_shape _ _ _ Hs). rewrite Hs in Hlines.
    simpl in Hlines.
    rewrite firstn_all2 by lia. rewrite skipn_all2 by lia.
    cbn [moreLines]. rewrite app_nil_r.
    pose proof (join_split newline (trim text)) as Hj. rewrite Hs in Hj.
    rewrite Hs. destruct rest as [|l2 rest].
    - simpl in Hj. subst first. reflexivity.
    - change (join [newline] (first :: l2 :: rest))
        with (first ++ [newline] ++ join [newline] (l2 :: rest)) in Hj.
      exact Hj. }
  split; [exact Heq|]. rewrite Heq.
  destruct (List.length (split newline (trim text)) =? 1)%nat; [|exact Hlen].
  unfold strlen in *. rewrite length_app. simpl. lia.
Qed.

Lemma short_trace_kept_whole_witness :
  processMessage shortTrace = shortTrace
  /\ strlen (processMessage shortTrace) > 1000.
Proof.
  apply (short_trace_kept_whole shortTrace).
  - vm_compute. reflexivity.
  - vm_compute. reflexivity.
  - vm_compute. lia.
Defined.

(** ** Severity *)

Lemma eqUnits_eq a : forall b, eqUnits a b = true <-> a = b.
Proof.
  induction a as [|x a IH]; intros [|y b]; simpl; split; intros H;
    try reflexivity; try discriminate.
  - apply andb_true_iff in H. destruct H as [H1 H2].
    apply Z.eqb_eq in H1. apply IH in H2. subst. reflexivity.
  - inversion H; subst. rewrite Z.eqb_refl. apply IH. reflexivity.
Qed.

Lemma code_inj a b : code a = code b -> a = b.
Proof.
  unfold code. intros H. apply N2Z.inj in H.
  rewrite <- (ascii_N_embedding a), <- (ascii_N_embedding b), H. reflexivity.
Qed.

Lemma units_inj a : forall b, units a = units b -> a = b.
Proof.
  induction a as [|x a IH]; intros [|y b] H; simpl in H;
    try reflexivity; try discriminate.
  inversion H as [[Hx Ha]]. apply code_inj in Hx. apply IH in Ha. subst.
  reflexivity.
Qed.

(** *** Capitals of the code units of the range *)

Lemma upperUnits_lower c : upperUnits (lowerChar c) = upperUnits c.
Proof.
  assert (Hall : forall c, eqUnits (upperUnits (lowerChar c)) (upperUnits c)
                           = true).
  { apply forall_ascii. vm_compute. reflexivity. }
  apply eqUnits_eq, Hall.
Qed.

(** A capital that is again in the range is its own capital. *)
Lemma upperUnits_fixed c c' :
  In (code c') (upperUnits c) -> upperUnits c' = [code c'].
Proof.
  assert (Hall : forall c,
             forallb (fun c' => implb (existsb (Z.eqb (code c')) (upperUnits c))
                                      (eqUnits (upperUnits c') [code c']))
                     allAscii = true).
  { apply forall_ascii. vm_compute. reflexivity. }
  intros Hin. specialize (Hall c). rewrite forallb_forall in Hall.
  specialize (Hall c' (allAscii_complete c')).
  assert (He : existsb (Z.eqb (code c')) (upperUnits c) = true).
  { apply existsb_exists. exists (code c'). split; [exact Hin | apply Z.eqb_refl]. }
  rewrite He in Hall. apply eqUnits_eq. exact Hall.
Qed.

(** White space is its own capital, and the capital of anything else
    holds no white space. *)
Lemma upperUnits_white c :
  isWhiteSpace c = true ->
  upperUnits c = [code c] /\ isWhiteSpaceUnit (code c) = true.
Proof.
  assert (Hall : forall c,
             implb (isWhiteSpace c)
                   (eqUnits (upperUnits c) [code c] && isWhiteSpaceUnit (code c))
             = true).
  { apply forall_ascii. vm_compute. reflexivity. }
  intros H. specialize (Hall c). rewrite H in Hall. cbn [implb] in Hall.
  apply andb_true_iff in Hall. destruct Hall as [H1 H2].
  split; [apply eqUnits_eq; exact H1 | exact H2].
Qed.

Lemma upperUnits_inked c :
  isWhiteSpace c = false ->
  exists u r,
    upperUnits c = u :: r /\ isWhiteSpaceUnit u = false
    /\ isWhiteSpaceUnit (last (u :: r) 0) = false.
Proof.
  assert (Hall : forall c,
             implb (negb (isWhiteSpace c))
                   (match upperUnits c with
                    | u :: r => negb (isWhiteSpaceUnit u)
                                && negb (isWhiteSpaceUnit (last (u :: r) 0))
                    | [] => false
                    end) = true).
  { apply forall_ascii. vm_compute. reflexivity. }
  intros H. specialize (Hall c). rewrite H in Hall. cbn [negb implb] in Hall.
  destruct (upperUnits c) as [|u r]; [discriminate|].
  apply andb_true_iff in Hall. destruct Hall as [H1 H2].
  apply negb_true_iff in H1. apply negb_true_iff in H2.
  exists u, r. repeat split; assumption.
Qed.

(** A string whose code units are all capitals of the range is its own
    upper case. *)
Lemma toUpperCase_of_capitals (t : str) :
  (forall c', In c' t -> exists c, In (code c') (upperUnits c)) ->
  toUpperCase t = units t.
Proof.
  induction t as [|c' t IH]; intros H; [reflexivity|].
  unfold toUpperCase, units. cbn [flat_map map].
  destruct (H c' (or_introl eq_refl)) as [c Hc].
  rewrite (upperUnits_fixed c c' Hc). cbn [app]. f_equal.
  apply IH. intros d Hd. apply H. right. exact Hd.
Qed.

Lemma toUpperCase_of_upper (t s : str) :
  incl (units t) (toUpperCase s) -> toUpperCase t = units t.
Proof.
  intros Hincl. apply toUpperCase_of_capitals. intros c' Hc'.
  assert (Hin : In (code c') (toUpperCase s)).
  { apply Hincl. unfold units. apply in_map. exact Hc'. }
  unfold toUpperCase in Hin. apply in_flat_map in Hin.
  destruct Hin as (c & _ & Hc). exists c. exact Hc.
Qed.

Lemma toUpperCase_lower s : toUpperCase (toLowerCase s) = toUpperCase s.
Proof.
  unfold toUpperCase, toLowerCase.
  induction s as [|c s IH]; [reflexivity|].
  cbn [map flat_map]. rewrite upperUnits_lower, IH. reflexivity.
Qed.

(** *** Trimming commutes with upper case *)

Lemma dropWhile_flat_map (g : ascii -> ustr) (l : str) :
  (forall c, isWhiteSpace c = true ->
             exists u, g c = [u] /\ isWhiteSpaceUnit u = true) ->
  (forall c, isWhiteSpace c = false ->
             exists u r, g c = u :: r /\ isWhiteSpaceUnit u = false) ->
  dropWhile isWhiteSpaceUnit (flat_map g l)
  = flat_map g (dropWhile isWhiteSpace l).
Proof.
  intros Hw Hi. induction l as [|c l IH]; [reflexivity|].
  cbn [flat_map dropWhile]. destruct (isWhiteSpace c) eqn:Hc.
  - destruct (Hw c Hc) as (u & -> & Hu). cbn [app dropWhile]. rewrite Hu.
    exact IH.
  - destruct (Hi c Hc) as (u & r & Hg & Hu). cbn [flat_map]. rewrite Hg.
    cbn [app dropWhile]. rewrite Hu. reflexivity.
Qed.

Lemma rev_flat_map {A B} (f : A -> list B) (l : list A) :
  rev (flat_map f l) = flat_map (fun a => rev (f a)) (rev l).
Proof.
  induction l as [|a l IH]; [reflexivity|].
  cbn [flat_map rev]. rewrite rev_app_distr, IH, flat_map_app.
  cbn [flat_map]. rewrite app_nil_r. reflexivity.
Qed.

Lemma trimUnits_toUpperCase s : trimUnits (toUpperCase s) = toUpperCase (trim s).
Proof.
  unfold trimUnits, toUpperCase, trim, trimEnd, trimStart.
  rewrite (dropWhile_flat_map upperUnits s).
  - rewrite rev_flat_map.
    rewrite (dropWhile_flat_map (fun a => rev (upperUnits a))).
    + rewrite rev_flat_map. apply flat_map_ext. intros a.
      apply rev_involutive.
    + intros c Hc. destruct (upperUnits_white c Hc) as [-> Hu].
      exists (code c). split; [reflexivity | exact Hu].
    + intros c Hc. destruct (upperUnits_inked c Hc) as (u & r & Hg & _ & Hl).
      rewrite Hg.
      destruct (exists_last (l := u :: r) ltac:(discriminate)) as (r' & d & Hd).
      rewrite Hd in Hl |- *. rewrite last_last in Hl.
      rewrite rev_app_distr. cbn [rev app]. exists d, (rev r').
      split; [reflexivity | exact Hl].
  - intros c Hc. destruct (upperUnits_white c Hc) as [-> Hu].
    exists (code c). split; [reflexivity | exact Hu].
  - intros c Hc. destruct (upperUnits_inked c Hc) as (u & r & Hg & Hu & _).
    exists u, r. split; assumption.
Qed.

(** *** The table of names *)

Ltac inTable :=
  unfold levelNames; cbn [In]; repeat (first [left; reflexivity | right]).

Lemma assoc_known name level :
  In (name, level) levelNames ->
  assoc (units (lit name)) severityMap = Some (lit level)
  /\ lit level <> []
  /\ normalizeSeverity (JStr (lit level)) = inr (units (lit level)).
Proof.
  unfold levelNames. cbn [In]. intros H.
  repeat (destruct H as [H|H];
          [inversion H; subst;
           split; [vm_compute; reflexivity
                  | split; [cbv; discriminate | vm_compute; reflexivity]]|]).
  contradiction.
Qed.

Lemma assoc_some n m :
  assoc n severityMap = Some m ->
  exists name level,
    In (name, level) levelNames /\ n = units (lit name) /\ m = lit level.
Proof.
  unfold severityMap. cbn [assoc].
  repeat (match goal with
          | |- (if ?b then _ else _) = _ -> _ => destruct b eqn:Hb
          end;
          [intros H; apply eqUnits_eq in Hb;
           match type of H with
           | Some (lit ?level) = _ =>
               match type of Hb with
               | _ = units (lit ?name) => exists name, level
               end
           end;
           split; [inTable | split; [exact Hb | congruence]]
          | clear Hb]).
  discriminate.
Qed.

(** The label depends on the trimmed upper case only. *)
Lemma severity_of_spelling s s' :
  trimUnits (toUpperCase s') = trimUnits (toUpperCase s) ->
  normalizeSeverity (JStr s') = normalizeSeverity (JStr s).
Proof. intros H. unfold normalizeSeverity. rewrite H. reflexivity. Qed.

(** A string that is a label already has the same trimmed upper case
    again. *)
Lemma severity_fixed_spelling s t :
  units t = trimUnits (toUpperCase s) ->
  trimUnits (toUpperCase t) = trimUnits (toUpperCase s).
Proof.
  intros Ht. rewrite trimUnits_toUpperCase in Ht.
  assert (Hup : toUpperCase t = units t).
  { apply (toUpperCase_of_upper t (trim s)). rewrite Ht. apply incl_refl. }
  rewrite Hup, Ht, !trimUnits_toUpperCase, trim_idempotent. reflexivity.
Qed.

(** Every string has a label. *)
Lemma severity_label (s : str) :
  exists label, normalizeSeverity (JStr s) = inr label.
Proof.
  unfold normalizeSeverity.
  destruct (assoc _ severityMap) as [[|c m]|];
    destruct (trimUnits (toUpperCase s)); eexists; reflexivity.
Qed.

(** X7: the severity label of a string of the 8-bit range.  With its
    trimmed upper case taken for the spelling of the string: a spelling
    that is one of the eleven names gives the level of that name; any
    other spelling is the label itself; an empty one gives UNKNOWN.  The
    label is never empty, normalises to itself, and is the same for the
    string in lower case, in upper case, and without the white space
    around it.  A missing severity is UNKNOWN. *)
Theorem severity_canonical (s : str) :
  exists label,
    normalizeSeverity (JStr s) = inr label
    /\ (forall name level,
           In (name, level) levelNames ->
           trimUnits (toUpperCase s) = units (lit name) ->
           label = units (lit level))
    /\ ((forall name level,
            In (name, level) levelNames ->
            trimUnits (toUpperCase s) <> units (lit name)) ->
        trimUnits (toUpperCase s) <> [] ->
        label = trimUnits (toUpperCase s))
    /\ (trimUnits (toUpperCase s) = [] -> label = units (lit "UNKNOWN"))
    /\ label <> []
    /\ (forall t, units t = label -> normalizeSeverity (JStr t) = inr label)
    /\ normalizeSeverity (JStr (toLowerCase s)) = inr label
    /\ (forall t, units t = toUpperCase s ->
                  normalizeSeverity (JStr t) = inr label)
    /\ normalizeSeverity (JStr (trim s)) = inr label
    /\ normalizeSeverity JUndefined = inr (units (lit "UNKNOWN"))
    /\ normalizeSeverity JNull = inr (units (lit "UNKNOWN")).
Proof.
  assert (Hcase :
            forall label,
              normalizeSeverity (JStr s) = inr label ->
              (normalizeSeverity (JStr (toLowerCase s)) = inr label
               /\ (forall t, units t = toUpperCase s ->
                             normalizeSeverity (JStr t) = inr label)
               /\ normalizeSeverity (JStr (trim s)) = inr label)).
  { intros label Hs. conjuncts.
    - rewrite <- Hs. apply severity_of_spelling.
      rewrite toUpperCase_lower. reflexivity.
    - intros t Ht. rewrite <- Hs. apply severity_of_spelling.
      rewrite (toUpperCase_of_upper t s), Ht; [reflexivity|].
      rewrite Ht. apply incl_refl.
    - rewrite <- Hs. apply severity_of_spelling.
      rewrite !trimUnits_toUpperCase, trim_idempotent. reflexivity. }
  assert (Hnone : forall name level,
             In (name, level) levelNames ->
             assoc (trimUnits (toUpperCase s)) severityMap = None ->
             trimUnits (toUpperCase s) <> units (lit name)).
  { intros name level Hin Ha Heq. rewrite Heq in Ha.
    rewrite (proj1 (assoc_known name level Hin)) in Ha. discriminate. }
  destruct (assoc (trimUnits (toUpperCase s)) severityMap) as [m|] eqn:Ha.
  - destruct (assoc_some _ _ Ha) as (name & level & Hin & Hn & ->).
    destruct (assoc_known name level Hin) as (_ & Hne & Hfix).
    assert (Hs : normalizeSeverity (JStr s) = inr (units (lit level))).
    { unfold normalizeSeverity. rewrite Ha.
      destruct (lit level); [congruence | reflexivity]. }
    exists (units (lit level)). split; [exact Hs|].
    destruct (Hcase _ Hs) as (Hlow & Hup & Htrim).
    conjuncts; try assumption; try reflexivity.
    + intros name' level' Hin' Heq. rewrite Heq in Ha.
      rewrite (proj1 (assoc_known name' level' Hin')) in Ha.
      injection Ha as <-. reflexivity.
    + intros Hnot _. exfalso. exact (Hnot name level Hin Hn).
    + intros Hempty. rewrite Hempty in Ha. discriminate Ha.
    + destruct (lit level); [congruence | discriminate].
    + intros t Ht. apply units_inj in Ht. subst t. exact Hfix.
  - destruct (trimUnits (toUpperCase s)) as [|x r] eqn:Hn.
    + assert (Hs : normalizeSeverity (JStr s) = inr (units (lit "UNKNOWN"))).
      { unfold normalizeSeverity. rewrite Hn, Ha. reflexivity. }
      exists (units (lit "UNKNOWN")). split; [exact Hs|].
      destruct (Hcase _ Hs) as (Hlow & Hup & Htrim).
      conjuncts; try assumption; try reflexivity.
      * intros name level Hin Heq. exfalso.
        exact (Hnone name level Hin eq_refl Heq).
      * intros _ Hne. congruence.
      * discriminate.
      * intros t Ht. apply units_inj in Ht. subst t. reflexivity.
    + assert (Hs : normalizeSeverity (JStr s) = inr (x :: r)).
      { unfold normalizeSeverity. rewrite Hn, Ha. reflexivity. }
      exists (x :: r). split; [exact Hs|].
      destruct (Hcase _ Hs) as (Hlow & Hup & Htrim).
      conjuncts; try assumption; try reflexivity.
      * intros name level Hin Heq. exfalso.
        exact (Hnone name level Hin eq_refl Heq).
      * discriminate.
      * discriminate.
      * intros t Ht. transitivity (normalizeSeverity (JStr s)); [|exact Hs].
        apply severity_of_spelling, severity_fixed_spelling.
        rewrite Hn. exact Ht.
Qed.

(** The word warning in mixed case between spaces, and a word outside
    the table. *)
Lemma severity_canonical_witness :
  normalizeSeverity (JStr (lit " Warning ")) = inr (units (lit "WARN"))
  /\ normalizeSeverity (JStr (lit "notice")) = inr (units (lit "NOTICE")).
Proof.
  split.
  - destruct (severity_canonical (lit " Warning "))
      as (label & Hs & Htable & _).
    rewrite Hs. f_equal. apply (Htable "WARNING"%string "WARN"%string).
    + inTable.
    + vm_compute. reflexivity.
  - destruct (severity_canonical (lit "notice"))
      as (label & Hs & _ & Hother & _).
    rewrite Hs. f_equal. rewrite Hother.
    + vm_compute. reflexivity.
    + intros name level Hin. unfold levelNames in Hin. cbn [In] in Hin.
      repeat (destruct Hin as [Hin|Hin];
              [inversion Hin; subst; vm_compute; discriminate|]).
      contradiction.
    + vm_compute. discriminate.
Defined.

(** Capitals that are longer than the letter or lie above the range:
    the sharp s, the micro sign and y with diaeresis. *)
Example severity_examples :
  normalizeSeverity (JStr (lit " warning ")) = inr (units (lit "WARN"))
  /\ normalizeSeverity (JStr (lit "Err")) = inr (units (lit "ERROR"))
  /\ normalizeSeverity (JStr (lit "critical")) = inr (units (lit "FATAL"))
  /\ normalizeSeverity (JStr (lit "   ")) = inr (units (lit "UNKNOWN"))
  /\ normalizeSeverity (JStr (lit "stra" ++ [chr 223] ++ lit "e"))
     = inr (units (lit "STRASSE"))
  /\ normalizeSeverity (JStr [chr 181; chr 255]) = inr [924; 376].
Proof. conjuncts; vm_compute; reflexivity. Qed.

(** ** Additional fields *)

Lemma existsb_eqs_In (k : str) (l : list str) :
  existsb (eqs k) l = true <-> In k l.
Proof.
  rewrite existsb_exists. split.
  - intros (x & Hin & He). apply eqs_eq in He. subst. exact Hin.
  - intros Hin. exists k. split; [exact Hin | apply eqs_eq; reflexivity].
Qed.

(** X8: there is no map of additional fields, rather than an empty one,
    exactly when every entry of the record has a standard key or a value
    that is null or undefined.  Otherwise every field of the map comes
    from an entry of the record whose key is not one of the ten standard
    fields and whose value is neither null nor undefined: a text value
    longer than 300 characters cut to its first 300 characters followed
    by three dots, every other value as it is.  (An entry named
    __proto__ is left aside: assigning it sets the prototype of the map
    and adds no field.) *)
Theorem additional_fields_spec (log : jsval) :
  hasProtoKey log = false ->
  (extractAdditionalFields log = None
   <-> forall k v, In (k, v) (entries log) ->
                   In k standardFields \/ isNullish v = true)
  /\ (forall fs,
         extractAdditionalFields log = Some fs ->
         fs <> []
         /\ forall k v,
             In (k, v) fs ->
             ~ In k standardFields
             /\ isNullish v = false
             /\ (forall s, v = JStr s -> strlen s <= 303)
             /\ exists v0,
                 In (k, v0) (entries log)
                 /\ (match v0 with
                     | JStr s0 =>
                         if strlen s0 >? 300
                         then v = JStr (firstn 300 s0 ++ lit "...")
                         else v = v0
                     | _ => v = v0
                     end)).
Proof.
  intros _. unfold extractAdditionalFields.
  set (keep := fun kv : str * jsval =>
                 negb (existsb (eqs (fst kv)) standardFields)
                 && negb (isNullish (snd kv))).
  set (shorten := fun kv : str * jsval =>
                    match snd kv with
                    | JStr value =>
                        if strlen value >? MCP_LIMITS.MAX_ERROR_CONTEXT
                        then (fst kv,
                              JStr (substring value 0 MCP_LIMITS.MAX_ERROR_CONTEXT
                                      ++ lit "..."))
                        else kv
                    | _ => kv
                    end).
  assert (Hkeep : forall k v, keep (k, v) = true
                              <-> ~ In k standardFields /\ isNullish v = false).
  { intros k v. unfold keep. cbn [fst snd]. rewrite andb_true_iff, !negb_true_iff.
    rewrite <- (existsb_eqs_In k standardFields).
    destruct (existsb (eqs k) standardFields); intuition congruence. }
  split.
  - split.
    + intros Hnone k v Hin.
      destruct (map shorten (filter keep (entries log))) as [|x xs] eqn:Hm;
        [|discriminate].
      apply map_eq_nil in Hm.
      destruct (keep (k, v)) eqn:Hk.
      * assert (Hf : In (k, v) (filter keep (entries log)))
          by (apply filter_In; split; assumption).
        rewrite Hm in Hf. contradiction.
      * destruct (in_dec (list_eq_dec ascii_dec) k standardFields) as [Hs|Hs];
          [left; exact Hs|].
        right. destruct (isNullish v) eqn:Hn; [reflexivity|].
        assert (keep (k, v) = true) by (apply Hkeep; split; assumption).
        congruence.
    + intros Hall.
      assert (Hf : filter keep (entries log) = []).
      { destruct (filter keep (entries log)) as [|[k v] r] eqn:Hf; [reflexivity|].
        assert (Hin : In (k, v) (filter keep (entries log)))
          by (rewrite Hf; left; reflexivity).
        apply filter_In in Hin. destruct Hin as [Hin Hk].
        apply Hkeep in Hk. destruct Hk as [Hs Hn].
        destruct (Hall k v Hin); [contradiction | congruence]. }
      rewrite Hf. reflexivity.
  - intros fs Hfs.
    destruct (map shorten (filter keep (entries log))) as [|x xs] eqn:Hm;
      [discriminate|].
    inversion Hfs; subst fs. split; [discriminate|].
    intros k v Hin. rewrite <- Hm in Hin. apply in_map_iff in Hin.
    destruct Hin as ([k0 v0] & Hsh & Hin0). apply filter_In in Hin0.
    destruct Hin0 as [Hin0 Hk]. apply Hkeep in Hk. destruct Hk as [Hs Hn].
    unfold shorten in Hsh. cbn [fst snd] in Hsh.
    unfold MCP_LIMITS.MAX_ERROR_CONTEXT in Hsh.
    destruct v0 as [| |b|z|s0|l|fields];
      try discriminate Hn;
      try (inversion Hsh; subst; conjuncts;
           [exact Hs | exact Hn | intros s; discriminate
            | eexists; split; [exact Hin0 | reflexivity]]).
    destruct (strlen s0 >? 300) eqn:Hlong.
    + inversion Hsh; subst k v. rewrite Z.gtb_ltb in Hlong. apply Z.ltb_lt in Hlong.
      rewrite substring_prefix by lia. change (Z.to_nat 300) with 300%nat.
      conjuncts; [exact Hs | reflexivity | |].
      * intros s Heq.
        apply (f_equal (fun x => match x with JStr y => strlen y | _ => 0 end)) in Heq.
        cbv beta iota in Heq. rewrite <- Heq. unfold strlen in *.
        rewrite length_app, length_firstn. cbn [List.length]. lia.
      * exists (JStr s0). split; [exact Hin0|].
        replace (strlen s0 >? 300) with true
          by (symmetry; rewrite Z.gtb_ltb; apply Z.ltb_lt; exact Hlong).
        reflexivity.
    + inversion Hsh; subst k v. rewrite Z.gtb_ltb in Hlong. apply Z.ltb_ge in Hlong.
      conjuncts; [exact Hs | exact Hn | |].
      * intros s Heq. injection Heq as <-. lia.
      * exists (JStr s0). split; [exact Hin0|].
        replace (strlen s0 >? 300) with false
          by (symmetry; rewrite Z.gtb_ltb; apply Z.ltb_ge; exact Hlong).
        reflexivity.
Qed.

Lemma additional_fields_witness :
  extractAdditionalFields (rawLog "info" "started") = None
  /\ forall fs,
       extractAdditionalFields richLog = Some fs -> fs <> [].
Proof.
  split.
  - apply (proj1 (additional_fields_spec (rawLog "info" "started") eq_refl)).
    intros k v Hin. left. simpl in Hin.
    destruct Hin as [H|[H|[H|[]]]]; inversion H; subst; simpl; tauto.
  - intros fs H.
    apply (proj2 (additional_fields_spec richLog eq_refl) fs H).
Defined.

Example additional_fields_example :
  extractAdditionalFields richLog
  = Some [ (lit "traceId", JStr (lit "abc-123"));
           (lit "payload", JStr (repeat "z"%char 300 ++ lit "...")) ].
Proof. vm_compute. reflexivity. Qed.

(** ** Normalising a page of records *)

Lemma mapM_length {A B} (f : A -> exn + B) (l : list A) : forall ys,
  mapM f l = inr ys -> List.length ys = List.length l.
Proof.
  induction l as [|x l IH]; intros ys; simpl.
  - intros H. inversion H. reflexivity.
  - destruct (f x) as [e|y]; simpl; [discriminate|].
    destruct (mapM f l) as [e|ys']; simpl; [discriminate|].
    intros H. inversion H. simpl. rewrite (IH ys' eq_refl). reflexivity.
Qed.

Lemma mapM_Forall2 {A B} (f : A -> exn + B) (l : list A) : forall ys,
  mapM f l = inr ys -> Forall2 (fun x y => f x = inr y) l ys.
Proof.
  induction l as [|x l IH]; intros ys; simpl.
  - intros H. inversion H. constructor.
  - destruct (f x) as [e|y] eqn:Hx; simpl; [discriminate|].
    destruct (mapM f l) as [e|ys']; simpl; [discriminate|].
    intros H. inversion H. constructor; [exact Hx | apply IH; reflexivity].
Qed.

Lemma mapM_total {A B} (f : A -> exn + B) (l : list A) :
  Forall (fun x => exists y, f x = inr y) l ->
  exists ys, mapM f l = inr ys.
Proof.
  induction 1 as [|x l [y Hy] _ [ys Hys]]; simpl.
  - eexists. reflexivity.
  - rewrite Hy. simpl. rewrite Hys. simpl. eexists. reflexivity.
Qed.

(** A well-typed record is always normalised. *)
Lemma processLogEntry_total log :
  wellTypedLog log -> exists entry, processLogEntry log = inr entry.
Proof.
  intros (fields & -> & Hsev & Htext). unfold processLogEntry.
  cbn [getProp ResponseProcessor.bind].
  destruct (lookup (lit "severity") fields) as [| |b|z|sev|l|o];
    try contradiction.
  - cbn [normalizeSeverity ResponseProcessor.bind].
    destruct (lookup (lit "text") fields) as [| |b|z|text|l|o];
      cbn [truthy] in Htext; unfold processMessageOf; cbn [truthy negb];
      try rewrite Htext; cbn [negb ResponseProcessor.bind];
      try (eexists; reflexivity); try discriminate.
    destruct text; cbn [negb ResponseProcessor.bind]; eexists; reflexivity.
  - cbn [normalizeSeverity ResponseProcessor.bind].
    destruct (lookup (lit "text") fields) as [| |b|z|text|l|o];
      cbn [truthy] in Htext; unfold processMessageOf; cbn [truthy negb];
      try rewrite Htext; cbn [negb ResponseProcessor.bind];
      try (eexists; reflexivity); try discriminate.
    destruct text; cbn [negb ResponseProcessor.bind]; eexists; reflexivity.
  - destruct (severity_label sev) as [label Hlabel].
    rewrite Hlabel. cbn [ResponseProcessor.bind].
    destruct (lookup (lit "text") fields) as [| |b|z|text|l|o];
      cbn [truthy] in Htext; unfold processMessageOf; cbn [truthy negb];
      try rewrite Htext; cbn [negb ResponseProcessor.bind];
      try (eexists; reflexivity); try discriminate.
    destruct text; cbn [negb ResponseProcessor.bind]; eexists; reflexivity.
Qed.

(** What an entry holds of the record it was made from. *)
Lemma processLogEntry_fields fields entry :
  processLogEntry (JObj fields) = inr entry ->
  normalizeSeverity (lookup (lit "severity") fields) = inr (severity entry)
  /\ processMessageOf (lookup (lit "text") fields) = inr (message entry)
  /\ timestamp entry = lookup (lit "timestamp") fields
  /\ application entry = lookup (lit "applicationName") fields
  /\ subsystem entry = lookup (lit "subsystemName") fields
  /\ host entry = lookup (lit "computerName") fields.
Proof.
  unfold processLogEntry. cbn [getProp ResponseProcessor.bind].
  destruct (normalizeSeverity (lookup (lit "severity") fields)) as [e|sev];
    cbn [ResponseProcessor.bind]; [discriminate|].
  destruct (processMessageOf (lookup (lit "text") fields)) as [e|msg];
    cbn [ResponseProcessor.bind]; [discriminate|].
  intros H. injection H as <-. conjuncts; reflexivity.
Qed.

(** X9: given well-typed records and a context whose two dates are
    valid, the normaliser returns a result with one entry per record, in
    order, each with the severity label, the processed message and the
    timestamp of its record; the count shown is the number of records; the total is the
    one reported by the server when that is truthy and the number of
    records otherwise.  With an invalid date in the context it throws
    the range error of the date rendering instead. *)
Theorem processLogs_on_well_typed Date_format logs ctx page total :
  Forall wellTypedLog logs ->
  (forall a b,
      Context.timeRange ctx = Context.Range (Some a) (Some b) ->
      exists out,
        processLogs Date_format logs ctx page total = inr out
        /\ Forall2 (fun log entry =>
                      normalizeSeverity (getPropOpt log "severity")
                      = inr (severity entry)
                      /\ processMessageOf (getPropOpt log "text")
                         = inr (message entry)
                      /\ timestamp entry = getPropOpt log "timestamp")
                   logs (ResponseProcessor.logs out)
        /\ resultsShown (summary out) = Z.of_nat (List.length logs)
        /\ totalResults (summary out)
           = (if truthy total then total
              else JNum (Z.of_nat (List.length logs)))
        /\ timeRangeStart (summary out) = Date_format a
        /\ timeRangeEnd (summary out) = Date_format b
        /\ ResponseProcessor.page (summary out) = page)
  /\ (Context.start (Context.timeRange ctx) = None
      \/ Context.end_ (Context.timeRange ctx) = None ->
      processLogs Date_format logs ctx page total
      = inl (Throw RangeError (lit "Invalid time value"))).
Proof.
  intros Hlogs.
  destruct (mapM_total processLogEntry logs) as [entries Hentries].
  { apply Forall_forall. intros log Hin. apply processLogEntry_total.
    rewrite Forall_forall in Hlogs. apply Hlogs. exact Hin. }
  split.
  - intros a b Hrange. unfold processLogs. rewrite Hentries, Hrange.
    cbn [ResponseProcessor.bind Context.start Context.end_ toISOString].
    eexists. split; [reflexivity|].
    cbn [ResponseProcessor.logs summary resultsShown totalResults
         timeRangeStart timeRangeEnd ResponseProcessor.page].
    split.
    { apply mapM_Forall2 in Hentries. clear Hrange.
      induction Hentries as [|log entry logs' entries' He _ IH];
        constructor.
      - inversion Hlogs as [|? ? (fields & -> & _) _]; subst.
        destruct (processLogEntry_fields fields entry He) as (H1 & H2 & H3 & _).
        conjuncts; assumption.
      - apply IH. inversion Hlogs; assumption. }
    split; [rewrite (mapM_length _ _ _ Hentries); reflexivity|].
    conjuncts; reflexivity.
  - intros Hbad. unfold processLogs. rewrite Hentries.
    cbn [ResponseProcessor.bind].
    destruct (Context.start (Context.timeRange ctx)) as [a|]; [|reflexivity].
    destruct Hbad as [H|H]; [discriminate|]. rewrite H. reflexivity.
Qed.

Lemma processLogs_on_well_typed_witness :
  exists out,
    processLogs Reference.Date_format
      [rawLog "warning" "disk almost full"; richLog]
      (contextWithLimit 20) 1 JUndefined = inr out
    /\ resultsShown (summary out) = 2
    /\ totalResults (summary out) = JNum 2.
Proof.
  assert (Hlogs : Forall wellTypedLog [rawLog "warning" "disk almost full"; richLog]).
  { constructor; [|constructor; [|constructor]].
    - eexists. split; [reflexivity|]. split; exact I.
    - eexists. split; [reflexivity|]. split; exact I. }
  destruct (proj1 (processLogs_on_well_typed Reference.Date_format
                     [rawLog "warning" "disk almost full"; richLog]
                     (contextWithLimit 20) 1 JUndefined Hlogs)
              (now0 - 3600000) now0 eq_refl)
    as (out & Hout & _ & Hshown & Htotal & _).
  exists out. split; [exact Hout|]. split; [exact Hshown | exact Htotal].
Defined.

(** ** Reading the body of a response *)

Lemma findByProp_first (k : string) pre obj post r :
  Forall (lacks k) pre ->
  getProp obj k = inr r -> truthy r = true ->
  findByProp k (pre ++ obj :: post) = inr obj.
Proof.
  intros Hpre Hobj Hr. induction Hpre as [|v pre (x & Hx & Hfalse) _ IH]; simpl.
  - rewrite Hobj. simpl. rewrite Hr. reflexivity.
  - rewrite Hx. simpl. rewrite Hfalse. exact IH.
Qed.

Lemma findByProp_lacking (k : string) vs :
  Forall (lacks k) vs -> findByProp k vs = inr JUndefined.
Proof.
  induction 1 as [|v vs (x & Hx & Hfalse) _ IH]; simpl; [reflexivity|].
  rewrite Hx. simpl. rewrite Hfalse. exact IH.
Qed.

(** Only an object can hold a truthy [result] or [logs]. *)
Lemma holder_is_truthy (k : string) obj r :
  eqs (lit k) (lit "length") = false ->
  getProp obj k = inr r -> truthy r = true -> truthy obj = true.
Proof.
  intros Hk Hobj Hr.
  destruct obj; cbn [getProp] in Hobj; try rewrite Hk in Hobj;
    try reflexivity; try discriminate Hobj;
    injection Hobj as <-; discriminate Hr.
Qed.

Lemma queryLogs_parsed JSON_parse server request w response w' :
  makeRequestWithRetry server 0 w = (inr response, w') ->
  ok response = true ->
  queryLogs JSON_parse server request w
  = (match parseNdjson JSON_parse (text response) with
     | inr parsed => inr parsed
     | inl cause => inl (parseFailure response cause)
     end, w').
Proof.
  intros Hr Hok. unfold queryLogs, tryCatch, bindM. rewrite Hr, Hok. cbn [negb].
  destruct (parseNdjson JSON_parse (text response)); reflexivity.
Qed.

(** X10: in the streaming shape the result object is the first parsed
    line with a truthy [result], even when an earlier line has [logs].
    The response then carries the array under [result.results] as its
    logs and the length of that array as its total, or an empty log list
    and total 0 when [results] is missing; [hasMore] is false and the
    query id is the one of the first line, if any. *)
Theorem result_object_response
  JSON_parse server request w response w' pre obj post r :
  makeRequestWithRetry server 0 w = (inr response, w') ->
  ok response = true ->
  mapM JSON_parse (ndjsonLines (text response)) = inr (pre ++ obj :: post) ->
  Forall (lacks "result") pre ->
  getProp obj "result" = inr r -> truthy r = true ->
  (forall records,
      getProp r "results" = inr (JArr records) ->
      queryLogs JSON_parse server request w
      = (inr (JObj [ (lit "logs", JArr records);
                     (lit "total", JNum (Z.of_nat (List.length records)));
                     (lit "hasMore", JBool false);
                     (lit "queryId", queryIdOf (pre ++ obj :: post)) ]),
         w'))
  /\ (forall x,
         getProp r "results" = inr x -> truthy x = false ->
         queryLogs JSON_parse server request w
         = (inr (JObj [ (lit "logs", JArr []);
                        (lit "total", JNum 0);
                        (lit "hasMore", JBool false);
                        (lit "queryId", queryIdOf (pre ++ obj :: post)) ]),
            w')).
Proof.
  intros Hreq Hok Hparse Hpre Hobj Hr.
  pose proof (holder_is_truthy "result" obj r eq_refl Hobj Hr) as Hholder.
  assert (Hhead : forall results,
             getProp r "results" = inr results ->
             parseNdjson JSON_parse (text response)
             = (total <- getProp (orElse results (JArr [])) "length" ;;
                inr (JObj [ (lit "logs", orElse results (JArr []));
                            (lit "total", total);
                            (lit "hasMore", JBool false);
                            (lit "queryId", queryIdOf (pre ++ obj :: post)) ]))).
  { intros results Hres. unfold parseNdjson. rewrite Hparse.
    cbn [ResponseProcessor.bind].
    rewrite (findByProp_first "result" pre obj post r Hpre Hobj Hr).
    cbn [ResponseProcessor.bind]. rewrite Hholder. cbn [ResponseProcessor.bind].
    rewrite Hholder, Hobj. cbn [ResponseProcessor.bind]. rewrite Hr, Hres.
    reflexivity. }
  split.
  - intros records Hres.
    rewrite (queryLogs_parsed JSON_parse server request w response w' Hreq Hok).
    rewrite (Hhead _ Hres). reflexivity.
  - intros x Hres Hfalse.
    rewrite (queryLogs_parsed JSON_parse server request w response w' Hreq Hok).
    rewrite (Hhead _ Hres). unfold orElse. rewrite Hfalse. reflexivity.
Qed.

Lemma result_object_witness :
  queryLogs Reference.JSON_parse (fun _ => Resolves responseThreeRecords)
    wildcardRequest initial
  = (inr (JObj [ (lit "logs", JArr threeRecords);
                 (lit "total", JNum 3);
                 (lit "hasMore", JBool false);
                 (lit "queryId", JStr (lit "q-17")) ]),
     World 1 []).
Proof.
  apply (proj1 (result_object_response Reference.JSON_parse
                  (fun _ => Resolves responseThreeRecords) wildcardRequest
                  initial responseThreeRecords (World 1 [])
                  [JObj [(lit "queryId", JObj [(lit "queryId", JStr (lit "q-17"))])]]
                  (JObj [(lit "result", JObj [(lit "results", JArr threeRecords)])])
                  [] (JObj [(lit "results", JArr threeRecords)])
                  ltac:(vm_compute; reflexivity) eq_refl
                  ltac:(vm_compute; reflexivity)
                  ltac:(constructor; [exists JUndefined; split; reflexivity | constructor])
                  eq_refl eq_refl)
           threeRecords eq_refl).
Defined.

(** X11: in the single-object shape, when no parsed line has a truthy
    [result], the first line with a truthy [logs] is returned as it
    stands, with whatever [total] it carries. *)
Theorem logs_object_response
  JSON_parse server request w response w' pre obj post l :
  makeRequestWithRetry server 0 w = (inr response, w') ->
  ok response = true ->
  mapM JSON_parse (ndjsonLines (text response)) = inr (pre ++ obj :: post) ->
  Forall (lacks "result") (pre ++ obj :: post) ->
  Forall (lacks "logs") pre ->
  getProp obj "logs" = inr l -> truthy l = true ->
  queryLogs JSON_parse server request w = (inr obj, w').
Proof.
  intros Hreq Hok Hparse Hres Hpre Hobj Hl.
  pose proof (holder_is_truthy "logs" obj l eq_refl Hobj Hl) as Hholder.
  assert (Hobjres : lacks "result" obj).
  { rewrite Forall_forall in Hres. apply Hres. apply in_or_app. right. left.
    reflexivity. }
  destruct Hobjres as (x & Hx & Hfalse).
  rewrite (queryLogs_parsed JSON_parse server request w response w' Hreq Hok).
  unfold parseNdjson. rewrite Hparse. cbn [ResponseProcessor.bind].
  rewrite (findByProp_lacking "result" _ Hres). cbn [ResponseProcessor.bind truthy].
  rewrite (findByProp_first "logs" pre obj post l Hpre Hobj Hl).
  cbn [ResponseProcessor.bind]. rewrite Hholder, Hx.
  cbn [ResponseProcessor.bind]. rewrite Hfalse, Hobj.
  cbn [ResponseProcessor.bind]. rewrite Hl. reflexivity.
Qed.

Lemma logs_object_witness :
  queryLogs Reference.JSON_parse (fun _ => Resolves responseLogsObject)
    wildcardRequest initial
  = (inr (JObj [ (lit "logs", JArr [JObj [(lit "text", JStr (lit "a"))]]);
                 (lit "total", JNum 9) ]),
     World 1 []).
Proof.
  apply (logs_object_response Reference.JSON_parse
           (fun _ => Resolves responseLogsObject) wildcardRequest
           initial responseLogsObject (World 1 []) []
           (JObj [ (lit "logs", JArr [JObj [(lit "text", JStr (lit "a"))]]);
                   (lit "total", JNum 9) ])
           [] (JArr [JObj [(lit "text", JStr (lit "a"))]])).
  - vm_compute. reflexivity.
  - reflexivity.
  - vm_compute. reflexivity.
  - constructor; [exists JUndefined; split; reflexivity | constructor].
  - constructor.
  - reflexivity.
  - reflexivity.
Defined.

Lemma mapM_stops {A B} (f : A -> exn + B) good bad rest e :
  Forall (fun x => exists y, f x = inr y) good ->
  f bad = inl e ->
  mapM f (good ++ bad :: rest) = inl e.
Proof.
  intros Hgood Hbad. induction Hgood as [|x good [y Hy] _ IH]; simpl.
  - rewrite Hbad. reflexivity.
  - rewrite Hy. simpl. rewrite IH. reflexivity.
Qed.

(** X12: when a non-blank line of a successful answer is not JSON,
    [queryLogs] fails, whatever the other lines hold, with one error
    that names the content type of the response, the number of lines of
    the trimmed body and the message of the first parse failure. *)
Theorem malformed_line_fails
  JSON_parse server request w response w' good bad rest cause :
  makeRequestWithRetry server 0 w = (inr response, w') ->
  ok response = true ->
  ndjsonLines (text response) = good ++ bad :: rest ->
  Forall (fun line => exists v, JSON_parse line = inr v) good ->
  JSON_parse bad = inl cause ->
  queryLogs JSON_parse server request w
  = (inl (parseFailure response cause), w').
Proof.
  intros Hreq Hok Hlines Hgood Hbad.
  rewrite (queryLogs_parsed JSON_parse server request w response w' Hreq Hok).
  unfold parseNdjson. rewrite Hlines.
  rewrite (mapM_stops JSON_parse good bad rest cause Hgood Hbad). reflexivity.
Qed.

Lemma malformed_line_witness :
  queryLogs Reference.JSON_parse (fun _ => Resolves responseBrokenLine)
    wildcardRequest initial
  = (inl (Throw Error
            (lit "Failed to query Coralogix: Failed to parse Coralogix NDJSON response. Content-Type: text/html, Lines: 2, Error: Unexpected token in JSON")),
     World 1 []).
Proof.
  apply (malformed_line_fails Reference.JSON_parse
           (fun _ => Resolves responseBrokenLine) wildcardRequest initial
           responseBrokenLine (World 1 [])
           [sq "{'queryId':{'queryId':'q-17'}}"] (lit "<html>") []
           (Throw SyntaxError (lit "Unexpected token in JSON"))).
  - vm_compute. reflexivity.
  - reflexivity.
  - vm_compute. reflexivity.
  - constructor; [|constructor]. eexists. vm_compute. reflexivity.
  - vm_compute. reflexivity.
Defined.

(** ** Cost of a request *)

Lemma retry_settles_from server w :
  exists k : nat,
    (k <= 3)%nat
    /\ makeRequestWithRetry server 0 w
       = (settled (server (fetched w + k)%nat),
          World (S (fetched w + k)) (slept w ++ backoffFrom 0 k)).
Proof.
  assert (Hrun : forall k : nat,
             (k <= 3)%nat ->
             (forall j, (j < k)%nat -> transient (server (fetched w + j)%nat) = true) ->
             (transient (server (fetched w + k)%nat) = false \/ k = 3%nat) ->
             makeRequestWithRetry server 0 w
             = (settled (server (fetched w + k)%nat),
                World (S (fetched w + k)) (slept w ++ backoffFrom 0 k))).
  { intros k Hk Htr Hstop. apply (retry_run server k 0 w).
    - lia.
    - exact Htr.
    - unfold MCP_LIMITS.MAX_RETRIES. lia.
    - destruct Hstop as [H|H];
        [left; exact H | right; unfold MCP_LIMITS.MAX_RETRIES; lia]. }
  destruct (transient (server (fetched w + 0)%nat)) eqn:H0.
  2:{ exists 0%nat. split; [lia|].
      apply Hrun; [lia | intros j Hj; lia | left; exact H0]. }
  destruct (transient (server (fetched w + 1)%nat)) eqn:H1.
  2:{ exists 1%nat. split; [lia|]. apply Hrun; [lia | | left; exact H1].
      intros j Hj. destruct j as [|j]; [exact H0 | lia]. }
  destruct (transient (server (fetched w + 2)%nat)) eqn:H2.
  2:{ exists 2%nat. split; [lia|]. apply Hrun; [lia | | left; exact H2].
      intros j Hj. destruct j as [|[|j]]; [exact H0 | exact H1 | lia]. }
  exists 3%nat. split; [lia|]. apply Hrun; [lia | | right; reflexivity].
  intros j Hj. destruct j as [|[|[|j]]]; [exact H0 | exact H1 | exact H2 | lia].
Qed.

(** X13: whatever the remote side does and wherever the count of calls
    stands, one request costs at least one and at most four calls of
    [fetch], sleeps the first k of the delays 1000, 2000 and 4000 ms for
    some k up to 3 (7 s at most), and hands back the outcome of its last
    call. *)
Theorem retry_budget server w :
  exists (k : nat) (delays : list Z),
    (k <= 3)%nat
    /\ delays = firstn k [1000; 2000; 4000]
    /\ sumZ delays <= 7000
    /\ makeRequestWithRetry server 0 w
       = (settled (server (fetched w + k)%nat),
          World (fetched w + k + 1) (slept w ++ delays)).
Proof.
  destruct (retry_settles_from server w) as (k & Hk & Hrun).
  exists k, (firstn k [1000; 2000; 4000]).
  split; [exact Hk|]. split; [reflexivity|].
  assert (Hb : backoffFrom 0 k = firstn k [1000; 2000; 4000]).
  { destruct k as [|[|[|[|k]]]]; try reflexivity. lia. }
  split.
  - destruct k as [|[|[|[|k]]]]; simpl; lia.
  - rewrite Hrun, Hb. replace (fetched w + k + 1)%nat with (S (fetched w + k)) by lia.
    reflexivity.
Qed.

Lemma queryLogs_world JSON_parse server request w :
  snd (queryLogs JSON_parse server request w)
  = snd (makeRequestWithRetry server 0 w).
Proof.
  unfold queryLogs, tryCatch, bindM, raise, ret.
  destruct (makeRequestWithRetry server 0 w) as [[e|response] w1];
    [reflexivity|].
  destruct (negb (ok response)); [reflexivity|].
  destruct (parseNdjson JSON_parse (text response)); reflexivity.
Qed.

(** X14: the connectivity probe never raises.  It answers true exactly
    when its query (the wildcard, one row, no archive) succeeds and
    false for every failure, after at least one and at most four calls
    of [fetch]. *)
Theorem probe_never_raises JSON_parse server startIso endIso w :
  exists (b : bool) (w' : world),
    testConnection JSON_parse server startIso endIso w = (inr b, w')
    /\ (fetched w < fetched w' <= fetched w + 4)%nat
    /\ (b = true
        <-> exists v,
            queryLogs JSON_parse server (probeRequest startIso endIso) w
            = (inr v, w'))
    /\ (b = false
        <-> exists e,
            queryLogs JSON_parse server (probeRequest startIso endIso) w
            = (inl e, w')).
Proof.
  destruct (retry_settles_from server w) as (k & Hk & Hrun).
  pose proof (queryLogs_world JSON_parse server (probeRequest startIso endIso) w)
    as Hw.
  rewrite Hrun in Hw. cbn [snd] in Hw.
  unfold testConnection. fold (probeRequest startIso endIso).
  unfold tryCatch, bindM, ret.
  destruct (queryLogs JSON_parse server (probeRequest startIso endIso) w)
    as [[e|v] w1] eqn:Hq; cbn [snd] in Hw; subst w1.
  - exists false. eexists. split; [reflexivity|]. cbn [fetched].
    split; [lia|]. split.
    + split; [discriminate|]. intros (v & Hv). discriminate Hv.
    + split; [|reflexivity]. intros _. exists e. reflexivity.
  - exists true. eexists. split; [reflexivity|]. cbn [fetched].
    split; [lia|]. split.
    + split; [|reflexivity]. intros _. exists v. reflexivity.
    + split; [discriminate|]. intros (e & He). discriminate He.
Qed.

(** ** The tool: rejections, failures and pages *)




(** X16: a range wider than 24 hours, and a page above 100, end the call
    before any request is made: the world is unchanged and the error is
    the validation message behind the prefix of a query failure. *)
Theorem validation_failures_make_no_call
  Date_parse Date_format JSON_parse now now' input server w s e :
  resolveTimeRange Date_parse now input = (s, e) ->
  (exceeds24h s e ->
   executeQueryLogs Date_parse Date_format JSON_parse now now' input server w
   = (inl (queryFailure RangeTooWide), w))
  /\ (~ exceeds24h s e ->
      forall p, Input.page input = Some p -> 100 < p ->
      executeQueryLogs Date_parse Date_format JSON_parse now now' input server w
      = (inl (queryFailure PageOutOfRange), w)).
Proof.
  intros Hr. split.
  - intros Hex. apply range_test_exceeds in Hex.
    unfold executeQueryLogs, tryCatch, bindM, pure, buildQueryContext.
    rewrite Hr, Hex. reflexivity.
  - intros Hok p Hp Hbig.
    destruct (buildQueryContext_within Date_parse now now' input s e Hr Hok)
      as (ctx & Hctx & _).
    unfold executeQueryLogs, tryCatch, bindM, pure. rewrite Hctx, Hp.
    rewrite (validatePagination_above p (Input.limit input) Hbig).
    reflexivity.
Qed.

Lemma validation_failures_witness :
  executeQueryLogs Reference.Date_parse Reference.Date_format
    Reference.JSON_parse now0 now0
    (customInput "2024-01-15T10:00:00Z" "2024-01-16T10:00:01Z")
    scenario503 initial
  = (inl (Throw Error
            (lit "Failed to query logs: Time range cannot exceed 24 hours")),
     initial)
  /\ executeQueryLogs Reference.Date_parse Reference.Date_format
       Reference.JSON_parse now0 now0 (pagedInput 101 10) scenario503 initial
     = (inl (Throw Error
               (lit "Failed to query logs: Page number cannot exceed 100")),
        initial).
Proof.
  split.
  - apply (proj1 (validation_failures_make_no_call Reference.Date_parse
                    Reference.Date_format Reference.JSON_parse now0 now0
                    (customInput "2024-01-15T10:00:00Z" "2024-01-16T10:00:01Z")
                    scenario503 initial
                    (Some 1705312800000) (Some 1705399201000) eq_refl)).
    exists 1705312800000, 1705399201000. repeat split; reflexivity.
  - apply (proj2 (validation_failures_make_no_call Reference.Date_parse
                    Reference.Date_format Reference.JSON_parse now0 now0
                    (pagedInput 101 10) scenario503 initial
                    (Some (now0 - 3600000)) (Some now0) eq_refl)
             ltac:(intros (a & b & Ha & Hb & Hgt);
                   injection Ha as <-; injection Hb as <-;
                   unfold now0 in Hgt; lia)
             101 eq_refl ltac:(lia)).
Defined.

(** ** The page returned by a successful call *)

Lemma slice_length_le {A} (l : list A) (a n : Z) :
  0 <= a -> 0 <= n -> Z.of_nat (List.length (slice l a (a + n))) <= n.
Proof.
  intros Ha Hn. unfold slice.
  replace (a <? 0) with false by (symmetry; apply Z.ltb_ge; lia).
  replace (a + n <? 0) with false by (symmetry; apply Z.ltb_ge; lia).
  rewrite length_firstn. lia.
Qed.

(** Reading a property without an exception gives what the optional
    read gives. *)
Lemma getProp_getPropOpt v (k : string) x :
  getProp v k = inr x -> getPropOpt v k = x.
Proof. unfold getPropOpt. intros ->. reflexivity. Qed.

Lemma processLogEntry_reads log entry :
  processLogEntry log = inr entry -> normalises log entry.
Proof.
  unfold processLogEntry, normalises.
  destruct (getProp log "timestamp") as [e|ts] eqn:Hts;
    cbn [ResponseProcessor.bind]; [discriminate|].
  destruct (getProp log "severity") as [e|sev] eqn:Hsev;
    cbn [ResponseProcessor.bind]; [discriminate|].
  destruct (normalizeSeverity sev) as [e|label] eqn:Hlabel;
    cbn [ResponseProcessor.bind]; [discriminate|].
  destruct (getProp log "text") as [e|text] eqn:Htext;
    cbn [ResponseProcessor.bind]; [discriminate|].
  destruct (processMessageOf text) as [e|msg] eqn:Hmsg;
    cbn [ResponseProcessor.bind]; [discriminate|].
  destruct (getProp log "applicationName"); cbn [ResponseProcessor.bind];
    [discriminate|].
  destruct (getProp log "subsystemName"); cbn [ResponseProcessor.bind];
    [discriminate|].
  destruct (getProp log "computerName"); cbn [ResponseProcessor.bind];
    [discriminate|].
  destruct (getProp log "threadId"); cbn [ResponseProcessor.bind];
    [discriminate|].
  destruct (getProp log "className"); cbn [ResponseProcessor.bind];
    [discriminate|].
  destruct (getProp log "methodName"); cbn [ResponseProcessor.bind];
    [discriminate|].
  destruct (getProp log "category"); cbn [ResponseProcessor.bind];
    [discriminate|].
  intros H. injection H as <-.
  cbn [timestamp severity message].
  rewrite (getProp_getPropOpt _ _ _ Hts), (getProp_getPropOpt _ _ _ Hsev),
    (getProp_getPropOpt _ _ _ Htext).
  conjuncts; [reflexivity | exact Hlabel | exact Hmsg].
Qed.

Lemma mapM_normalises logs : forall entries,
  mapM processLogEntry logs = inr entries ->
  Forall2 normalises logs entries.
Proof.
  intros entries H. apply mapM_Forall2 in H.
  induction H; constructor;
    [apply processLogEntry_reads; assumption | assumption].
Qed.

(** A successful [queryLogs] is the parsed body of a successful answer
    of the retry loop. *)
Lemma queryLogs_success JSON_parse server request w response w' :
  queryLogs JSON_parse server request w = (inr response, w') ->
  exists answer,
    makeRequestWithRetry server 0 w = (inr answer, w')
    /\ ok answer = true
    /\ parseNdjson JSON_parse (text answer) = inr response.
Proof.
  unfold queryLogs, tryCatch, bindM, raise, ret.
  destruct (makeRequestWithRetry server 0 w) as [[e|answer] w1];
    [discriminate|].
  destruct (ok answer) eqn:Hok; cbn [negb]; [|discriminate].
  destruct (parseNdjson JSON_parse (text answer)) as [e|parsed] eqn:Hparsed;
    [discriminate|].
  intros H. injection H as -> ->. exists answer.
  conjuncts; [reflexivity | exact Hok | exact Hparsed].
Qed.

(** X17: when the call succeeds, the remote side gave a successful
    answer at the end of the retry loop, and the records returned are
    those of its parsed body from position (page - 1) * limit up to
    page * limit, normalised in order, with page and limit as resolved;
    so there are never more than limit of them, the limit of the context
    and the limit of the pagination being the same; and both next-page
    flags are true exactly when the page is full. *)
Theorem page_window
  Date_parse Date_format JSON_parse now now' input server w out w' :
  executeQueryLogs Date_parse Date_format JSON_parse now now' input server w
  = (inr out, w') ->
  exists ctx p l answer response records,
    buildQueryContext Date_parse now now' input = inr ctx
    /\ validatePagination (Input.page input) (Input.limit input) = inr (p, l)
    /\ Context.limit ctx = l
    /\ makeRequestWithRetry server 0 w = (inr answer, w')
    /\ ok answer = true
    /\ parseNdjson JSON_parse (text answer) = inr response
    /\ (getProp response "logs" = inr (JArr records)
        \/ (records = [] /\ lacks "logs" response))
    /\ Forall2 normalises (slice records ((p - 1) * l) (p * l))
                          (ResponseProcessor.logs out)
    /\ Z.of_nat (List.length (ResponseProcessor.logs out)) <= l
    /\ ResponseProcessor.page (summary out) = p
    /\ currentPage (pagination out) = p
    /\ (hasNextPage (summary out) = true
        <-> Z.of_nat (List.length (ResponseProcessor.logs out)) = l)
    /\ (nextPageAvailable (pagination out) = true
        <-> Z.of_nat (List.length (ResponseProcessor.logs out)) = l).
Proof.
  unfold executeQueryLogs, tryCatch.
  match goal with
  | |- (match ?c w with _ => _ end) = _ -> _ =>
      destruct (c w) as [[err|o] w1] eqn:Hbody
  end; [unfold raise; discriminate|].
  unfold ret. intros H. injection H as -> ->.
  unfold bindM, pure in Hbody.
  destruct (buildQueryContext Date_parse now now' input) as [err|ctx] eqn:Hctx;
    [discriminate|].
  destruct (validatePagination (Input.page input) (Input.limit input))
    as [err|[p l]] eqn:Hvp; [discriminate|].
  destruct (toISOString Date_format (Context.start (Context.timeRange ctx)))
    as [err|startIso] eqn:Hstart; [discriminate|].
  destruct (toISOString Date_format (Context.end_ (Context.timeRange ctx)))
    as [err|endIso] eqn:Hend; [discriminate|].
  match type of Hbody with
  | context [queryLogs JSON_parse server ?rq w] =>
      destruct (queryLogs JSON_parse server rq w)
        as [[err|response] w2] eqn:Hq
  end; [discriminate|].
  destruct (getProp response "logs") as [err|responseLogs] eqn:Hlogs;
    [discriminate|].
  pose proof (validatePagination_bounds _ _ _ _ Hvp) as [Hp Hl].
  assert (Hoff : calculateOffset p l = (p - 1) * l).
  { unfold calculateOffset. assert (0 <= (p - 1) * l) by nia. lia. }
  assert (Hoff0 : 0 <= (p - 1) * l) by nia.
  assert (Hlimit : Context.limit ctx = l).
  { rewrite (buildQueryContext_limit _ _ _ _ _ Hctx),
      (validatePagination_limit _ _ _ _ Hvp). reflexivity. }
  rewrite Hoff in Hbody.
  replace ((p - 1) * l + l) with (p * l) in Hbody by lia.
  assert (Hpage : exists records,
             (inr responseLogs = inr (A:=exn) (JArr records)
              \/ (records = [] /\ truthy responseLogs = false))
             /\ processLogs Date_format
                  (slice records ((p - 1) * l) (p * l)) ctx p
                  (getPropOpt response "total")
                = inr out /\ w2 = w').
  { unfold orElse, getPropOpt in *. destruct (truthy responseLogs) eqn:Htruthy.
    - destruct responseLogs as [| |b|z|s|records|fields];
        try discriminate Hbody; try discriminate Htruthy.
      exists records. split; [left; reflexivity|]. unfold ret in Hbody.
      destruct (getProp response "total") as [err|total]; [discriminate|].
      destruct (processLogs _ _ _ _ _) as [err|o']; [discriminate|].
      injection Hbody as -> ->. split; reflexivity.
    - exists []. split; [right; split; reflexivity|].
      unfold ret in Hbody.
      destruct (getProp response "total") as [err|total]; [discriminate|].
      destruct (processLogs _ _ _ _ _) as [err|o']; [discriminate|].
      injection Hbody as -> ->. split; reflexivity. }
  destruct Hpage as (records & Hrecords & Hout & ->).
  destruct (queryLogs_success _ _ _ _ _ _ Hq) as (answer & Hanswer & Hok & Hparsed).
  unfold processLogs in Hout.
  destruct (mapM processLogEntry _) as [err|entries] eqn:Hentries;
    cbn [ResponseProcessor.bind] in Hout; [discriminate|].
  rewrite Hstart, Hend in Hout. cbn [ResponseProcessor.bind] in Hout.
  injection Hout as <-.
  cbn [ResponseProcessor.logs summary pagination ResponseProcessor.page
       currentPage hasNextPage nextPageAvailable].
  pose proof (mapM_length _ _ _ Hentries) as Hlen.
  pose proof (slice_length_le records ((p - 1) * l) l Hoff0 ltac:(lia))
    as Hslice.
  replace ((p - 1) * l + l) with (p * l) in Hslice by lia.
  exists ctx, p, l, answer, response, records.
  conjuncts; try assumption; try reflexivity.
  - destruct Hrecords as [Hr|[Hr Hf]]; [left; rewrite Hlogs; exact Hr|].
    right. split; [exact Hr|]. exists responseLogs.
    split; [exact Hlogs | exact Hf].
  - apply mapM_normalises. exact Hentries.
  - rewrite Hlen. exact Hslice.
  - rewrite Hlen, Hlimit. apply Z.eqb_eq.
  - rewrite Hlen, Hlimit. apply Z.eqb_eq.
Qed.

Lemma page_window_witness :
  exists out,
    executeQueryLogs Reference.Date_parse Reference.Date_format
      Reference.JSON_parse now0 now0 (pagedInput 2 2)
      (fun _ => Resolves responseThreeRecords) initial
    = (inr out, World 1 [])
    /\ Z.of_nat (List.length (ResponseProcessor.logs out)) <= 2.
Proof.
  eexists. split; [vm_compute; reflexivity|].
  destruct (page_window Reference.Date_parse Reference.Date_format
              Reference.JSON_parse now0 now0 (pagedInput 2 2)
              (fun _ => Resolves responseThreeRecords) initial _ _
              ltac:(vm_compute; reflexivity))
    as (ctx & p & l & answer & response & records & _ & Hvp & _ & _ & _ & _
        & _ & _ & Hle & _).
  vm_compute in Hvp. injection Hvp as <- <-. exact Hle.
Defined.

(** ** Failures of the remote side *)

(** X18: once the range and the page are accepted, a failure of the
    remote side reaches the caller behind both prefixes, after the calls
    and sleeps of the retry loop: a [fetch] still rejected at the last
    attempt with its own message, and a final response that is not a
    success with its status, its status text and the first 500
    characters of its body. *)
Theorem remote_failure_reaches_caller
  Date_parse Date_format JSON_parse now now' input server w s e p l w' :
  resolveTimeRange Date_parse now input = (Some s, Some e) ->
  e - s <= 24 * 60 * 60 * 1000 ->
  validatePagination (Input.page input) (Input.limit input) = inr (p, l) ->
  (forall cause,
      makeRequestWithRetry server 0 w = (inl cause, w') ->
      executeQueryLogs Date_parse Date_format JSON_parse now now' input server w
      = (inl (Throw Error
                (lit "Failed to query logs: Failed to query Coralogix: "
                   ++ Runtime.message cause)), w'))
  /\ (forall response,
         makeRequestWithRetry server 0 w = (inr response, w') ->
         ok response = false ->
         executeQueryLogs Date_parse Date_format JSON_parse now now' input
           server w
         = (inl (Throw Error
                   (lit "Failed to query logs: Failed to query Coralogix: Coralogix API error: "
                      ++ showZ (status response) ++ lit " "
                      ++ statusText response ++ lit ". Response: "
                      ++ substring (text response) 0 500)), w')).
Proof.
  intros Hr Hle Hvp.
  assert (Hin : ~ exceeds24h (Some s) (Some e)).
  { intros (a & b & Ha & Hb & Hgt). injection Ha as <-. injection Hb as <-.
    lia. }
  destruct (buildQueryContext_within Date_parse now now' input _ _ Hr Hin)
    as (ctx & Hctx & Hrange).
  split.
  - intros cause Hfetch.
    unfold executeQueryLogs, tryCatch, bindM, pure. rewrite Hctx, Hvp, Hrange.
    cbn [Context.start Context.end_ toISOString].
    unfold queryLogs, tryCatch, bindM. rewrite Hfetch. reflexivity.
  - intros response Hfetch Hok.
    unfold executeQueryLogs, tryCatch, bindM, pure. rewrite Hctx, Hvp, Hrange.
    cbn [Context.start Context.end_ toISOString].
    unfold queryLogs, tryCatch, bindM. rewrite Hfetch, Hok. reflexivity.
Qed.

(** A remote side that cannot be reached, and one that keeps answering
    503: four calls, three sleeps, and the doubly prefixed error. *)
Lemma remote_failure_witness :
  executeQueryLogs Reference.Date_parse Reference.Date_format
    Reference.JSON_parse now0 now0 (presetInput TF_1h)
    (fun _ => Rejects (Throw TypeError (lit "fetch failed"))) initial
  = (inl (Throw Error
            (lit "Failed to query logs: Failed to query Coralogix: fetch failed")),
     World 4 [1000; 2000; 4000])
  /\ executeQueryLogs Reference.Date_parse Reference.Date_format
       Reference.JSON_parse now0 now0 (presetInput TF_1h)
       (fun _ => Resolves response503) initial
     = (inl (Throw Error
               (lit "Failed to query logs: Failed to query Coralogix: Coralogix API error: 503 Service Unavailable. Response: ")),
        World 4 [1000; 2000; 4000]).
Proof.
  split.
  - apply (proj1 (remote_failure_reaches_caller Reference.Date_parse
                    Reference.Date_format Reference.JSON_parse now0 now0
                    (presetInput TF_1h)
                    (fun _ => Rejects (Throw TypeError (lit "fetch failed")))
                    initial (now0 - 3600000) now0 1 20
                    (World 4 [1000; 2000; 4000])
                    eq_refl ltac:(unfold now0; lia) eq_refl)
             (Throw TypeError (lit "fetch failed"))).
    vm_compute. reflexivity.
  - apply (proj2 (remote_failure_reaches_caller Reference.Date_parse
                    Reference.Date_format Reference.JSON_parse now0 now0
                    (presetInput TF_1h) (fun _ => Resolves response503)
                    initial (now0 - 3600000) now0 1 20
                    (World 4 [1000; 2000; 4000])
                    eq_refl ltac:(unfold now0; lia) eq_refl)
             response503).
    + vm_compute. reflexivity.
    + reflexivity.
Defined.

(** ** What an optimised query looks like *)

(** X19: an optimised DataPrime query always holds a limit stage: the
    trimmed query is kept when it has one already, in any case of the
    letters, and gets the stage of 50 rows appended otherwise.  An
    optimised Lucene query is the trimmed query, bare or between double
    quotes, and is empty, the wildcard, or holds a colon, an opening
    parenthesis or a double quote. *)
Theorem optimized_query_shape (q : str) :
  includes (lit "| limit") (toLowerCase (optimizeQuery q dataprime)) = true
  /\ (includes (lit "| limit") (toLowerCase (trim q)) = true ->
      optimizeQuery q dataprime = trim q)
  /\ (includes (lit "| limit") (toLowerCase (trim q)) = false ->
      optimizeQuery q dataprime = trim q ++ lit " | limit 50")
  /\ (optimizeQuery q lucene = []
      \/ optimizeQuery q lucene = lit "*"
      \/ includes (lit ":") (optimizeQuery q lucene)
         || includes (lit "(") (optimizeQuery q lucene)
         || includes [chr 34] (optimizeQuery q lucene) = true)
  /\ (optimizeQuery q lucene = trim q
      \/ optimizeQuery q lucene = [chr 34] ++ trim q ++ [chr 34]).
Proof.
  cbn [optimizeQuery]. unfold optimizeDataPrimeQuery, optimizeLuceneQuery.
  cbv zeta. change (showZ MCP_LIMITS.MAX_LIMIT) with (lit "50").
  conjuncts.
  - destruct (includes (lit "| limit") (toLowerCase (trim q))) eqn:Hl;
      cbn [negb]; [exact Hl|].
    unfold toLowerCase. rewrite map_app. apply includes_app_left. reflexivity.
  - intros ->. reflexivity.
  - intros ->. reflexivity.
  - destruct (eqs (trim q) (lit "*")) eqn:Hstar; cbn [orb].
    + right. left. apply eqs_eq. exact Hstar.
    + destruct (eqs (trim q) []) eqn:Hempty.
      * left. apply eqs_eq. exact Hempty.
      * right. right.
        destruct (includes (lit ":") (trim q)) eqn:Hcolon; cbn [negb andb];
          [rewrite Hcolon; reflexivity|].
        destruct (includes (lit "(") (trim q)) eqn:Hparen; cbn [negb andb];
          [rewrite Hcolon, Hparen; reflexivity|].
        destruct (includes [chr 34] (trim q)) eqn:Hq; cbn [negb andb].
        -- rewrite Hq. rewrite !orb_true_r. reflexivity.
        -- assert (Hquote : includes [chr 34] ([chr 34] ++ trim q ++ [chr 34])
                            = true) by reflexivity.
           rewrite Hquote. rewrite !orb_true_r. reflexivity.
  - destruct (eqs (trim q) (lit "*") || eqs (trim q) []); [left; reflexivity|].
    destruct (negb (includes (lit ":") (trim q))
              && negb (includes (lit "(") (trim q))
              && negb (includes [chr 34] (trim q)));
      [right | left]; reflexivity.
Qed.

(** A query with a limit stage in capitals is only trimmed; one without
    gets the stage appended. *)
Lemma optimized_query_shape_witness :
  optimizeQuery (lit " source logs | LIMIT 5 ") dataprime
  = lit "source logs | LIMIT 5"
  /\ optimizeQuery (lit "source logs | filter x > 1") dataprime
     = lit "source logs | filter x > 1 | limit 50".
Proof.
  split.
  - apply (proj1 (proj2 (optimized_query_shape
                           (lit " source logs | LIMIT 5 ")))).
    reflexivity.
  - apply (proj1 (proj2 (proj2 (optimized_query_shape
                                  (lit "source logs | filter x > 1"))))).
    reflexivity.
Defined.
